(** * down-git: the URL-to-archive pipeline

    A shallow embedding of the two library files of the repository,
    [lib/github-parser.ts] (the URL parser) and [lib/github-services.ts]
    (the tree walker, the file fetcher and the job orchestrator), together
    with the JavaScript string primitives and the part of JSZip they call.

    Conventions of the embedding:
    - a JavaScript string is a [string]; its characters stand for the code
      units below 256, which is where every character the parser looks at
      ([/], the letters of [github.com], white space) lives;
    - a JavaScript number that is used as an index or a percentage is a [Z];
    - [null] is [None];
    - the REST API reached through [axios.get] is a function of the request
      URL, one per payload type the source expects at the call site;
    - a thrown exception is an outcome of its own, next to a normal return. *)

From Stdlib Require Import ZArith Lia Ascii String List Bool Sorted.
From stdpp Require Import base gmap strings list fin_maps.

Local Open Scope string_scope.
Local Open Scope Z_scope.

(** ** JavaScript string primitives *)

Module JS.

(** White space removed by [String.prototype.trim]: TAB, LF, VT, FF, CR,
    SPACE and NBSP (the members of WhiteSpace and LineTerminator below
    256). *)
Definition isWhiteSpace (c : ascii) : bool :=
  match N_of_ascii c with
  | 9%N | 10%N | 11%N | 12%N | 13%N | 32%N | 160%N => true
  | _ => false
  end.

Fixpoint trimStart (s : string) : string :=
  match s with
  | EmptyString => EmptyString
  | String c s' => if isWhiteSpace c then trimStart s' else s
  end.

Fixpoint trimEnd (s : string) : string :=
  match s with
  | EmptyString => EmptyString
  | String c s' =>
      match trimEnd s' with
      | EmptyString => if isWhiteSpace c then EmptyString else String c EmptyString
      | r => String c r
      end
  end.

(** [s.trim()] *)
Definition trim (s : string) : string := trimEnd (trimStart s).

(** [s.endsWith(t)] *)
Fixpoint endsWith (s t : string) : bool :=
  String.eqb s t ||
  match s with
  | EmptyString => false
  | String _ s' => endsWith s' t
  end.

Fixpoint take (n : nat) (s : string) : string :=
  match n, s with
  | S n', String c s' => String c (take n' s')
  | _, _ => EmptyString
  end.

Fixpoint drop (n : nat) (s : string) : string :=
  match n, s with
  | S n', String _ s' => drop n' s'
  | _, _ => s
  end.

(** A relative index of [slice]: negative counts from the end, and the
    result is clamped to [0, len]. *)
Definition clampIndex (len i : Z) : Z :=
  if i <? 0 then Z.max (len + i) 0 else Z.min i len.

(** [s.slice(start, end)] *)
Definition slice (s : string) (start end_ : Z) : string :=
  let len := Z.of_nat (String.length s) in
  let from := clampIndex len start in
  let to := clampIndex len end_ in
  take (Z.to_nat (Z.max (to - from) 0)) (drop (Z.to_nat from) s).

(** [s.slice(start)] *)
Definition sliceFrom (s : string) (start : Z) : string :=
  slice s start (Z.of_nat (String.length s)).

Fixpoint indexOfFrom (s t : string) (i : Z) : Z :=
  if String.prefix t s then i
  else match s with
       | EmptyString => -1
       | String _ s' => indexOfFrom s' t (i + 1)
       end.

(** [s.indexOf(t)]: the first position of [t] in [s], or [-1]. *)
Definition indexOf (s t : string) : Z := indexOfFrom s t 0.

(** [s.includes(t)] *)
Fixpoint includes (s t : string) : bool :=
  String.prefix t s ||
  match s with
  | EmptyString => false
  | String _ s' => includes s' t
  end.

(** [s.split(sep)] for a separator of one character: never empty, the
    empty string splits into one empty piece. *)
Fixpoint split (s : string) (sep : ascii) : list string :=
  match s with
  | EmptyString => [EmptyString]
  | String c s' =>
      if Ascii.eqb c sep then EmptyString :: split s' sep
      else match split s' sep with
           | piece :: pieces => String c piece :: pieces
           | [] => [String c EmptyString]
           end
  end.

(** [parts.join(sep)] *)
Definition join (parts : list string) (sep : string) : string :=
  String.concat sep parts.

(** Truthiness of a string: only the empty string is falsy. *)
Definition truthy (s : string) : bool := negb (String.eqb s "").

(** [a || b] on strings *)
Definition orElse (a b : string) : string := if truthy a then a else b.

End JS.

(** ** lib/github-parser.ts *)

Module Parser.

Inductive UrlType := type_file | type_directory.

Record ParsedGitHubUrl := {
  owner : string;
  repo : string;
  branch : string;
  path : string;
  type : UrlType
}.

Definition githubPrefix : string := "github.com/".

(** The first two statements: trim, then drop one trailing slash. *)
Definition cleanUrl (url : string) : string :=
  let url := JS.trim url in
  if JS.endsWith url "/" then JS.slice url 0 (-1) else url.

(** The body of the [try]: no statement of it throws on a string, so the
    [catch] is never entered. The three variables assigned in the branches
    are returned together. *)
Definition parseGitHubUrl (url : string) : option ParsedGitHubUrl :=
  let url := cleanUrl url in
  if negb (JS.includes url "github.com") then None
  else
    let startIndex := JS.indexOf url githubPrefix in
    if startIndex =? -1 then None
    else
      let pathParts :=
        JS.split (JS.sliceFrom url (startIndex + Z.of_nat (String.length githubPrefix))) "/" in
      if (length pathParts <? 2)%nat then None
      else
        let owner := nth 0 pathParts "" in
        let repo := nth 1 pathParts "" in
        let '(branch, path, type) :=
          if (3 <? length pathParts)%nat then
            let specifier := nth 2 pathParts "" in
            if String.eqb specifier "tree" || String.eqb specifier "blob" then
              (nth 3 pathParts "",
               (if (4 <? length pathParts)%nat
                then JS.join (List.skipn 4 pathParts) "/" else ""),
               (if String.eqb specifier "tree" then type_directory else type_file))
            else ("main", "", type_directory)
          else ("main", "", type_directory) in
        Some {| owner := owner; repo := repo; branch := branch; path := path; type := type |}.

End Parser.

(** ** JSZip: the archive the job writes into

    The model keeps the [files] object of the root instance, a map from
    entry name to entry. It follows JSZip 3 ([generateAsync] is its API):
    [file] and [folder] add the missing parent folders ([createFolders] is
    on by default), a folder entry is stored under its name with a trailing
    slash, and [folder] leaves an existing entry alone. Text given with the
    option [base64] is decoded when the archive is generated, not when it
    is added, so that is where text that is no base64 makes the call fail;
    and the archive is generated from the entries that have a name. *)

Module JSZip.

Inductive Data :=
  | Binary (bytes : string)       (* an ArrayBuffer *)
  | Base64 (content : string)     (* text given with the option base64 *)
  | Text (content : string)       (* a plain string *)
  | Folder.                       (* a directory entry *)

Definition forceTrailingSlash (path : string) : string :=
  if JS.endsWith path "/" then path else path +:+ "/".

Fixpoint lastIndexOfFrom (s : string) (c : ascii) (i : Z) : Z :=
  match s with
  | EmptyString => -1
  | String a s' =>
      let r := lastIndexOfFrom s' c (i + 1) in
      if r =? -1 then (if Ascii.eqb a c then i else -1) else r
  end.

Definition parentFolder (path : string) : string :=
  let path := if JS.endsWith path "/" then JS.slice path 0 (-1) else path in
  let lastSlash := lastIndexOfFrom path "/" 0 in
  if 0 <? lastSlash then JS.take (Z.to_nat lastSlash) path else "".

(** [folderAdd] with [createFolders]: the folder and, first, its missing
    ancestors. [depth] bounds the number of ancestors visited; a name has
    fewer ancestors than characters. *)
Fixpoint folderAddUpTo (depth : nat) (name : string) (files : gmap string Data)
  : gmap string Data :=
  let name := forceTrailingSlash name in
  match files !! name with
  | Some _ => files
  | None =>
      let parent := parentFolder name in
      let files :=
        match depth with
        | O => files
        | S depth' =>
            if JS.truthy parent then folderAddUpTo depth' parent files else files
        end in
      <[name := Folder]> files
  end.

Definition folderAdd (name : string) (files : gmap string Data) : gmap string Data :=
  folderAddUpTo (String.length name) name files.

(** [fileAdd] for a file entry, [createFolders] on. *)
Definition fileAdd (name : string) (data : Data) (files : gmap string Data)
  : gmap string Data :=
  let parent := parentFolder name in
  let files := if JS.truthy parent then folderAdd parent files else files in
  <[name := data]> files.

(** [zip.file(name, data)] on the root instance *)
Definition file (name : string) (data : Data) (files : gmap string Data)
  : gmap string Data :=
  fileAdd name data files.

(** [zip.folder(arg)] on the root instance; the returned sub-instance is
    not used by the callers. *)
Definition folder (arg : string) (files : gmap string Data) : gmap string Data :=
  if negb (JS.truthy arg) then files else folderAdd arg files.

(** The characters the decoder keeps, [A-Za-z0-9+/=]; it drops every
    other one before it looks at the length. *)
Definition isBase64Char (c : ascii) : bool :=
  let n := nat_of_ascii c in
  ((65 <=? n) && (n <=? 90) || (97 <=? n) && (n <=? 122) || (48 <=? n) && (n <=? 57)
   || (n =? 43) || (n =? 47) || (n =? 61))%nat.

Fixpoint countBase64 (input : string) : nat :=
  match input with
  | EmptyString => O
  | String c rest => ((if isBase64Char c then 1 else 0) + countBase64 rest)%nat
  end.

Definition dataUrlMessage : string := "Invalid base64 input, it looks like a data url.".
Definition badLengthMessage : string := "Invalid base64 input, bad content length.".

(** What the base64 decoder throws for [input], if anything: it refuses
    text that starts like a data URL, and text whose kept characters do not
    make three quarters of their number an integer. *)
Definition decodeError (input : string) : option string :=
  if String.prefix "data:" input then Some dataUrlMessage
  else if ((3 * countBase64 input) mod 4 =? 0)%nat then None
  else Some badLengthMessage.

(** What reading the content of an entry throws, if anything. *)
Definition entryError (d : Data) : option string :=
  match d with
  | Base64 content => decodeError content
  | _ => None
  end.

(** [forEach] passes over an entry whose name relative to the root is
    empty: the archive is made of the others. *)
Definition entries (files : gmap string Data) : gmap string Data := delete "" files.

(** [zip.generateAsync]: the entries of the archive, or the message of the
    error of the first entry whose content cannot be read. The worker takes
    the entries in the key order of the [files] object, which the map does
    not keep; the first here is the first in the order of the map. The two
    agree whenever the entries that fail all fail with the same message. *)
Definition generated (files : gmap string Data) : string + gmap string Data :=
  match omap (fun entry => entryError (snd entry)) (map_to_list (entries files)) with
  | [] => inr (entries files)
  | msg :: _ => inl msg
  end.

End JSZip.

(** ** The REST API, as lib/github-services.ts declares and uses it *)

Module GitHub.

Inductive ContentType := item_file | item_dir | item_symlink | item_submodule.

(** A row of the contents endpoint; [url], [html_url], [git_url] and
    [_links] are never read and are left out. *)
Record GitHubContent := {
  name : string;
  path : string;
  sha : string;
  size : Z;
  download_url : option string;
  type : ContentType
}.

(** The payload of the blob endpoint. *)
Record BlobData := { content : string; encoding : string }.

(** What [axios.get] throws: an AxiosError, whose response status is
    absent when no response arrived, or any other exception. *)
Inductive JsError :=
  | AxiosError (status : option Z) (message : string)
  | PlainError (message : string).

Definition message (e : JsError) : string :=
  match e with AxiosError _ m => m | PlainError m => m end.

(** [axios.isAxiosError(error) && error.response?.status === code] *)
Definition hasStatus (error : JsError) (code : Z) : bool :=
  match error with
  | AxiosError (Some s) _ => s =? code
  | _ => false
  end.

(** The REST API as the mock of a test sees it: the answer to a GET is a
    function of the URL, typed by what the call site expects. *)
Record Api := {
  listing : string -> JsError + list GitHubContent;
  fileInfo : string -> JsError + GitHubContent;
  blob : string -> JsError + BlobData;
  raw : string -> JsError + string
}.

End GitHub.

(** ** lib/github-services.ts *)

Module Services.

Import GitHub.

(** The state one job works on: its archive, the calls its [onProgress]
    callback has received, and what was handed to [FileSaver.saveAs]. *)
Record Job := {
  zip : gmap string JSZip.Data;
  reported : list (Z * string);
  saved : option (string * gmap string JSZip.Data)
}.

Definition startJob : Job := {| zip := ∅; reported := []; saved := None |}.

(** How an asynchronous call ends. [Diverged] is the embedding's own: the
    recursion bound of the tree walk was reached. *)
Inductive Outcome (A : Type) :=
  | Returned (a : A)
  | Thrown (e : JsError)
  | Diverged.
Arguments Returned {A} a.
Arguments Thrown {A} e.
Arguments Diverged {A}.

Definition Run (A : Type) : Type := Job -> Outcome A * Job.

Definition ret {A} (a : A) : Run A := fun j => (Returned a, j).

Definition bind {A B} (m : Run A) (k : A -> Run B) : Run B :=
  fun j =>
    match m j with
    | (Returned a, j') => k a j'
    | (Thrown e, j') => (Thrown e, j')
    | (Diverged, j') => (Diverged, j')
    end.

Definition throw {A} (e : JsError) : Run A := fun j => (Thrown e, j).

Definition diverge {A} : Run A := fun j => (Diverged, j).

(** [try { body } catch (error) { handler }] *)
Definition tryCatch {A} (body : Run A) (handler : JsError -> Run A) : Run A :=
  fun j =>
    match body j with
    | (Thrown e, j') => handler e j'
    | r => r
    end.

Notation "x <- m ;; k" := (bind m (fun x => k))
  (at level 100, m at next level, right associativity, only parsing).
Notation "m ;; k" := (bind m (fun _ => k))
  (at level 100, right associativity, only parsing).

(** [await axios.get(url)], given the mock's answer *)
Definition axiosGet {A} (response : JsError + A) : Run A :=
  match response with
  | inl e => throw e
  | inr data => ret data
  end.

Definition zipFile (name : string) (data : JSZip.Data) : Run unit :=
  fun j => (Returned tt,
            {| zip := JSZip.file name data (zip j); reported := reported j; saved := saved j |}).

Definition zipFolder (name : string) : Run unit :=
  fun j => (Returned tt,
            {| zip := JSZip.folder name (zip j); reported := reported j; saved := saved j |}).

Definition newZip : Run unit :=
  fun j => (Returned tt, {| zip := ∅; reported := reported j; saved := saved j |}).

(** [zip.generateAsync({type: "blob"})]: the blob holds the entries that
    have a name; the call throws when the content of one of them cannot be
    read. Saving is the work of FileSaver and does not fail here. *)
Definition generateAsync : Run (gmap string JSZip.Data) :=
  fun j =>
    match JSZip.generated (zip j) with
    | inl msg => (Thrown (PlainError msg), j)
    | inr content => (Returned content, j)
    end.

Definition saveAs (content : gmap string JSZip.Data) (filename : string) : Run unit :=
  fun j => (Returned tt,
            {| zip := zip j; reported := reported j; saved := Some (filename, content) |}).

(** The callback of the page: it records what it is given. *)
Definition onProgress (progress : Z) (msg : string) : Run unit :=
  fun j => (Returned tt,
            {| zip := zip j; reported := reported j ++ [(progress, msg)]; saved := saved j |}).

(** [for (let i = start; ...; i++) body(i, items[i])], left early by a
    throw. *)
Fixpoint forEachFrom {A} (body : Z -> A -> Run unit) (i : Z) (items : list A)
  : Run unit :=
  match items with
  | [] => ret tt
  | item :: rest => body i item ;; forEachFrom body (i + 1) rest
  end.

Definition contentsUrl (owner repo branch path : string) : string :=
  "https://api.github.com/repos/" +:+ owner +:+ "/" +:+ repo +:+ "/contents/"
    +:+ path +:+ "?ref=" +:+ branch.

Definition blobUrl (owner repo sha : string) : string :=
  "https://api.github.com/repos/" +:+ owner +:+ "/" +:+ repo +:+ "/git/blobs/" +:+ sha.

Definition placeholder : string :=
  "Error: Could not download this file. It might be too large or inaccessible.".

(** [!fileInfo.download_url] is true for [null] and for the empty string. *)
Definition urlOrEmpty (u : option string) : string :=
  match u with Some s => s | None => "" end.

(** [30 + Math.floor((i / n) * 40)], for [0 <= i < n]. The source computes
    in doubles. When [40 * i / n] is an integer [k], the quotient [i / n] is
    the double nearest to [k / 40], and its product with 40 rounds back to
    [k] (forty cases). Otherwise [40 * i / n] is at least [1 / n] away from
    an integer, far more than the rounding error of the two operations for
    any array length. So the floor is the integer quotient of [40 * i] by
    [n]. *)
Definition progressPercent (i n : Z) : Z := 30 + (i * 40) / n.

Section WithApi.

Variable api : Api.

Definition addFileToZip (owner repo branch path zipPath : string) : Run unit :=
  tryCatch
    (let apiUrl := contentsUrl owner repo branch path in
     info <- axiosGet (fileInfo api apiUrl) ;;
     if negb (JS.truthy (urlOrEmpty (download_url info))) then
       let blobUrl := blobUrl owner repo (sha info) in
       blobResponse <- axiosGet (blob api blobUrl) ;;
       let content := content blobResponse in
       let encoding := encoding blobResponse in
       if String.eqb encoding "base64" then
         zipFile (JS.orElse zipPath (name info)) (JSZip.Base64 content)
       else
         throw (PlainError ("Unsupported encoding: " +:+ encoding))
     else
       fileResponse <- axiosGet (raw api (urlOrEmpty (download_url info))) ;;
       zipFile (JS.orElse zipPath (name info)) (JSZip.Binary fileResponse))
    (fun error =>
       zipFile
         (JS.orElse (JS.orElse zipPath (List.last (JS.split path "/") "")) "unknown-file")
         (JSZip.Text placeholder)).

(** The recursion follows the answers of the API, so the embedding bounds
    its nesting depth by [fuel]; a walk that needs more ends [Diverged]. *)
Fixpoint fetchDirectoryContents (fuel : nat)
    (owner repo branch path zipPath : string) : Run unit :=
  match fuel with
  | O => diverge
  | S fuel' =>
      let apiUrl := contentsUrl owner repo branch path in
      tryCatch
        (contents <- axiosGet (listing api apiUrl) ;;
         forEachFrom
           (fun i item =>
              let itemPath := GitHub.path item in
              let itemName := name item in
              let itemZipPath :=
                if JS.truthy zipPath then zipPath +:+ "/" +:+ itemName else itemName in
              onProgress (progressPercent i (Z.of_nat (length contents)))
                         ("Processing " +:+ itemPath +:+ "...") ;;
              match type item with
              | item_dir =>
                  zipFolder itemZipPath ;;
                  fetchDirectoryContents fuel' owner repo branch itemPath itemZipPath
              | item_file => addFileToZip owner repo branch itemPath itemZipPath
              | _ => ret tt
              end)
           0 contents)
        (fun error =>
           if hasStatus error 404 then zipFolder (JS.orElse zipPath path)
           else throw error)
  end.

Definition getZipFilename (repo path : string) : string :=
  if negb (JS.truthy path) then repo +:+ ".zip"
  else
    let pathParts := JS.split path "/" in
    let lastPart := nth (length pathParts - 1) pathParts "" in
    repo +:+ "-" +:+ lastPart +:+ ".zip".

Definition rateLimitMessage : string :=
  "GitHub API rate limit exceeded. Please try again later.".
Definition notFoundMessage : string :=
  "Repository, folder, or file not found. Please check the URL and try again.".
Definition authMessage : string :=
  "Authentication required. Private repositories are not supported without authentication.".

(** The [catch] block of [downloadRepository]: what it throws for what it
    caught. *)
Definition rethrown (error : JsError) : JsError :=
  if hasStatus error 403 then PlainError rateLimitMessage
  else if hasStatus error 404 then PlainError notFoundMessage
  else if hasStatus error 401 then PlainError authMessage
  else error.

Definition downloadRepository (fuel : nat) (parsedUrl : Parser.ParsedGitHubUrl)
  : Run bool :=
  let owner := Parser.owner parsedUrl in
  let repo := Parser.repo parsedUrl in
  let branch := Parser.branch parsedUrl in
  let path := Parser.path parsedUrl in
  newZip ;;
  let zipFilename := getZipFilename repo path in
  tryCatch
    ((match Parser.type parsedUrl with
      | Parser.type_file =>
          addFileToZip owner repo branch path "" ;;
          onProgress 70 "Creating ZIP file..."
      | Parser.type_directory =>
          fetchDirectoryContents fuel owner repo branch path "" ;;
          onProgress 70 "Creating ZIP file..."
      end) ;;
     onProgress 80 "Generating ZIP file..." ;;
     content <- generateAsync ;;
     onProgress 90 "Starting download..." ;;
     saveAs content zipFilename ;;
     ret true)
    (fun error => throw (rethrown error)).

End WithApi.

End Services.

(** ** app/page.tsx: the handlers of the page *)

Module Page.

Import GitHub Services.

Inductive StatusType := idle | loading | success | error.

(** The [status] state of the component; [progress] is optional. *)
Record Status := {
  type : StatusType;
  message : string;
  progress : option Z
}.

(** The callback the page gives to [downloadRepository]:
    [(progress, message) => setStatus({type: "loading", message, progress})],
    applied to one recorded call. *)
Definition progressStatus (report : Z * string) : Status :=
  {| type := loading; message := snd report; progress := Some (fst report) |}.

Definition fetchingMessage (parsedUrl : Parser.ParsedGitHubUrl) : string :=
  "Fetching contents from " +:+ Parser.owner parsedUrl +:+ "/" +:+ Parser.repo parsedUrl
    +:+ (if JS.truthy (Parser.path parsedUrl)
         then " at " +:+ Parser.path parsedUrl else "")
    +:+ "...".

Definition invalidUrlMessage : string :=
  "Invalid GitHub URL. Please enter a valid GitHub repository URL.".

Definition completeMessage : string :=
  "Download complete! If your download didn't start automatically, click the button again.".

(** What one call of [handleDownload] does: whether it came to its end
    (it does, unless the walk was cut by the recursion bound), the calls of
    [setStatus] in order, and the state of the job it ran. *)
Record Handled := {
  ended : bool;
  statuses : list Status;
  job : Job
}.

(** [handleDownload], for the [url] in the state of the component. Every
    exception of the model is an [Error], so the [catch] shows its
    message. *)
Definition handleDownload (api : Api) (fuel : nat) (url : string) : Handled :=
  let validating :=
    {| type := loading; message := "Validating URL..."; progress := Some 10 |} in
  match Parser.parseGitHubUrl url with
  | None =>
      {| ended := true;
         statuses :=
           [validating;
            {| type := error; message := invalidUrlMessage; progress := None |}];
         job := startJob |}
  | Some parsedUrl =>
      let fetching :=
        {| type := loading; message := fetchingMessage parsedUrl; progress := Some 30 |} in
      match downloadRepository api fuel parsedUrl startJob with
      | (Returned _, j) =>
          {| ended := true;
             statuses :=
               [validating; fetching] ++ map progressStatus (reported j)
               ++ [{| type := success; message := completeMessage;
                      progress := Some 100 |}];
             job := j |}
      | (Thrown e, j) =>
          {| ended := true;
             statuses :=
               [validating; fetching] ++ map progressStatus (reported j)
               ++ [{| type := error; message := GitHub.message e; progress := None |}];
             job := j |}
      | (Diverged, j) =>
          {| ended := false;
             statuses := [validating; fetching] ++ map progressStatus (reported j);
             job := j |}
      end
  end.

Definition isLoading (status : Status) : bool :=
  match type status with loading => true | _ => false end.

(** [handleKeyDown]: whether the key starts [handleDownload]. *)
Definition handleKeyDown (key url : string) (status : Status) : bool :=
  String.eqb key "Enter" && JS.truthy (JS.trim url) && negb (isLoading status).

(** The [disabled] attribute of the button. *)
Definition buttonDisabled (url : string) (status : Status) : bool :=
  isLoading status || negb (JS.truthy (JS.trim url)).

End Page.

(** * Definitions used to state and prove the properties *)

(** ** Strings *)

Module StringSpec.

(** The part of [s] after the first occurrence of [t]. *)
Fixpoint afterFirst (s t : string) : option string :=
  if String.prefix t s then Some (JS.drop (String.length t) s)
  else match s with
       | EmptyString => None
       | String _ s' => afterFirst s' t
       end.

(** [s] without one trailing slash. *)
Fixpoint chopSlash (s : string) : string :=
  match s with
  | EmptyString => EmptyString
  | String c s' =>
      match s' with
      | EmptyString => if Ascii.eqb c "/" then EmptyString else s
      | _ => String c (chopSlash s')
      end
  end.

Fixpoint countChar (c : ascii) (s : string) : nat :=
  match s with
  | EmptyString => O
  | String a s' => ((if Ascii.eqb a c then 1 else 0) + countChar c s')%nat
  end.

(** [s] without its last character. *)
Fixpoint removeLast (s : string) : string :=
  match s with
  | EmptyString => EmptyString
  | String c s' => match s' with EmptyString => EmptyString | _ => String c (removeLast s') end
  end.

(** No character of [s] is white space. *)
Fixpoint noWhiteSpace (s : string) : bool :=
  match s with
  | EmptyString => true
  | String c s' => negb (JS.isWhiteSpace c) && noWhiteSpace s'
  end.

(** Every character of [s] is white space. *)
Fixpoint allWhiteSpace (s : string) : bool :=
  match s with
  | EmptyString => true
  | String c s' => JS.isWhiteSpace c && allWhiteSpace s'
  end.

End StringSpec.

(** ** The parser *)

Module ParserSpec.

Import Parser.

(** The address of a repository root. *)
Definition rootAddress (o r : string) : ParsedGitHubUrl :=
  {| owner := o; repo := r; branch := "main"; path := ""; type := type_directory |}.

(** The address the parser builds from the pieces that follow the marker,
    read off their number and the third piece. *)
Definition addressOfParts (pathParts : list string) : option ParsedGitHubUrl :=
  match pathParts with
  | o :: r :: specifier :: b :: rest =>
      if String.eqb specifier "tree" then
        Some {| owner := o; repo := r; branch := b;
                path := JS.join rest "/"; type := type_directory |}
      else if String.eqb specifier "blob" then
        Some {| owner := o; repo := r; branch := b;
                path := JS.join rest "/"; type := type_file |}
      else Some (rootAddress o r)
  | o :: r :: _ => Some (rootAddress o r)
  | _ => None
  end.

(** The pieces of [url] after its first ["github.com/"], if it has one. *)
Definition piecesAfterMarker (url : string) : option (list string) :=
  if JS.indexOf url githubPrefix =? -1 then None
  else Some (JS.split
               (JS.sliceFrom url (JS.indexOf url githubPrefix
                                  + Z.of_nat (String.length githubPrefix))) "/").

(** A name as it appears in a well-formed URL: not empty, without slash
    and without white space. *)
Definition isSegment (s : string) : bool :=
  JS.truthy s && StringSpec.noWhiteSpace s && (StringSpec.countChar "/" s =? 0)%nat.

End ParserSpec.

(** ** The job *)

Module ServicesSpec.

Import GitHub Services.

(** What [addFileToZip] obtains for a path: the name in the metadata and
    the entry to store, or nothing when a request fails or the encoding
    is not supported. *)
Definition fetched (api : Api) (owner repo branch path : string)
  : option (string * JSZip.Data) :=
  match fileInfo api (contentsUrl owner repo branch path) with
  | inl _ => None
  | inr info =>
      if negb (JS.truthy (urlOrEmpty (download_url info))) then
        match blob api (blobUrl owner repo (sha info)) with
        | inl _ => None
        | inr b =>
            if String.eqb (encoding b) "base64"
            then Some (name info, JSZip.Base64 (content b)) else None
        end
      else
        match raw api (urlOrEmpty (download_url info)) with
        | inl _ => None
        | inr bytes => Some (name info, JSZip.Binary bytes)
        end
  end.

(** The name of a placeholder written at the archive root. *)
Definition fallbackName (path : string) : string :=
  JS.orElse (List.last (JS.split path "/") "") "unknown-file".

(** The entry name and the entry [addFileToZip] writes. *)
Definition fileKey (api : Api) (owner repo branch path zipPath : string) : string :=
  match fetched api owner repo branch path with
  | Some (n, _) => JS.orElse zipPath n
  | None => JS.orElse zipPath (fallbackName path)
  end.

Definition fileData (api : Api) (owner repo branch path : string) : JSZip.Data :=
  match fetched api owner repo branch path with
  | Some (_, d) => d
  | None => JSZip.Text placeholder
  end.

(** The ZIP path of an entry of a directory whose ZIP path is [zipPath]. *)
Definition itemZipPath (zipPath itemName : string) : string :=
  if JS.truthy zipPath then zipPath +:+ "/" +:+ itemName else itemName.

Definition setZip (z : gmap string JSZip.Data) (j : Job) : Job :=
  {| zip := z; reported := reported j; saved := saved j |}.

(** The mock answers every listing with non-empty entry names. *)
Definition namesOk (api : Api) : Prop :=
  forall url l item, listing api url = inr l -> In item l -> name item <> "".

(** The same mock, except for the answer to one raw download. *)
Definition withRaw (api : Api) (url : string) (r : JsError + string) : Api :=
  {| listing := listing api; fileInfo := fileInfo api; blob := blob api;
     raw := fun u => if String.eqb u url then r else raw api u |}.

(** The same mock, except for the answer of the blob endpoint at one URL. *)
Definition withBlob (api : Api) (url : string) (r : JsError + BlobData) : Api :=
  {| listing := listing api; fileInfo := fileInfo api; raw := raw api;
     blob := fun u => if String.eqb u url then r else blob api u |}.

(** An entry is the same in both archives, or replaced by the placeholder
    in the second. *)
Definition dataRel (d d' : JSZip.Data) : Prop :=
  d' = d \/ d' = JSZip.Text placeholder.

Definition zipRel (z z' : gmap string JSZip.Data) : Prop :=
  forall k, option_Forall2 dataRel (z !! k) (z' !! k).

Definition jobRel (j j' : Job) : Prop :=
  zipRel (zip j) (zip j') /\ reported j = reported j' /\
  option_Forall2 (fun s s' => fst s = fst s' /\ zipRel (snd s) (snd s'))
                 (saved j) (saved j').

(** Two runs end the same way, in related states. *)
Definition runRel {A} (m m' : Run A) : Prop :=
  forall j j', jobRel j j' -> fst (m j) = fst (m' j') /\ jobRel (snd (m j)) (snd (m' j')).

(** The second mock lists what the first lists, and every file it serves
    is the one the first serves, or fails. *)
Definition apiRel (api api' : Api) : Prop :=
  (forall url, listing api' url = listing api url) /\
  (forall o r b p, dataRel (fileData api o r b p) (fileData api' o r b p)).

(** The walk started at [path], with ZIP path [zipPath], comes to the
    entry [item] and gives it the ZIP path [k]. *)
Inductive reaches (api : Api) (owner repo branch : string)
  : string -> string -> GitHubContent -> string -> Prop :=
  | reaches_entry path zipPath l item :
      listing api (contentsUrl owner repo branch path) = inr l ->
      In item l ->
      reaches api owner repo branch path zipPath item (itemZipPath zipPath (name item))
  | reaches_nested path zipPath l d item k :
      listing api (contentsUrl owner repo branch path) = inr l ->
      In d l -> type d = item_dir ->
      reaches api owner repo branch (GitHub.path d) (itemZipPath zipPath (name d)) item k ->
      reaches api owner repo branch path zipPath item k.

(** Every run of the relation [R] between the states before and after. *)
Definition steps {A} (R : Job -> Job -> Prop) (m : Run A) : Prop :=
  forall j, R j (snd (m j)).

(** Whatever the run throws satisfies [E]. *)
Definition throwsOnly {A} (E : JsError -> Prop) (m : Run A) : Prop :=
  forall j e j', m j = (Thrown e, j') -> E e.

(** The reports added between two states all satisfy [P]. *)
Definition reportsAdded (P : Z -> Prop) (j j' : Job) : Prop :=
  exists added, reported j' = (reported j ++ added)%list /\ Forall (fun e => P (fst e)) added.

(** A job that walks no subdirectory: a file job, or a directory job whose
    top-level listing has no directory entry. *)
Definition flatJob (api : Api) (parsedUrl : Parser.ParsedGitHubUrl) : Prop :=
  Parser.type parsedUrl = Parser.type_file \/
  forall l,
    listing api (contentsUrl (Parser.owner parsedUrl) (Parser.repo parsedUrl)
                   (Parser.branch parsedUrl) (Parser.path parsedUrl)) = inr l ->
    Forall (fun item => type item <> item_dir) l.

(** The three reports that close a successful job. *)
Definition closingReports : list (Z * string) :=
  [(70, "Creating ZIP file..."); (80, "Generating ZIP file...");
   (90, "Starting download...")].

(** The two reports made before the archive is generated. *)
Definition generatingReports : list (Z * string) :=
  [(70, "Creating ZIP file..."); (80, "Generating ZIP file...")].

(** Every entry that has a name can be read when the archive is generated. *)
Definition readable (files : gmap string JSZip.Data) : Prop :=
  forall k d, files !! k = Some d -> k <> "" -> JSZip.entryError d = None.

(** The end of a job whose walk has returned in the state [j]: the archive
    is generated and saved under [zipFilename] after the three closing
    reports, or generating it throws after the first two. *)
Definition closing (zipFilename : string) (j : Job) : Outcome bool * Job :=
  match JSZip.generated (zip j) with
  | inr content =>
      (Returned true,
       {| zip := zip j; reported := reported j ++ closingReports;
          saved := Some (zipFilename, content) |})
  | inl msg =>
      (Thrown (PlainError msg),
       {| zip := zip j; reported := reported j ++ generatingReports;
          saved := saved j |})
  end.

(** The body of the loop of [fetchDirectoryContents] for the entry [item]
    at index [i] of a listing of [n] entries. *)
Definition walkEntry (api : Api) (fuel : nat) (owner repo branch zipPath : string)
    (n : Z) (i : Z) (item : GitHubContent) : Run unit :=
  onProgress (progressPercent i n) ("Processing " +:+ GitHub.path item +:+ "...") ;;
  match type item with
  | item_dir =>
      zipFolder (itemZipPath zipPath (name item)) ;;
      fetchDirectoryContents api fuel owner repo branch (GitHub.path item)
                             (itemZipPath zipPath (name item))
  | item_file =>
      addFileToZip api owner repo branch (GitHub.path item)
                   (itemZipPath zipPath (name item))
  | _ => ret tt
  end.

(** The entry at [k] is the placeholder text. *)
Definition holdsPlaceholder (k : string) (j : Job) : Prop :=
  zip j !! k = Some (JSZip.Text placeholder).

(** What holds before still holds after. *)
Definition keeps (P : Job -> Prop) (j j' : Job) : Prop := P j -> P j'.

(** Every file the walk from [path] comes to at ZIP path [k] fails. *)
Definition allFail (api : Api) (o r b k path zipPath : string) : Prop :=
  forall item, reaches api o r b path zipPath item k -> type item = item_file ->
               fileData api o r b (GitHub.path item) = JSZip.Text placeholder.

(** The metadata of [item] is served and names [url] for its bytes. *)
Definition servedFrom (api : Api) (o r b : string) (item : GitHubContent)
    (url : string) : Prop :=
  exists info, fileInfo api (contentsUrl o r b (GitHub.path item)) = inr info /\
               download_url info = Some url /\ url <> "".

(** The metadata of [item] is served with [download_url = null], and its
    blob is at [url]. *)
Definition blobAt (api : Api) (o r b : string) (item : GitHubContent)
    (url : string) : Prop :=
  exists info, fileInfo api (contentsUrl o r b (GitHub.path item)) = inr info /\
               download_url info = None /\ blobUrl o r (sha info) = url.

(** The metadata of [item] is served without a download URL and names
    [s] as its [sha]: its content is asked of the blob endpoint at [s]. *)
Definition blobKeyed (api : Api) (o r b : string) (item : GitHubContent)
    (s : string) : Prop :=
  exists info, fileInfo api (contentsUrl o r b (GitHub.path item)) = inr info /\
               JS.truthy (urlOrEmpty (download_url info)) = false /\ sha info = s.

(** Two archives have the same entry names, and the same entries except
    at the names in [K]. *)
Definition sameOutside (K : string -> Prop) (z z' : gmap string JSZip.Data) : Prop :=
  dom z = dom z' /\ forall k, ~ K k -> z !! k = z' !! k.

(** Two runs end the same way, with archives that differ at most in [K]. *)
Definition runSame {A} (K : string -> Prop) (m m' : Run A) : Prop :=
  forall j j', sameOutside K (zip j) (zip j') ->
               fst (m j) = fst (m' j') /\
               sameOutside K (zip (snd (m j))) (zip (snd (m' j'))).

(** *** Four claims, in the words of the specification *)

(** "Progress values reported to the caller are non-decreasing across the
    lifetime of one job." *)
Definition progressNeverDecreases : Prop :=
  forall api fuel parsedUrl out j,
    downloadRepository api fuel parsedUrl startJob = (out, j) ->
    Sorted Z.le (map fst (reported j)).

(** "A 404 at the directory-listing endpoint is recovered by creating an
    empty-directory marker at the corresponding ZIP path." *)
Definition notFoundLeavesMarker : Prop :=
  forall api fuel o r b path zipPath j e,
    listing api (contentsUrl o r b path) = inl e -> hasStatus e 404 = true ->
    exists j',
      fetchDirectoryContents api (S fuel) o r b path zipPath j = (Returned tt, j') /\
      zip j' !! JSZip.forceTrailingSlash zipPath = Some JSZip.Folder.


(** "A file job whose metadata request fails places a placeholder named
    from the last segment of the path and reports success." *)
Definition placeholderNamedFromPath : Prop :=
  forall api fuel parsedUrl e,
    Parser.type parsedUrl = Parser.type_file ->
    fileInfo api (contentsUrl (Parser.owner parsedUrl) (Parser.repo parsedUrl)
                    (Parser.branch parsedUrl) (Parser.path parsedUrl)) = inl e ->
    exists j',
      downloadRepository api fuel parsedUrl startJob = (Returned true, j') /\
      zip j' !! List.last (JS.split (Parser.path parsedUrl) "/") ""
      = Some (JSZip.Text placeholder).

End ServicesSpec.

(** ** Mocks of the REST API *)

Module Mock.

Import GitHub Services.

Definition notFound : JsError :=
  AxiosError (Some 404) "Request failed with status code 404".

Definition networkError : JsError := AxiosError None "Network Error".

(** A mock given by a table of answers; any other URL is not found. *)
Fixpoint respond {A} (table : list (string * (JsError + A))) (url : string)
  : JsError + A :=
  match table with
  | [] => inl notFound
  | (u, answer) :: rest => if String.eqb u url then answer else respond rest url
  end.

Definition fileEntry (n p : string) : GitHubContent :=
  {| name := n; path := p; sha := "sha-" +:+ p; size := 1;
     download_url := Some ("https://raw.githubusercontent.com/o/r/main/" +:+ p);
     type := item_file |}.

Definition largeFileEntry (n p : string) : GitHubContent :=
  {| name := n; path := p; sha := "sha-" +:+ p; size := 2000000;
     download_url := None; type := item_file |}.

Definition dirEntry (n p : string) : GitHubContent :=
  {| name := n; path := p; sha := "sha-" +:+ p; size := 0;
     download_url := None; type := item_dir |}.

Definition contentsOf (p : string) : string := contentsUrl "o" "r" "main" p.

(** Nothing exists. *)
Definition emptyApi : Api :=
  {| listing := respond []; fileInfo := respond []; blob := respond [];
     raw := respond [] |}.

(** A root with the directory [A] of three files, then the file [B]. *)
Definition nestedApi : Api :=
  {| listing :=
       respond [ (contentsOf "", inr [dirEntry "A" "A"; fileEntry "B" "B"]);
                 (contentsOf "A",
                  inr [fileEntry "f1" "A/f1"; fileEntry "f2" "A/f2";
                       fileEntry "f3" "A/f3"]) ];
     fileInfo :=
       respond [ (contentsOf "B", inr (fileEntry "B" "B"));
                 (contentsOf "A/f1", inr (fileEntry "f1" "A/f1"));
                 (contentsOf "A/f2", inr (fileEntry "f2" "A/f2"));
                 (contentsOf "A/f3", inr (fileEntry "f3" "A/f3")) ];
     blob := respond [];
     raw :=
       respond [ ("https://raw.githubusercontent.com/o/r/main/B", inr "bytes of B");
                 ("https://raw.githubusercontent.com/o/r/main/A/f1", inr "bytes of f1");
                 ("https://raw.githubusercontent.com/o/r/main/A/f2", inr "bytes of f2");
                 ("https://raw.githubusercontent.com/o/r/main/A/f3", inr "bytes of f3") ] |}.

(** A root with a small file and a large one, served by the blob endpoint. *)
Definition flatApi : Api :=
  {| listing :=
       respond [ (contentsOf "",
                  inr [fileEntry "a.txt" "a.txt"; largeFileEntry "big.bin" "big.bin"]) ];
     fileInfo :=
       respond [ (contentsOf "a.txt", inr (fileEntry "a.txt" "a.txt"));
                 (contentsOf "big.bin", inr (largeFileEntry "big.bin" "big.bin")) ];
     blob :=
       respond [ (blobUrl "o" "r" "sha-big.bin",
                  inr {| content := "AAEC"; encoding := "base64" |}) ];
     raw :=
       respond [ ("https://raw.githubusercontent.com/o/r/main/a.txt",
                  inr "bytes of a.txt") ] |}.

(** The root listing is refused: the rate limit is reached. *)
Definition limitedApi : Api :=
  {| listing :=
       respond [ (contentsOf "",
                  inl (AxiosError (Some 403) "Request failed with status code 403")) ];
     fileInfo := respond []; blob := respond []; raw := respond [] |}.

Definition rootDirectory : Parser.ParsedGitHubUrl :=
  {| Parser.owner := "o"; Parser.repo := "r"; Parser.branch := "main";
     Parser.path := ""; Parser.type := Parser.type_directory |}.

(** What the parser returns for [https://github.com/o/r/blob/main]. *)
Definition rootFile : Parser.ParsedGitHubUrl :=
  {| Parser.owner := "o"; Parser.repo := "r"; Parser.branch := "main";
     Parser.path := ""; Parser.type := Parser.type_file |}.

Definition readmeFile : Parser.ParsedGitHubUrl :=
  {| Parser.owner := "o"; Parser.repo := "r"; Parser.branch := "main";
     Parser.path := "docs/README.md"; Parser.type := Parser.type_file |}.

(** Every listing of the table has non-empty entry names. *)
Definition tableNamesOk (table : list (string * (JsError + list GitHubContent))) : bool :=
  forallb (fun row =>
             match snd row with
             | inl _ => true
             | inr l => forallb (fun item => JS.truthy (name item)) l
             end) table.

End Mock.

(** ** More definitions for the properties beyond the claims *)

Module ExtraSpec.

Import GitHub Services ServicesSpec.

(** The web URL of an address, in the format the parser documents. *)
Definition urlOf (a : Parser.ParsedGitHubUrl) : string :=
  "https://github.com/" +:+ Parser.owner a +:+ "/" +:+ Parser.repo a
    +:+ (match Parser.type a with
         | Parser.type_directory => "/tree/"
         | Parser.type_file => "/blob/"
         end)
    +:+ Parser.branch a
    +:+ (if JS.truthy (Parser.path a) then "/" +:+ Parser.path a else "").

(** Owner, repository and branch are well-formed names, and the path is
    made of well-formed names (none for the root). *)
Definition wellFormed (a : Parser.ParsedGitHubUrl) : Prop :=
  ParserSpec.isSegment (Parser.owner a) = true /\
  ParserSpec.isSegment (Parser.repo a) = true /\
  ParserSpec.isSegment (Parser.branch a) = true /\
  exists ps, Forall (fun s => ParserSpec.isSegment s = true) ps /\
             Parser.path a = JS.join ps "/".

(** Below [path], directories are nested at most [depth] deep in the
    answers of the mock. *)
Fixpoint nestedWithin (api : Api) (o r b : string) (depth : nat) (path : string)
  : Prop :=
  match listing api (contentsUrl o r b path) with
  | inl _ => True
  | inr l =>
      match depth with
      | O => Forall (fun item => type item <> item_dir) l
      | S depth' =>
          Forall (fun item => type item = item_dir ->
                              nestedWithin api o r b depth' (GitHub.path item)) l
      end
  end.

(** The same listings, and no file can be fetched. *)
Definition withoutFiles (api : Api) : Api :=
  {| listing := listing api;
     fileInfo := fun _ => inl (AxiosError None "Network Error");
     blob := fun _ => inl (AxiosError None "Network Error");
     raw := fun _ => inl (AxiosError None "Network Error") |}.

(** The archive has an entry named [k]. *)
Definition hasEntry (k : string) (j : Job) : Prop := is_Some (zip j !! k).

(** The name of the entry of an item the walk comes to at ZIP path [k]: a
    directory has a trailing slash, a symbolic link or a submodule has no
    entry. *)
Definition entryOf (item : GitHubContent) (k : string) : option string :=
  match type item with
  | item_file => Some k
  | item_dir => Some (JSZip.forceTrailingSlash k)
  | _ => None
  end.

(** Every entry that has a parent folder has it in the archive. *)
Definition parentClosed (z : gmap string JSZip.Data) : Prop :=
  forall k, is_Some (z !! k) -> JSZip.parentFolder k <> "" ->
            is_Some (z !! JSZip.forceTrailingSlash (JSZip.parentFolder k)).

(** The listings have entry names that are not empty and have no slash. *)
Definition plainNames (api : Api) : Prop :=
  forall url l item, listing api url = inr l -> In item l ->
                     name item <> "" /\ StringSpec.countChar "/" (name item) = O.

(** A listing of a symbolic link and a submodule, and a mock that serves it
    for the root of [o/r] at [main]. *)
Definition links : list GitHubContent :=
  [{| name := "link"; GitHub.path := "link"; sha := "s"; GitHub.size := 4;
      download_url := None; type := item_symlink |};
   {| name := "lib"; GitHub.path := "lib"; sha := "t"; GitHub.size := 0;
      download_url := None; type := item_submodule |}].

Definition linksApi : Api :=
  {| listing := Mock.respond [(Mock.contentsOf "", inr links)];
     fileInfo := Mock.respond []; blob := Mock.respond []; raw := Mock.respond [] |}.

End ExtraSpec.

(** * Facts about the string primitives *)

Module JSFacts.
Import JS StringSpec.

#[local] Arguments String.append : simpl nomatch.

Lemma app_nil_r s : s +:+ "" = s.
Proof. induction s; simpl; congruence. Qed.

Lemma app_assoc s t u : (s +:+ t) +:+ u = s +:+ (t +:+ u).
Proof. induction s; simpl; congruence. Qed.

Lemma length_app s t : String.length (s +:+ t) = (String.length s + String.length t)%nat.
Proof. induction s; simpl; congruence. Qed.

Lemma drop_app s t : drop (String.length s) (s +:+ t) = t.
Proof. induction s; simpl; auto. Qed.

Lemma drop_all s n : (String.length s <= n)%nat -> drop n s = "".
Proof.
  revert n; induction s as [|c s IH]; intros [|n] H; simpl in *; auto; try lia.
  apply IH; lia.
Qed.

Lemma take_all s n : (String.length s <= n)%nat -> take n s = s.
Proof.
  revert n; induction s as [|c s IH]; intros [|n] H; simpl in *; auto; try lia.
  f_equal; apply IH; lia.
Qed.

Lemma take_drop n s : take n s +:+ drop n s = s.
Proof.
  revert s; induction n as [|n IH]; intros [|c s]; simpl; auto.
  f_equal; apply IH.
Qed.

Lemma length_drop n s : String.length (drop n s) = (String.length s - n)%nat.
Proof. revert s; induction n as [|n IH]; intros [|c s]; simpl; auto. Qed.

Lemma prefix_app t r : String.prefix t (t +:+ r) = true.
Proof.
  induction t as [|a t IH]; simpl; [by destruct r|].
  destruct (ascii_dec a a); [done|congruence].
Qed.

Lemma prefix_inv t s : String.prefix t s = true -> s = t +:+ drop (String.length t) s.
Proof.
  revert s; induction t as [|a t IH]; intros [|b s] H; simpl in *; try done.
  destruct (ascii_dec a b) as [->|]; [|done]. f_equal; auto.
Qed.

Lemma prefix_length t s : String.prefix t s = true -> (String.length t <= String.length s)%nat.
Proof.
  intros H%prefix_inv. rewrite H, length_app. lia.
Qed.

Lemma prefix_app_l t s r : String.prefix t s = true -> String.prefix t (s +:+ r) = true.
Proof.
  intros H%prefix_inv. rewrite H, app_assoc. apply prefix_app.
Qed.

(** *** slice *)

Lemma sliceFrom_drop s k : 0 <= k -> sliceFrom s k = drop (Z.to_nat k) s.
Proof.
  intros Hk. unfold sliceFrom, slice, clampIndex.
  set (len := Z.of_nat (String.length s)).
  assert (0 <= len) by lia.
  destruct (k <? 0) eqn:E1; [lia|].
  destruct (len <? 0) eqn:E2; [lia|].
  rewrite Z.min_id.
  destruct (Z.le_gt_cases k len).
  - rewrite Z.min_l by lia. apply take_all. rewrite length_drop. lia.
  - rewrite Z.min_r by lia. rewrite Z.max_r by lia. 
    rewrite (drop_all s (Z.to_nat k)) by lia.
    rewrite (drop_all s (Z.to_nat len)) by lia. by destruct (Z.to_nat _).
Qed.

Lemma take_removeLast s : take (String.length s - 1) s = removeLast s.
Proof.
  induction s as [|c s IH]; simpl; auto.
  destruct s as [|d s]; simpl in *; auto.
  rewrite Nat.sub_0_r in *. by rewrite IH.
Qed.

Lemma slice_removeLast s : slice s 0 (-1) = removeLast s.
Proof.
  unfold slice, clampIndex.
  change (0 <? 0) with false. change (-1 <? 0) with true. cbv iota.
  rewrite (Z.min_l 0) by lia. change (Z.to_nat 0) with O.
  change (drop 0 s) with s.
  rewrite <- take_removeLast. f_equal. lia.
Qed.

Lemma endsWith_cons c s t :
  endsWith (String c s) t = String.eqb (String c s) t || endsWith s t.
Proof. reflexivity. Qed.

Lemma endsWith_slash s : endsWith s "/" = true <-> exists x, s = x +:+ "/".
Proof.
  induction s as [|c s IH].
  - split; [done|]. intros [[|? x] H]; simpl in H; congruence.
  - rewrite endsWith_cons, orb_true_iff, IH, String.eqb_eq. split.
    + intros [H|[x ->]].
      * exists "". by rewrite H.
      * by exists (String c x).
    + intros [[|d x] H]; simpl in H.
      * by left.
      * right. exists x. congruence.
Qed.

Lemma chopSlash_removeLast s :
  (if endsWith s "/" then removeLast s else s) = chopSlash s.
Proof.
  induction s as [|c s IH]; [done|].
  rewrite endsWith_cons.
  destruct s as [|d s].
  - cbn [endsWith chopSlash removeLast]. rewrite orb_false_r.
    destruct (Ascii.eqb_spec c "/") as [->|Hne]; [done|].
    destruct (String.eqb_spec (String c "") "/"); [congruence|done].
  - replace (String.eqb (String c (String d s)) "/") with false.
    2:{ symmetry. apply eqb_neq. congruence. }
    rewrite orb_false_l.
    change (chopSlash (String c (String d s))) with (String c (chopSlash (String d s))).
    rewrite <- IH.
    change (removeLast (String c (String d s))) with (String c (removeLast (String d s))).
    by destruct (endsWith (String d s) "/").
Qed.

Lemma chopSlash_spec s :
  (if endsWith s "/" then slice s 0 (-1) else s) = chopSlash s.
Proof. rewrite slice_removeLast. apply chopSlash_removeLast. Qed.

(** *** First occurrences: indexOf, includes *)

Lemma prefix_nil_r t : t <> "" -> String.prefix t "" = false.
Proof. by destruct t. Qed.

Lemma prefix_app_inv t u s : String.prefix (t +:+ u) s = true -> String.prefix t s = true.
Proof.
  revert s; induction t as [|a t IH]; intros [|b s]; simpl; try done.
  destruct (ascii_dec a b); auto.
Qed.

Lemma afterFirst_cons s t c :
  afterFirst (String c s) t =
    if String.prefix t (String c s) then Some (drop (String.length t) (String c s))
    else afterFirst s t.
Proof. reflexivity. Qed.

Lemma afterFirst_hit s t :
  String.prefix t s = true -> afterFirst s t = Some (drop (String.length t) s).
Proof. intros H. destruct s; cbn [afterFirst]; by rewrite H. Qed.

Lemma afterFirst_app t r : afterFirst (t +:+ r) t = Some r.
Proof. rewrite afterFirst_hit by apply prefix_app. by rewrite drop_app. Qed.

Lemma afterFirst_length s t r :
  afterFirst s t = Some r -> (String.length t <= String.length s)%nat.
Proof.
  induction s as [|c s IH].
  - cbn [afterFirst]. destruct (String.prefix t "") eqn:E; [|done].
    intros _. by apply prefix_length in E.
  - rewrite afterFirst_cons. destruct (String.prefix t (String c s)) eqn:E.
    + intros _. by apply prefix_length in E.
    + intros H%IH. simpl. lia.
Qed.

Lemma afterFirst_short s t :
  (String.length s < String.length t)%nat -> afterFirst s t = None.
Proof.
  intros H. destruct (afterFirst s t) eqn:E; [|done].
  apply afterFirst_length in E. lia.
Qed.

Lemma indexOfFrom_afterFirst s t i :
  0 <= i ->
  match afterFirst s t with
  | None => indexOfFrom s t i = -1
  | Some r =>
      i <= indexOfFrom s t i /\
      drop (Z.to_nat (indexOfFrom s t i - i) + String.length t) s = r
  end.
Proof.
  revert i; induction s as [|c s IH]; intros i Hi.
  - cbn [afterFirst indexOfFrom]. destruct (String.prefix t ""); [|done].
    split; [lia|]. by rewrite Z.sub_diag.
  - rewrite afterFirst_cons. cbn [indexOfFrom].
    destruct (String.prefix t (String c s)).
    + split; [lia|]. by rewrite Z.sub_diag.
    + specialize (IH (i + 1) ltac:(lia)).
      destruct (afterFirst s t) as [r|]; [|done].
      destruct IH as [Hle Hdrop]. split; [lia|].
      replace (Z.to_nat (indexOfFrom s t (i + 1) - i))
        with (S (Z.to_nat (indexOfFrom s t (i + 1) - (i + 1)))) by lia.
      exact Hdrop.
Qed.

Lemma indexOf_none s t : indexOf s t = -1 <-> afterFirst s t = None.
Proof.
  unfold indexOf. pose proof (indexOfFrom_afterFirst s t 0 ltac:(lia)) as H.
  destruct (afterFirst s t); [|done]. split; [lia|done].
Qed.

Lemma indexOf_some s t r :
  afterFirst s t = Some r ->
  0 <= indexOf s t /\ sliceFrom s (indexOf s t + Z.of_nat (String.length t)) = r.
Proof.
  unfold indexOf. pose proof (indexOfFrom_afterFirst s t 0 ltac:(lia)) as H.
  intros E. rewrite E in H. destruct H as [Hle Hdrop]. split; [done|].
  rewrite sliceFrom_drop by lia. rewrite <- Hdrop. f_equal. lia.
Qed.

Lemma includes_afterFirst s t : includes s t = true <-> afterFirst s t <> None.
Proof.
  induction s as [|c s IH].
  - cbn [afterFirst includes]. destruct (String.prefix t ""); simpl; split; congruence.
  - rewrite afterFirst_cons. cbn [includes].
    destruct (String.prefix t (String c s)); simpl; [split; congruence|done].
Qed.

Lemma includes_app_l s t u : includes s (t +:+ u) = true -> includes s t = true.
Proof.
  induction s as [|c s IH]; cbn [includes]; rewrite !orb_true_iff.
  - intros [H|H]; [|done]. left. by eapply prefix_app_inv.
  - intros [H|H]; [left; by eapply prefix_app_inv|right; auto].
Qed.

(** An occurrence, stated with concatenation. *)
Lemma includes_spec s t : includes s t = true <-> exists a b, s = a +:+ t +:+ b.
Proof.
  induction s as [|c s IH]; cbn [includes]; rewrite orb_true_iff.
  - split.
    + intros [H|H]; [|done]. apply prefix_inv in H. by exists "", (drop (String.length t) "").
    + intros (a & b & H). left. destruct a; [|done]. simpl in H. rewrite H. apply prefix_app.
  - rewrite IH. split.
    + intros [H|(a & b & ->)].
      * apply prefix_inv in H. by exists "", (drop (String.length t) (String c s)).
      * by exists (String c a), b.
    + intros ([|d a] & b & H); simpl in H.
      * left. rewrite H. apply prefix_app.
      * right. exists a, b. congruence.
Qed.

(** *** trim *)

Lemma trimEnd_cons c s :
  trimEnd (String c s) =
    match trimEnd s with
    | EmptyString => if isWhiteSpace c then EmptyString else String c EmptyString
    | r => String c r
    end.
Proof. reflexivity. Qed.

Lemma trimEnd_cons_keep c s :
  isWhiteSpace c = false -> trimEnd (String c s) = String c (trimEnd s).
Proof. intros H. rewrite trimEnd_cons, H. by destruct (trimEnd s). Qed.

Lemma trimEnd_app_clean t r :
  noWhiteSpace t = true -> trimEnd (t +:+ r) = t +:+ trimEnd r.
Proof.
  induction t as [|c t IH]; [done|]. cbn [noWhiteSpace].
  intros [Hc Ht]%andb_true_iff. apply negb_true_iff in Hc.
  change (String c t +:+ r) with (String c (t +:+ r)).
  rewrite trimEnd_cons_keep by done. by rewrite IH.
Qed.

Lemma trimEnd_split s : exists w, s = trimEnd s +:+ w /\ allWhiteSpace w = true.
Proof.
  induction s as [|c s (w & IH & Hw)]; [by exists ""|].
  rewrite trimEnd_cons. destruct (trimEnd s) as [|d r] eqn:E.
  - destruct (isWhiteSpace c) eqn:Ec.
    + exists (String c s). split; [done|]. simpl in IH. subst w.
      cbn [allWhiteSpace]. by rewrite Ec, Hw.
    + exists w. split; [|done]. simpl in *. congruence.
  - exists w. split; [|done]. simpl in *. congruence.
Qed.

Lemma trimEnd_allWhiteSpace s : allWhiteSpace s = true -> trimEnd s = "".
Proof.
  induction s as [|c s IH]; [done|]. cbn [allWhiteSpace].
  intros [Hc Hs]%andb_true_iff. by rewrite trimEnd_cons, IH, Hc.
Qed.

Lemma trimStart_allWhiteSpace s : allWhiteSpace s = true -> trimStart s = "".
Proof.
  induction s as [|c s IH]; [done|]. cbn [allWhiteSpace trimStart].
  intros [Hc Hs]%andb_true_iff. rewrite Hc. auto.
Qed.

Lemma trimEnd_keep_last s c :
  isWhiteSpace c = false -> trimEnd (s +:+ String c "") = s +:+ String c "".
Proof.
  intros Hc. induction s as [|d s IH].
  - simpl. by rewrite Hc.
  - change (String d s +:+ String c "") with (String d (s +:+ String c "")).
    rewrite trimEnd_cons, IH. by destruct s.
Qed.

Section Marker.

(** A marker [t] that starts with [g], has no white space and ends with a
    slash: the shape of ["github.com/"]. *)
Variables (g : ascii) (t0 : string).
Let t := String g t0 +:+ "/".
Hypothesis t_clean : noWhiteSpace t = true.

Lemma marker_head_keep : isWhiteSpace g = false.
Proof.
  pose proof t_clean as H. unfold t in H. cbn in H.
  apply andb_true_iff in H as [H _]. by apply negb_true_iff.
Qed.

Lemma marker_cons_white c s : isWhiteSpace c = true -> String.prefix t (String c s) = false.
Proof.
  intros Hc. pose proof marker_head_keep as Hg.
  unfold t. cbn. destruct (ascii_dec g c) as [E|]; [|done].
  rewrite E in Hg. congruence.
Qed.

Lemma marker_prefix_nil : String.prefix t "" = false.
Proof. reflexivity. Qed.

Lemma afterFirst_trimStart s : afterFirst (trimStart s) t = afterFirst s t.
Proof.
  induction s as [|c s IH]; [done|]. cbn [trimStart].
  destruct (isWhiteSpace c) eqn:Ec; [|done].
  by rewrite afterFirst_cons, marker_cons_white.
Qed.

Lemma prefix_trimEnd s : String.prefix t (trimEnd s) = String.prefix t s.
Proof.
  destruct (String.prefix t s) eqn:E.
  - apply prefix_inv in E. rewrite E, trimEnd_app_clean by done. apply prefix_app.
  - destruct (String.prefix t (trimEnd s)) eqn:E'; [|done].
    destruct (trimEnd_split s) as (w & Hs & _).
    apply (prefix_app_l _ _ w) in E'. congruence.
Qed.

Lemma afterFirst_trimEnd s :
  afterFirst (trimEnd s) t = trimEnd <$> afterFirst s t.
Proof.
  induction s as [|c s IH]; [cbn; by destruct (String.prefix t "")|].
  rewrite afterFirst_cons.
  destruct (String.prefix t (String c s)) eqn:E.
  - apply prefix_inv in E. rewrite E at 1.
    rewrite trimEnd_app_clean by done. by rewrite afterFirst_app.
  - pose proof E as E'. rewrite <- prefix_trimEnd in E'.
    rewrite trimEnd_cons in *. destruct (trimEnd s) as [|d r] eqn:Er.
    + assert (afterFirst s t = None) as ->.
      { destruct (afterFirst s t); [|done]. cbn [afterFirst] in IH.
        by rewrite marker_prefix_nil in IH. }
      destruct (isWhiteSpace c); cbn [afterFirst]; [by rewrite marker_prefix_nil|].
      by rewrite E', marker_prefix_nil.
    + by rewrite afterFirst_cons, E'.
Qed.

(** *** Dropping the trailing slash *)

Lemma chopSlash_cons c s :
  s <> "" -> chopSlash (String c s) = String c (chopSlash s).
Proof. by destruct s. Qed.

Lemma chopSlash_app x r : r <> "" -> chopSlash (x +:+ r) = x +:+ chopSlash r.
Proof.
  intros Hr. induction x as [|c x IH]; [done|].
  change (String c x +:+ r) with (String c (x +:+ r)).
  rewrite chopSlash_cons, IH; [done|]. destruct x; [done|]. by simpl.
Qed.

Lemma chopSlash_snoc x : chopSlash (x +:+ "/") = x.
Proof.
  induction x as [|c x IH]; [done|].
  change (String c x +:+ "/") with (String c (x +:+ "/")).
  rewrite chopSlash_cons, IH; [done|]. by destruct x.
Qed.

Lemma chopSlash_split s : exists w, s = chopSlash s +:+ w.
Proof.
  induction s as [|c s (w & IH)]; [by exists ""|].
  destruct s as [|d s].
  - cbn. destruct (Ascii.eqb c "/"); [by exists (String c "")|by exists ""].
  - rewrite chopSlash_cons by done. exists w.
    change (String c (chopSlash (String d s)) +:+ w)
      with (String c (chopSlash (String d s) +:+ w)). by rewrite <- IH.
Qed.

Lemma afterFirst_chopSlash s :
  afterFirst (chopSlash s) t =
    match afterFirst s t with
    | Some (String c r) => Some (chopSlash (String c r))
    | _ => None
    end.
Proof.
  induction s as [|c s IH]; [cbn; by destruct (String.prefix t "")|].
  rewrite afterFirst_cons.
  destruct (String.prefix t (String c s)) eqn:E.
  - apply prefix_inv in E.
    destruct (drop (String.length t) (String c s)) as [|d r] eqn:Er.
    + rewrite E. unfold t at 1. rewrite app_nil_r, chopSlash_snoc.
      apply afterFirst_short. unfold t. rewrite length_app. simpl. lia.
    + rewrite E, chopSlash_app by done. by rewrite afterFirst_app.
  - assert (String.prefix t (chopSlash (String c s)) = false) as E'.
    { destruct (String.prefix t (chopSlash (String c s))) eqn:E'; [|done].
      destruct (chopSlash_split (String c s)) as (w & Hw).
      apply (prefix_app_l _ _ w) in E'. congruence. }
    destruct s as [|d s].
    + cbn [chopSlash] in *. cbn [afterFirst]. rewrite marker_prefix_nil.
      destruct (Ascii.eqb c "/"); cbn [afterFirst]; by rewrite ?E, marker_prefix_nil.
    + rewrite chopSlash_cons in * by done. by rewrite afterFirst_cons, E'.
Qed.

End Marker.

(** *** split *)

Lemma split_cons c s sep :
  split (String c s) sep =
    if Ascii.eqb c sep then EmptyString :: split s sep
    else match split s sep with
         | piece :: pieces => String c piece :: pieces
         | [] => [String c EmptyString]
         end.
Proof. reflexivity. Qed.

Lemma split_length s sep : length (split s sep) = S (countChar sep s).
Proof.
  induction s as [|c s IH]; [done|].
  rewrite split_cons. cbn [countChar].
  destruct (Ascii.eqb c sep); simpl; [by rewrite IH|].
  destruct (split s sep); simpl in *; lia.
Qed.

Lemma split_whole s sep : countChar sep s = O -> split s sep = [s].
Proof.
  induction s as [|c s IH]; [done|]. cbn [countChar]. rewrite split_cons.
  destruct (Ascii.eqb c sep); [done|]. intros H. by rewrite IH.
Qed.

Lemma split_app a b sep :
  countChar sep a = O -> split (a +:+ String sep b) sep = a :: split b sep.
Proof.
  induction a as [|c a IH]; cbn [countChar].
  - intros _. change ("" +:+ String sep b) with (String sep b).
    by rewrite split_cons, Ascii.eqb_refl.
  - change (String c a +:+ String sep b) with (String c (a +:+ String sep b)).
    rewrite split_cons. destruct (Ascii.eqb c sep); [done|].
    intros H. by rewrite IH.
Qed.

Lemma countChar_app c a b : countChar c (a +:+ b) = (countChar c a + countChar c b)%nat.
Proof.
  induction a as [|d a IH]; [done|].
  change (String d a +:+ b) with (String d (a +:+ b)). cbn [countChar]. lia.
Qed.

Lemma countChar_trimEnd c s : (countChar c (trimEnd s) <= countChar c s)%nat.
Proof.
  destruct (trimEnd_split s) as (w & Hs & _).
  rewrite Hs at 2. rewrite countChar_app. lia.
Qed.

Lemma countChar_chopSlash c s : (countChar c (chopSlash s) <= countChar c s)%nat.
Proof.
  destruct (chopSlash_split s) as (w & Hs).
  rewrite Hs at 2. rewrite countChar_app. lia.
Qed.

End JSFacts.

(** * The URL parser *)

Module ParserFacts.

Import JS StringSpec JSFacts Parser ParserSpec.

#[local] Arguments String.append : simpl nomatch.

Lemma cleanUrl_eq url : cleanUrl url = chopSlash (trimEnd (trimStart url)).
Proof. unfold cleanUrl, trim. apply chopSlash_spec. Qed.

Lemma githubPrefix_clean : noWhiteSpace (String "g" "ithub.com" +:+ "/") = true.
Proof. reflexivity. Qed.

Lemma afterFirst_cleanUrl url :
  afterFirst (cleanUrl url) githubPrefix =
    match afterFirst url githubPrefix with
    | Some r =>
        match trimEnd r with
        | String c r' => Some (chopSlash (String c r'))
        | EmptyString => None
        end
    | None => None
    end.
Proof.
  rewrite cleanUrl_eq.
  change githubPrefix with (String "g" "ithub.com" +:+ "/").
  rewrite afterFirst_chopSlash, afterFirst_trimEnd, afterFirst_trimStart
    by apply githubPrefix_clean.
  by destruct (afterFirst url _).
Qed.

(** The parser, read as: find the marker in the cleaned URL, split what
    follows, and build the address from the pieces. *)
Lemma parseGitHubUrl_unfold url :
  parseGitHubUrl url =
    match afterFirst (cleanUrl url) githubPrefix with
    | Some rest => addressOfParts (split rest "/")
    | None => None
    end.
Proof.
  unfold parseGitHubUrl.
  destruct (afterFirst (cleanUrl url) githubPrefix) as [rest|] eqn:E.
  - assert (includes (cleanUrl url) "github.com" = true) as ->.
    { apply (includes_app_l _ "github.com" "/"), includes_afterFirst.
      change ("github.com" +:+ "/") with githubPrefix. congruence. }
    destruct (indexOf_some _ _ _ E) as [Hpos ->].
    cbn [negb]. destruct (Z.eqb_spec (indexOf (cleanUrl url) githubPrefix) (-1)); [lia|].
    destruct (split rest "/") as [|o [|r [|sp [|b rest']]]]; try reflexivity.
    cbn [length Nat.ltb Nat.leb nth skipn addressOfParts].
    destruct (String.eqb sp "tree") eqn:Et.
    + cbn [orb]. by destruct rest'.
    + destruct (String.eqb sp "blob"); cbn [orb]; [by destruct rest'|done].
  - apply indexOf_none in E. rewrite E.
    by destruct (negb (includes (cleanUrl url) "github.com")).
Qed.

Lemma piecesAfterMarker_afterFirst url :
  piecesAfterMarker url = (fun rest => split rest "/") <$> afterFirst url githubPrefix.
Proof.
  unfold piecesAfterMarker.
  destruct (afterFirst url githubPrefix) as [rest|] eqn:E.
  - destruct (indexOf_some _ _ _ E) as [Hpos ->].
    by destruct (Z.eqb_spec (indexOf url githubPrefix) (-1)); [lia|].
  - apply indexOf_none in E. by rewrite E.
Qed.

(** *** URLs made of well-formed names *)

Lemma isSegment_inv s :
  isSegment s = true ->
  s <> "" /\ noWhiteSpace s = true /\ countChar "/" s = O.
Proof.
  unfold isSegment, truthy. rewrite !andb_true_iff, negb_true_iff.
  intros [[H1 H2] H3]. split; [|split; [done|by apply Nat.eqb_eq]].
  by apply eqb_neq.
Qed.

Lemma isSegment_last s :
  isSegment s = true ->
  exists x c, s = x +:+ String c "" /\ isWhiteSpace c = false /\ c <> "/"%char.
Proof.
  intros (Hne & Hw & Hs)%isSegment_inv.
  induction s as [|a s IH]; [done|].
  cbn [noWhiteSpace countChar] in *.
  apply andb_true_iff in Hw as [Ha Hw]. apply negb_true_iff in Ha.
  destruct (Ascii.eqb_spec a "/") as [|Hna]; [done|].
  destruct s as [|d s].
  - by exists "", a.
  - destruct IH as (x & c & -> & Hc); [done..|]. by exists (String a x), c.
Qed.

Lemma chopSlash_keep_last s c :
  c <> "/"%char -> chopSlash (s +:+ String c "") = s +:+ String c "".
Proof.
  intros Hc. induction s as [|d s IH].
  - cbn. by destruct (Ascii.eqb_spec c "/").
  - change (String d s +:+ String c "") with (String d (s +:+ String c "")).
    rewrite chopSlash_cons, IH; [done|]. by destruct s.
Qed.

Lemma join_cons x y l : join (x :: y :: l) "/" = x +:+ "/" +:+ join (y :: l) "/".
Proof. reflexivity. Qed.

Lemma join_last (segs : list string) x :
  exists y, join (segs ++ [x]) "/" = y +:+ x.
Proof.
  induction segs as [|a segs (y & IH)]; [by exists ""|].
  destruct segs as [|b segs].
  - exists (a +:+ "/"). cbn [app]. rewrite join_cons. cbn [join String.concat].
    by rewrite JSFacts.app_assoc.
  - exists (a +:+ "/" +:+ y). cbn [app] in *. rewrite join_cons, IH.
    by rewrite !JSFacts.app_assoc.
Qed.

Lemma split_join (segs : list string) :
  segs <> [] -> Forall (fun s => countChar "/" s = O) segs ->
  split (join segs "/") "/" = segs.
Proof.
  induction segs as [|a segs IH]; [done|]. intros _ Hall.
  apply Forall_cons in Hall as [Ha Hall].
  destruct segs as [|b segs].
  - by apply split_whole.
  - rewrite join_cons. change ("/" +:+ join (b :: segs) "/")
      with (String "/" (join (b :: segs) "/")).
    rewrite split_app by done. f_equal. by apply IH.
Qed.

Lemma cleanUrl_https (segs : list string) :
  segs <> [] -> Forall (fun s => isSegment s = true) segs ->
  cleanUrl ("https://github.com/" +:+ join segs "/")
  = "https://github.com/" +:+ join segs "/".
Proof.
  intros Hne Hall. rewrite cleanUrl_eq.
  change (trimStart ("https://github.com/" +:+ join segs "/"))
    with ("https://github.com/" +:+ join segs "/").
  destruct (exists_last Hne) as (front & x & ->).
  apply Forall_app in Hall as [_ Hx]. apply Forall_cons in Hx as [Hx _].
  destruct (join_last front x) as (y & ->).
  destruct (isSegment_last x Hx) as (x0 & c & -> & Hc & Hslash).
  rewrite <- !JSFacts.app_assoc.
  by rewrite trimEnd_keep_last, chopSlash_keep_last.
Qed.

Lemma afterFirst_skip c s t :
  String.prefix t (String c s) = false -> afterFirst (String c s) t = afterFirst s t.
Proof. intros H. by rewrite afterFirst_cons, H. Qed.

Lemma afterFirst_https rest :
  afterFirst ("https://github.com/" +:+ rest) githubPrefix = Some rest.
Proof.
  change ("https://github.com/" +:+ rest)
    with (String "h" (String "t" (String "t" (String "p" (String "s"
            (String ":" (String "/" (String "/" (githubPrefix +:+ rest))))))))).
  do 8 (rewrite afterFirst_skip by reflexivity).
  apply afterFirst_app.
Qed.

(** A URL [https://github.com/] followed by well-formed names separated by
    slashes is parsed into the address of these names. *)
Lemma parseGitHubUrl_https (segs : list string) :
  segs <> [] -> Forall (fun s => isSegment s = true) segs ->
  parseGitHubUrl ("https://github.com/" +:+ join segs "/") = addressOfParts segs.
Proof.
  intros Hne Hall. rewrite parseGitHubUrl_unfold, cleanUrl_https by done.
  rewrite afterFirst_https, split_join; [done..|].
  eapply Forall_impl; [exact Hall|]. by intros s (_ & _ & ?)%isSegment_inv.
Qed.

(** *** What cleaning does to the pieces *)

Lemma split_first c s :
  (1 <= countChar c s)%nat ->
  exists x y, s = x +:+ String c y /\ countChar c x = O.
Proof.
  induction s as [|a s IH]; cbn [countChar]; [lia|].
  destruct (Ascii.eqb_spec a c) as [->|Hne].
  - intros _. by exists "", s.
  - intros H. destruct IH as (x & y & -> & Hx); [lia|].
    exists (String a x), y. split; [done|]. cbn [countChar].
    by destruct (Ascii.eqb_spec a c).
Qed.

Lemma trimEnd_app_keep x c y :
  isWhiteSpace c = false -> trimEnd (x +:+ String c y) = x +:+ String c (trimEnd y).
Proof.
  intros Hc. induction x as [|d x IH].
  - by apply trimEnd_cons_keep.
  - change (String d x +:+ String c y) with (String d (x +:+ String c y)).
    rewrite trimEnd_cons, IH. by destruct x.
Qed.

Lemma chopSlash_nonempty s :
  s <> "" ->
  match s with
  | String c r => Some (chopSlash (String c r))
  | EmptyString => None
  end = Some (chopSlash s).
Proof. by destruct s. Qed.

Lemma split_cleaned_head r q0 q1 qs :
  split (chopSlash (trimEnd r)) "/" = q0 :: q1 :: qs ->
  exists p1 ps, split r "/" = q0 :: p1 :: ps.
Proof.
  intros Hq.
  assert (1 <= countChar "/" (chopSlash (trimEnd r)))%nat as Hc.
  { pose proof (split_length (chopSlash (trimEnd r)) "/") as Hl.
    rewrite Hq in Hl. simpl in Hl. lia. }
  destruct (split_first _ _ Hc) as (x & y & Hxy & Hx).
  rewrite Hxy, split_app in Hq by done. injection Hq as <- Hy.
  destruct (chopSlash_split (trimEnd r)) as (w1 & H1).
  destruct (trimEnd_split r) as (w2 & H2 & _).
  rewrite H1, Hxy in H2.
  change (x +:+ String "/" y) with (x +:+ (String "/" y)) in H2.
  rewrite !JSFacts.app_assoc in H2.
  change (String "/" y +:+ w1 +:+ w2) with (String "/" (y +:+ w1 +:+ w2)) in H2.
  rewrite H2, split_app by done.
  pose proof (split_length (y +:+ w1 +:+ w2) "/") as Hl.
  destruct (split (y +:+ w1 +:+ w2) "/") as [|p1 ps]; [done|]. by exists p1, ps.
Qed.

Lemma addressOfParts_cleaned r parts :
  split r "/" = parts -> (3 <= length parts)%nat ->
  (length parts = 3%nat \/ (nth 2 parts "" <> "tree" /\ nth 2 parts "" <> "blob")) ->
  trimEnd r <> "" /\
  addressOfParts (split (chopSlash (trimEnd r)) "/")
  = Some (rootAddress (nth 0 parts "") (nth 1 parts "")).
Proof.
  intros Hparts Hlen Hthird.
  pose proof (split_length r "/") as Hl. rewrite Hparts in Hl.
  destruct (split_first "/" r) as (o & r1 & -> & Ho); [lia|].
  rewrite countChar_app in Hl. cbn [countChar] in Hl.
  rewrite Ascii.eqb_refl in Hl.
  destruct (split_first "/" r1) as (p & r2 & -> & Hp); [lia|].
  rewrite !split_app in Hparts by done. subst parts. cbn [nth].
  rewrite !trimEnd_app_keep by done.
  split; [by destruct o|].
  destruct (trimEnd r2) as [|c r2'] eqn:E2.
  - change (o +:+ String "/" (p +:+ "/")) with (o +:+ "/" +:+ p +:+ "/").
    rewrite <- !JSFacts.app_assoc, chopSlash_snoc, JSFacts.app_assoc.
    change ("/" +:+ p) with (String "/" p).
    by rewrite split_app, split_whole.
  - change (o +:+ String "/" (p +:+ String "/" (String c r2')))
      with (o +:+ (String "/" p +:+ (String "/" "" +:+ String c r2'))).
    rewrite <- !JSFacts.app_assoc, chopSlash_app by done.
    rewrite !JSFacts.app_assoc.
    change (o +:+ String "/" p +:+ "/" +:+ chopSlash (String c r2'))
      with (o +:+ String "/" (p +:+ String "/" (chopSlash (String c r2')))).
    rewrite !split_app by done. rewrite <- E2.
    pose proof (split_length (chopSlash (trimEnd r2)) "/") as Hq.
    destruct (split (chopSlash (trimEnd r2)) "/") as [|q0 [|q1 qs]] eqn:Eq;
      [done|done|].
    destruct (split_cleaned_head _ _ _ _ Eq) as (p1 & ps & Hr2).
    rewrite Hr2 in Hthird. cbn [length nth] in Hthird.
    destruct Hthird as [?|[Ht Hb]]; [lia|].
    cbn [addressOfParts].
    apply eqb_neq in Ht, Hb. by rewrite Ht, Hb.
Qed.

(** The type of a parsed address is [file] exactly when the third piece of
    the cleaned URL is ["blob"] and a fourth piece follows. *)
Lemma parse_type_file url a :
  parseGitHubUrl url = Some a ->
  (type a = type_file <->
   exists rest o r b ps,
     afterFirst (cleanUrl url) githubPrefix = Some rest /\
     split rest "/" = o :: r :: "blob" :: b :: ps).
Proof.
  rewrite parseGitHubUrl_unfold.
  destruct (afterFirst (cleanUrl url) githubPrefix) as [rest|]; [|done].
  destruct (split rest "/") as [|o [|r [|sp [|b ps]]]] eqn:Es; cbn [addressOfParts];
    try done.
  1,2: intros [= <-]; split; [done|];
       intros (? & ? & ? & ? & ? & [= <-] & Hs); congruence.
  destruct (String.eqb_spec sp "tree") as [->|Htree].
  { intros [= <-]. split; [done|].
    intros (? & ? & ? & ? & ? & [= <-] & Hs). congruence. }
  destruct (String.eqb_spec sp "blob") as [->|Hblob].
  - intros [= <-]. split; [|done]. intros _. by exists rest, o, r, b, ps.
  - intros [= <-]. split; [done|].
    intros (? & ? & ? & ? & ? & [= <-] & Hs). congruence.
Qed.

(** ** The claims about the parser *)

(** C6. A URL [https://github.com/{o}/{r}] is parsed to owner [o], repo
    [r], branch ["main"], empty path, type directory; with
    [/tree/{b}/{p1}/{p2}] appended, to branch [b], path ["p1/p2"], type
    directory; with [/blob/{b}/{f}] appended, to branch [b], path [f],
    type file. The names are well-formed: not empty, without slash and
    without white space. *)
Theorem parse_url_forms (o r b p1 p2 f : string) :
  isSegment o = true -> isSegment r = true -> isSegment b = true ->
  isSegment p1 = true -> isSegment p2 = true -> isSegment f = true ->
  parseGitHubUrl ("https://github.com/" +:+ o +:+ "/" +:+ r)
  = Some {| owner := o; repo := r; branch := "main"; path := "";
            type := type_directory |}
  /\ parseGitHubUrl ("https://github.com/" +:+ o +:+ "/" +:+ r +:+ "/tree/" +:+ b
                     +:+ "/" +:+ p1 +:+ "/" +:+ p2)
     = Some {| owner := o; repo := r; branch := b; path := p1 +:+ "/" +:+ p2;
               type := type_directory |}
  /\ parseGitHubUrl ("https://github.com/" +:+ o +:+ "/" +:+ r +:+ "/blob/" +:+ b
                     +:+ "/" +:+ f)
     = Some {| owner := o; repo := r; branch := b; path := f; type := type_file |}.
Proof.
  intros Ho Hr Hb Hp1 Hp2 Hf.
  assert (isSegment "tree" = true) as Htree by reflexivity.
  assert (isSegment "blob" = true) as Hblob by reflexivity.
  split; [|split].
  - change (o +:+ "/" +:+ r) with (join [o; r] "/").
    rewrite parseGitHubUrl_https; [done..|]. by repeat constructor.
  - change (o +:+ "/" +:+ r +:+ "/tree/" +:+ b +:+ "/" +:+ p1 +:+ "/" +:+ p2)
      with (join [o; r; "tree"; b; p1; p2] "/").
    rewrite parseGitHubUrl_https; [done..|]. by repeat constructor.
  - change (o +:+ "/" +:+ r +:+ "/blob/" +:+ b +:+ "/" +:+ f)
      with (join [o; r; "blob"; b; f] "/").
    rewrite parseGitHubUrl_https; [done..|]. by repeat constructor.
Qed.

Lemma parse_url_forms_witness :
  parseGitHubUrl "https://github.com/octo/hello"
  = Some {| owner := "octo"; repo := "hello"; branch := "main"; path := "";
            type := type_directory |}
  /\ parseGitHubUrl "https://github.com/octo/hello/tree/dev/src/lib"
     = Some {| owner := "octo"; repo := "hello"; branch := "dev"; path := "src/lib";
               type := type_directory |}
  /\ parseGitHubUrl "https://github.com/octo/hello/blob/dev/README.md"
     = Some {| owner := "octo"; repo := "hello"; branch := "dev"; path := "README.md";
               type := type_file |}.
Proof.
  apply (parse_url_forms "octo" "hello" "dev" "src" "lib" "README.md"); reflexivity.
Defined.

(** C7. The parser returns [null] for every input without the substring
    ["github.com/"], for every input with fewer than two pieces after the
    first ["github.com/"], counted as the parser counts them, after the
    trim and the removal of one trailing slash, or counted on the input as
    it is, and for every input that is empty or made of white space only.
    It returns [null] for no other input: when it does, the cleaned input
    has no ["github.com/"] or fewer than two pieces after it. *)
Theorem parse_rejects (url : string) :
  (JS.includes url githubPrefix = false \/
   (exists parts,
       piecesAfterMarker (cleanUrl url) = Some parts /\ (length parts < 2)%nat) \/
   (exists parts, piecesAfterMarker url = Some parts /\ (length parts < 2)%nat) \/
   allWhiteSpace url = true ->
   parseGitHubUrl url = None)
  /\ (parseGitHubUrl url = None ->
      JS.includes (cleanUrl url) githubPrefix = false \/
      exists parts,
        piecesAfterMarker (cleanUrl url) = Some parts /\ (length parts < 2)%nat).
Proof.
  split.
  - intros [Hno|[(parts & Hparts & Hlen)|[(parts & Hparts & Hlen)|Hws]]].
    + rewrite parseGitHubUrl_unfold, afterFirst_cleanUrl.
      destruct (afterFirst url githubPrefix) eqn:E; [|done].
      assert (includes url githubPrefix = true); [|congruence].
      apply includes_afterFirst. congruence.
    + rewrite parseGitHubUrl_unfold. rewrite piecesAfterMarker_afterFirst in Hparts.
      destruct (afterFirst (cleanUrl url) githubPrefix) as [r|]; [|done].
      injection Hparts as ->. by destruct parts as [|x [|y l]]; [..|simpl in Hlen; lia].
    + rewrite parseGitHubUrl_unfold, afterFirst_cleanUrl.
      rewrite piecesAfterMarker_afterFirst in Hparts.
      destruct (afterFirst url githubPrefix) as [r|]; [|done].
      injection Hparts as <-. rewrite split_length in Hlen.
      destruct (trimEnd r) as [|c r'] eqn:E; [done|]. rewrite <- E.
      pose proof (split_length (chopSlash (trimEnd r)) "/") as Hl.
      pose proof (countChar_chopSlash "/" (trimEnd r)).
      pose proof (countChar_trimEnd "/" r).
      destruct (split (chopSlash (trimEnd r)) "/") as [|x [|y l]]; simpl in Hl;
        [done|done|lia].
    + rewrite parseGitHubUrl_unfold, afterFirst_cleanUrl.
      destruct (afterFirst url githubPrefix) as [r|] eqn:E; [|done].
      assert (includes url githubPrefix = true) as Hin.
      { apply includes_afterFirst. congruence. }
      exfalso. clear E. induction url as [|c url IH]; [done|].
      cbn [allWhiteSpace] in Hws. apply andb_true_iff in Hws as [Hc Hws].
      cbn [includes] in Hin. apply orb_true_iff in Hin as [Hin|Hin]; [|auto].
      change githubPrefix with (String "g" "ithub.com" +:+ "/") in Hin.
      rewrite marker_cons_white in Hin; [done|apply githubPrefix_clean|done].
  - rewrite parseGitHubUrl_unfold, piecesAfterMarker_afterFirst.
    destruct (afterFirst (cleanUrl url) githubPrefix) as [rest|] eqn:E.
    + intros Hnone. right. exists (split rest "/"). split; [done|].
      destruct (split rest "/") as [|o [|r [|sp [|b ps]]]]; simpl; try lia;
        cbn [addressOfParts] in Hnone; try done.
      by destruct (String.eqb sp "tree"), (String.eqb sp "blob").
    + intros _. left. destruct (includes (cleanUrl url) githubPrefix) eqn:Ei; [|done].
      apply includes_afterFirst in Ei. congruence.
Qed.

Lemma parse_rejects_witness :
  parseGitHubUrl "https://github.com/octo/" = None
  /\ parseGitHubUrl "https://github.com/octo" = None.
Proof.
  split.
  - apply (parse_rejects "https://github.com/octo/"). right. left.
    exists ["octo"]. split; [reflexivity|simpl; lia].
  - apply (parse_rejects "https://github.com/octo"). right. right. left.
    exists ["octo"]. split; [reflexivity|simpl; lia].
Defined.

(** C8. Where the parser succeeds with an empty owner: the URL
    [https://github.com//hello] has an empty first piece, and the length
    test of the parser lets it through. *)
Theorem parse_empty_owner :
  parseGitHubUrl "https://github.com//hello"
  = Some {| owner := ""; repo := "hello"; branch := "main"; path := "";
            type := type_directory |}
  /\ parseGitHubUrl "https://github.com/octo//"
     = Some {| owner := "octo"; repo := ""; branch := "main"; path := "";
               type := type_directory |}.
Proof. split; reflexivity. Qed.

(** C10. When the pieces after the first ["github.com/"] are exactly
    three, or are at least three with a third piece that is neither
    ["tree"] nor ["blob"], the parser does not fail: it returns the root
    address of the first two pieces, branch ["main"], empty path, type
    directory, and ignores the other pieces. *)
Theorem parse_ignores_extra_pieces (url : string) (parts : list string) :
  piecesAfterMarker url = Some parts ->
  (3 <= length parts)%nat ->
  (length parts = 3%nat \/ (nth 2 parts "" <> "tree" /\ nth 2 parts "" <> "blob")) ->
  parseGitHubUrl url
  = Some {| owner := nth 0 parts ""; repo := nth 1 parts ""; branch := "main";
            path := ""; type := type_directory |}.
Proof.
  intros Hparts Hlen Hthird.
  rewrite piecesAfterMarker_afterFirst in Hparts.
  rewrite parseGitHubUrl_unfold, afterFirst_cleanUrl.
  destruct (afterFirst url githubPrefix) as [r|]; [|done].
  injection Hparts as Hparts.
  destruct (addressOfParts_cleaned r parts Hparts Hlen Hthird) as [Hne Haddr].
  by rewrite chopSlash_nonempty.
Qed.

Lemma parse_ignores_extra_pieces_witness :
  parseGitHubUrl "https://github.com/octo/hello/releases/tag/v1"
  = Some {| owner := "octo"; repo := "hello"; branch := "main"; path := "";
            type := type_directory |}.
Proof.
  apply (parse_ignores_extra_pieces _ ["octo"; "hello"; "releases"; "tag"; "v1"]).
  - reflexivity.
  - simpl; lia.
  - right. split; discriminate.
Defined.

End ParserFacts.

(** * The archive *)

Module JSZipFacts.

Import JS StringSpec JSFacts JSZip Services ServicesSpec.

#[local] Arguments String.append : simpl nomatch.

Lemma folderAddUpTo_eq depth name (files : gmap string Data) :
  folderAddUpTo depth name files =
    match files !! forceTrailingSlash name with
    | Some _ => files
    | None =>
        <[forceTrailingSlash name := Folder]>
          (match depth with
           | O => files
           | S depth' =>
               if truthy (parentFolder (forceTrailingSlash name))
               then folderAddUpTo depth' (parentFolder (forceTrailingSlash name)) files
               else files
           end)
    end.
Proof. by destruct depth. Qed.

(** *** The bound on the ancestors is enough *)

Lemma length_take n s : (String.length (take n s) <= n)%nat.
Proof.
  revert s; induction n as [|n IH]; intros [|c s]; simpl; try lia.
  specialize (IH s). lia.
Qed.

Lemma length_removeLast s : String.length (removeLast s) = (String.length s - 1)%nat.
Proof.
  induction s as [|c s IH]; [done|]. destruct s as [|d s]; [done|].
  change (removeLast (String c (String d s))) with (String c (removeLast (String d s))).
  cbn [String.length] in *. lia.
Qed.

Lemma lastIndexOfFrom_bound s c i :
  lastIndexOfFrom s c i = -1 \/
  i <= lastIndexOfFrom s c i < i + Z.of_nat (String.length s).
Proof.
  revert i; induction s as [|a s IH]; intros i; [by left|].
  cbn [lastIndexOfFrom String.length]. specialize (IH (i + 1)).
  destruct (Z.eqb_spec (lastIndexOfFrom s c (i + 1)) (-1)).
  - destruct (Ascii.eqb a c); [right; lia|by left].
  - right. lia.
Qed.

Lemma forceTrailingSlash_length s :
  (1 <= String.length (forceTrailingSlash s) <= String.length s + 1)%nat.
Proof.
  unfold forceTrailingSlash. destruct (endsWith s "/") eqn:E.
  - apply endsWith_slash in E as [x ->]. rewrite length_app. simpl. lia.
  - rewrite length_app. simpl. lia.
Qed.

Lemma forceTrailingSlash_ends s : endsWith (forceTrailingSlash s) "/" = true.
Proof.
  unfold forceTrailingSlash. destruct (endsWith s "/") eqn:E; [done|].
  apply endsWith_slash. by exists s.
Qed.

Lemma parentFolder_forced name :
  parentFolder (forceTrailingSlash name) =
    if 0 <? lastIndexOfFrom (removeLast (forceTrailingSlash name)) "/" 0
    then take (Z.to_nat (lastIndexOfFrom (removeLast (forceTrailingSlash name)) "/" 0))
              (removeLast (forceTrailingSlash name))
    else "".
Proof.
  unfold parentFolder. by rewrite forceTrailingSlash_ends, slice_removeLast.
Qed.

Lemma parentFolder_shorter name :
  parentFolder (forceTrailingSlash name) <> "" ->
  (String.length (forceTrailingSlash (parentFolder (forceTrailingSlash name)))
   < String.length (forceTrailingSlash name))%nat.
Proof.
  pose proof (forceTrailingSlash_length name) as Hlen.
  pose proof (forceTrailingSlash_length (parentFolder (forceTrailingSlash name))) as Hp.
  pose proof (parentFolder_forced name) as Heq.
  set (parent := parentFolder (forceTrailingSlash name)) in *.
  pose proof (lastIndexOfFrom_bound (removeLast (forceTrailingSlash name)) "/" 0) as Hb.
  rewrite length_removeLast in Hb.
  pose proof (length_take
                (Z.to_nat (lastIndexOfFrom (removeLast (forceTrailingSlash name)) "/" 0))
                (removeLast (forceTrailingSlash name))) as Ht.
  destruct (Z.ltb_spec 0 (lastIndexOfFrom (removeLast (forceTrailingSlash name)) "/" 0));
    [|done].
  intros _. rewrite <- Heq in Ht. lia.
Qed.

Lemma folderAddUpTo_enough n m name (files : gmap string Data) :
  (String.length (forceTrailingSlash name) <= S n)%nat -> (n <= m)%nat ->
  folderAddUpTo m name files = folderAddUpTo n name files.
Proof.
  revert m name files; induction n as [|n IH]; intros m name files Hlen Hm;
    rewrite (folderAddUpTo_eq m), (folderAddUpTo_eq _ name files);
    destruct (files !! forceTrailingSlash name); try done; f_equal;
    unfold truthy;
    destruct (String.eqb_spec (parentFolder (forceTrailingSlash name)) "") as [->|Hne];
    cbn [negb]; try (by destruct m).
  - apply parentFolder_shorter in Hne.
    pose proof (forceTrailingSlash_length (parentFolder (forceTrailingSlash name))). lia.
  - destruct m as [|m]; [lia|]. apply parentFolder_shorter in Hne.
    apply IH; lia.
Qed.

(** [folderAdd], as JSZip writes it: the folder is added unless it exists,
    after its parent folder. *)
Lemma folderAdd_unfold name (files : gmap string Data) :
  folderAdd name files =
    match files !! forceTrailingSlash name with
    | Some _ => files
    | None =>
        <[forceTrailingSlash name := Folder]>
          (if truthy (parentFolder (forceTrailingSlash name))
           then folderAdd (parentFolder (forceTrailingSlash name)) files
           else files)
    end.
Proof.
  unfold folderAdd. rewrite folderAddUpTo_eq.
  destruct (files !! forceTrailingSlash name); [done|]. f_equal.
  unfold truthy.
  destruct (String.eqb_spec (parentFolder (forceTrailingSlash name)) "") as [->|Hne];
    cbn [negb]; [by destruct (String.length name)|].
  pose proof (parentFolder_shorter name Hne) as Hshort.
  pose proof (forceTrailingSlash_length name) as Hlen.
  pose proof (forceTrailingSlash_length (parentFolder (forceTrailingSlash name))) as Hp.
  destruct (String.length name) as [|n] eqn:En; [lia|].
  set (parent := parentFolder (forceTrailingSlash name)) in *.
  rewrite (folderAddUpTo_enough (Nat.min n (String.length parent)) n) by lia.
  rewrite (folderAddUpTo_enough (Nat.min n (String.length parent)) (String.length parent))
    by lia.
  done.
Qed.

(** *** Entries are never lost, and [folder] never replaces one *)

Lemma folderAddUpTo_keeps depth name (files : gmap string Data) k d :
  files !! k = Some d -> folderAddUpTo depth name files !! k = Some d.
Proof.
  revert name files; induction depth as [|depth IH]; intros name files Hk;
    rewrite folderAddUpTo_eq;
    destruct (files !! forceTrailingSlash name) eqn:E; try done;
    (rewrite lookup_insert_ne by congruence); [done|].
  destruct (truthy _); auto.
Qed.

Lemma folderAddUpTo_makes depth name (files : gmap string Data) :
  is_Some (folderAddUpTo depth name files !! forceTrailingSlash name).
Proof.
  rewrite folderAddUpTo_eq.
  destruct (files !! forceTrailingSlash name) eqn:E; [by rewrite E|].
  rewrite lookup_insert_eq. by eexists.
Qed.

Lemma folder_keeps arg (files : gmap string Data) k d :
  files !! k = Some d -> folder arg files !! k = Some d.
Proof.
  unfold folder, folderAdd. destruct (negb (truthy arg)); [done|].
  apply folderAddUpTo_keeps.
Qed.

Lemma folder_makes arg (files : gmap string Data) :
  arg <> "" -> is_Some (folder arg files !! forceTrailingSlash arg).
Proof.
  intros Hne. unfold folder, folderAdd, truthy.
  destruct (String.eqb_spec arg ""); [done|]. apply folderAddUpTo_makes.
Qed.

Lemma folder_empty (files : gmap string Data) : folder "" files = files.
Proof. reflexivity. Qed.

Lemma file_lookup name d (files : gmap string Data) :
  file name d files !! name = Some d.
Proof. unfold file, fileAdd. apply lookup_insert_eq. Qed.

Lemma file_keeps name d (files : gmap string Data) k e :
  k <> name -> files !! k = Some e -> file name d files !! k = Some e.
Proof.
  intros Hne Hk. unfold file, fileAdd. rewrite lookup_insert_ne by done.
  destruct (truthy _); [|done]. by apply folderAddUpTo_keeps.
Qed.

(** *** Related archives stay related *)

Lemma dataRel_refl d : dataRel d d.
Proof. by left. Qed.

Lemma zipRel_refl z : zipRel z z.
Proof. intros k. destruct (z !! k); constructor. apply dataRel_refl. Qed.

Lemma zipRel_insert z z' k d d' :
  zipRel z z' -> dataRel d d' -> zipRel (<[k:=d]> z) (<[k:=d']> z').
Proof.
  intros Hz Hd k'. destruct (decide (k = k')) as [->|Hne].
  - rewrite !lookup_insert_eq. by constructor.
  - rewrite !lookup_insert_ne by done. apply Hz.
Qed.

Lemma zipRel_folderAddUpTo depth name z z' :
  zipRel z z' -> zipRel (folderAddUpTo depth name z) (folderAddUpTo depth name z').
Proof.
  revert name z z'; induction depth as [|depth IH]; intros name z z' Hz;
    rewrite (folderAddUpTo_eq _ name z), (folderAddUpTo_eq _ name z');
    pose proof (Hz (forceTrailingSlash name)) as Hk;
    destruct Hk as [d d' _|]; try done;
    apply zipRel_insert; try apply dataRel_refl; [done|].
  destruct (truthy _); auto.
Qed.

Lemma zipRel_folder arg z z' : zipRel z z' -> zipRel (folder arg z) (folder arg z').
Proof.
  intros Hz. unfold folder, folderAdd. destruct (negb (truthy arg)); [done|].
  by apply zipRel_folderAddUpTo.
Qed.

Lemma zipRel_file name d d' z z' :
  zipRel z z' -> dataRel d d' -> zipRel (file name d z) (file name d' z').
Proof.
  intros Hz Hd. unfold file, fileAdd. apply zipRel_insert; [|done].
  destruct (truthy _); [|done]. by apply zipRel_folderAddUpTo.
Qed.

Lemma zipRel_dom z z' : zipRel z z' -> dom z = dom z'.
Proof.
  intros Hz. apply set_eq. intros k. rewrite !elem_of_dom.
  specialize (Hz k). destruct Hz; split; intros [? ?]; by eauto.
Qed.

Lemma zipRel_size z z' : zipRel z z' -> size z = size z'.
Proof. intros Hz. by rewrite <- !size_dom, (zipRel_dom z z'). Qed.

Lemma zipRel_lookup z z' k :
  zipRel z z' -> z' !! k = z !! k \/ z' !! k = Some (Text placeholder).
Proof.
  intros Hz. destruct (Hz k) as [d d' [->| ->]|]; auto.
Qed.

(** *** Names without a slash have no parent folder *)

Lemma endsWith_no_slash s : countChar "/" s = O -> endsWith s "/" = false.
Proof.
  intros H. destruct (endsWith s "/") eqn:E; [|done].
  apply endsWith_slash in E as [x ->].
  rewrite countChar_app in H. cbn in H. lia.
Qed.

Lemma lastIndexOfFrom_none s c i : countChar c s = O -> lastIndexOfFrom s c i = -1.
Proof.
  revert i; induction s as [|a s IH]; intros i; [done|]. cbn [countChar lastIndexOfFrom].
  destruct (Ascii.eqb a c); [done|]. intros H. by rewrite IH.
Qed.

Lemma parentFolder_no_slash s : countChar "/" s = O -> parentFolder s = "".
Proof.
  intros H. unfold parentFolder.
  by rewrite endsWith_no_slash, lastIndexOfFrom_none.
Qed.

Lemma file_alone name d :
  countChar "/" name = O -> file name d ∅ = {[name := d]}.
Proof.
  intros H. unfold file, fileAdd. rewrite parentFolder_no_slash by done.
  cbn [truthy String.eqb negb]. apply insert_empty.
Qed.

Lemma split_pieces s sep : Forall (fun p => countChar sep p = O) (split s sep).
Proof.
  induction s as [|c s IH]; [by repeat constructor|].
  rewrite split_cons. destruct (Ascii.eqb c sep) eqn:E; [by constructor|].
  destruct (split s sep) as [|piece pieces].
  - repeat constructor. cbn [countChar]. by rewrite E.
  - apply Forall_cons in IH as [Hp Hps]. constructor; [|done].
    cbn [countChar]. by rewrite E.
Qed.

Lemma last_piece_no_slash s : countChar "/" (List.last (split s "/") "") = O.
Proof.
  pose proof (split_pieces s "/") as H.
  induction H as [|p ps Hp Hps IH]; [done|].
  destruct ps; [done|]. exact IH.
Qed.

Lemma folder_new arg (files : gmap string Data) :
  arg <> "" -> files !! forceTrailingSlash arg = None ->
  folder arg files !! forceTrailingSlash arg = Some Folder.
Proof.
  intros Hne Hk. unfold folder, folderAdd, truthy.
  destruct (String.eqb_spec arg ""); [done|]. cbn [negb].
  rewrite folderAddUpTo_eq, Hk. apply lookup_insert_eq.
Qed.

(** *** Generating the archive *)

Lemma omap_nil {A B} (f : A -> option B) (l : list A) :
  omap f l = [] <-> Forall (fun x => f x = None) l.
Proof.
  induction l as [|x l IH]; [by split; [constructor|]|].
  cbn [omap list_omap]. destruct (f x) eqn:E.
  - split; [done|]. intros H. apply Forall_cons in H as [H _]. congruence.
  - rewrite IH. split; [by constructor|]. by intros [_ H]%Forall_cons.
Qed.

Lemma omap_head {A B} (f : A -> option B) (l : list A) y ys :
  omap f l = y :: ys -> exists x, x ∈ l /\ f x = Some y.
Proof.
  induction l as [|x l IH]; [done|]. cbn [omap list_omap].
  destruct (f x) as [z|] eqn:E.
  - intros [= -> _]. exists x. split; [left|done].
  - intros (x' & Hin & Hx')%IH. exists x'. split; [by right|done].
Qed.

Lemma readable_entries (files : gmap string Data) :
  readable files <->
  Forall (fun entry => entryError (snd entry) = None) (map_to_list (entries files)).
Proof.
  rewrite Forall_forall. unfold readable, entries. split.
  - intros H [k d] [Hne Hk]%elem_of_map_to_list%lookup_delete_Some. by eapply H.
  - intros H k d Hk Hne. apply (H (k, d)).
    apply elem_of_map_to_list, lookup_delete_Some. by split.
Qed.

Lemma generated_inr (files : gmap string Data) :
  readable files -> generated files = inr (entries files).
Proof.
  intros H%readable_entries%omap_nil. unfold generated. by rewrite H.
Qed.

Lemma generated_inr_inv (files content : gmap string Data) :
  generated files = inr content -> content = entries files /\ readable files.
Proof.
  unfold generated.
  destruct (omap _ _) as [|msg rest] eqn:E; [|done]. intros [= <-].
  split; [done|]. by apply readable_entries, omap_nil.
Qed.

Lemma generated_inl (files : gmap string Data) msg :
  generated files = inl msg ->
  exists k d, files !! k = Some d /\ k <> "" /\ entryError d = Some msg.
Proof.
  unfold generated, entries.
  destruct (omap _ _) as [|msg' rest] eqn:E; [done|]. intros [= <-].
  apply omap_head in E as ([k d] & [Hne Hk]%elem_of_map_to_list%lookup_delete_Some & He).
  by exists k, d.
Qed.

Lemma generated_inl_message (files : gmap string Data) msg :
  generated files = inl msg -> msg = dataUrlMessage \/ msg = badLengthMessage.
Proof.
  intros (k & d & _ & _ & He)%generated_inl. destruct d as [|content| |]; try done.
  cbn [entryError] in He. unfold decodeError in He.
  destruct (String.prefix _ _); [left; congruence|].
  destruct (Nat.eqb _ _); [done|right; congruence].
Qed.

Lemma entries_id (files : gmap string Data) :
  files !! "" = None -> entries files = files.
Proof. apply delete_id. Qed.

Lemma readable_empty : readable ∅.
Proof. intros k d Hk. by rewrite lookup_empty in Hk. Qed.

Lemma readable_insert (files : gmap string Data) k d :
  readable files -> (k <> "" -> entryError d = None) -> readable (<[k := d]> files).
Proof.
  intros Hf Hd k' d' Hk' Hne. destruct (decide (k = k')) as [<-|Hkk].
  - rewrite lookup_insert_eq in Hk'. injection Hk' as <-. by apply Hd.
  - rewrite lookup_insert_ne in Hk' by done. by eapply Hf.
Qed.

Lemma readable_folderAddUpTo depth name (files : gmap string Data) :
  readable files -> readable (folderAddUpTo depth name files).
Proof.
  revert name files; induction depth as [|depth IH]; intros name files Hf;
    rewrite folderAddUpTo_eq; destruct (files !! forceTrailingSlash name); try done;
    apply readable_insert; try done.
  destruct (truthy _); auto.
Qed.

Lemma readable_folder arg (files : gmap string Data) :
  readable files -> readable (folder arg files).
Proof.
  intros Hf. unfold folder, folderAdd. destruct (negb (truthy arg)); [done|].
  by apply readable_folderAddUpTo.
Qed.

Lemma readable_file name d (files : gmap string Data) :
  readable files -> (name <> "" -> entryError d = None) -> readable (file name d files).
Proof.
  intros Hf Hd. unfold file, fileAdd. apply readable_insert; [|done].
  destruct (truthy _); [|done]. by apply readable_folderAddUpTo.
Qed.

Lemma forceTrailingSlash_nonempty s : forceTrailingSlash s <> "".
Proof.
  pose proof (forceTrailingSlash_length s) as H. intros E. rewrite E in H. simpl in H. lia.
Qed.

(** An archive of folders only, as [folder] makes from the empty one. *)
Lemma folders_folderAddUpTo depth name (files : gmap string Data) :
  files !! "" = None ->
  folderAddUpTo depth name files !! "" = None.
Proof.
  revert name files; induction depth as [|depth IH]; intros name files Hf;
    rewrite folderAddUpTo_eq; destruct (files !! forceTrailingSlash name); try done;
    (rewrite lookup_insert_ne by apply forceTrailingSlash_nonempty); [done|].
  destruct (truthy _); auto.
Qed.

Lemma folder_unnamed arg (files : gmap string Data) :
  files !! "" = None -> folder arg files !! "" = None.
Proof.
  intros Hf. unfold folder, folderAdd. destruct (negb (truthy arg)); [done|].
  by apply folders_folderAddUpTo.
Qed.

Lemma file_unnamed name d (files : gmap string Data) :
  name <> "" -> files !! "" = None -> file name d files !! "" = None.
Proof.
  intros Hne Hf. unfold file, fileAdd. rewrite lookup_insert_ne by done.
  destruct (truthy _); [|done]. by apply folders_folderAddUpTo.
Qed.

Lemma generated_folder arg :
  generated (folder arg ∅) = inr (folder arg ∅).
Proof.
  rewrite generated_inr by apply readable_folder, readable_empty.
  f_equal. apply entries_id, folder_unnamed, lookup_empty.
Qed.

(** An archive with placeholders for some entries can be read if the
    archive without them can. *)
Lemma zipRel_readable (z z' : gmap string Data) :
  zipRel z z' -> readable z -> readable z'.
Proof.
  intros Hrel Hz k d' Hk Hne. specialize (Hrel k). rewrite Hk in Hrel.
  destruct (z !! k) as [d|] eqn:Hd; inversion Hrel as [? ? Hdd|]; subst.
  destruct Hdd as [->| ->]; [by eapply Hz|done].
Qed.

End JSZipFacts.

(** * The job *)

Module ServicesFacts.

Import JS StringSpec JSFacts JSZip GitHub Services ServicesSpec JSZipFacts.

#[local] Arguments String.append : simpl nomatch.
Local Open Scope list_scope.

(** ** Rules for the runs *)

Section Steps.

Context {R : Job -> Job -> Prop} `{!Reflexive R} `{!Transitive R}.

Lemma steps_ret {A} (a : A) : steps R (ret a).
Proof. intros j. reflexivity. Qed.

Lemma steps_throw {A} e : steps R (@throw A e).
Proof. intros j. reflexivity. Qed.

Lemma steps_diverge {A} : steps R (@diverge A).
Proof. intros j. reflexivity. Qed.

Lemma steps_axiosGet {A} (r : JsError + A) : steps R (axiosGet r).
Proof. destruct r; [apply steps_throw|apply steps_ret]. Qed.

Lemma steps_bind {A B} (m : Run A) (k : A -> Run B) :
  steps R m -> (forall a, steps R (k a)) -> steps R (bind m k).
Proof.
  intros Hm Hk j. unfold bind. specialize (Hm j).
  destruct (m j) as [[a|e|] j1]; simpl in *; [|done..].
  etransitivity; [exact Hm|apply Hk].
Qed.

Lemma steps_tryCatch {A} (body : Run A) (handler : JsError -> Run A) :
  steps R body -> (forall e, steps R (handler e)) -> steps R (tryCatch body handler).
Proof.
  intros Hm Hh j. unfold tryCatch. specialize (Hm j).
  destruct (body j) as [[a|e|] j1]; simpl in *; [done| |done].
  etransitivity; [exact Hm|apply Hh].
Qed.

Lemma steps_forEachFrom {A} (body : Z -> A -> Run unit) i (items : list A) :
  (forall i' item, i <= i' < i + Z.of_nat (length items) -> In item items ->
                   steps R (body i' item)) ->
  steps R (forEachFrom body i items).
Proof.
  revert i; induction items as [|x items IH]; intros i Hbody; cbn [forEachFrom].
  - apply steps_ret.
  - apply steps_bind.
    + apply Hbody; [cbn [length]; lia|by left].
    + intros _. apply IH. intros i' item Hi Hin.
      apply Hbody; [cbn [length]; lia|by right].
Qed.

End Steps.

Lemma throwsOnly_ret {A} E (a : A) : throwsOnly E (ret a).
Proof. by intros j e j'. Qed.

Lemma throwsOnly_throw {A} (E : JsError -> Prop) e : E e -> throwsOnly E (@throw A e).
Proof. intros He j e' j' [= <- _]. done. Qed.

Lemma throwsOnly_bind {A B} E (m : Run A) (k : A -> Run B) :
  throwsOnly E m -> (forall a, throwsOnly E (k a)) -> throwsOnly E (bind m k).
Proof.
  intros Hm Hk j e j'. unfold bind. specialize (Hm j).
  destruct (m j) as [[a|e1|] j1]; [apply Hk| |done].
  intros [= <- <-]. by eapply Hm.
Qed.

Lemma throwsOnly_tryCatch {A} E E' (body : Run A) (handler : JsError -> Run A) :
  throwsOnly E' body -> (forall e, E' e -> throwsOnly E (handler e)) ->
  throwsOnly E (tryCatch body handler).
Proof.
  intros Hm Hh j e j'. unfold tryCatch. specialize (Hm j).
  destruct (body j) as [[a|e1|] j1]; [done| |done].
  apply Hh. by eapply Hm.
Qed.

Lemma throwsOnly_forEachFrom {A} E (body : Z -> A -> Run unit) i (items : list A) :
  (forall i' item, In item items -> throwsOnly E (body i' item)) ->
  throwsOnly E (forEachFrom body i items).
Proof.
  revert i; induction items as [|x items IH]; intros i Hbody; cbn [forEachFrom].
  - apply throwsOnly_ret.
  - apply throwsOnly_bind; [apply Hbody; by left|].
    intros _. apply IH. intros i' item Hin. apply Hbody. by right.
Qed.

Lemma jobRel_refl j : jobRel j j.
Proof.
  split; [apply zipRel_refl|split; [done|]].
  destruct (saved j) as [[f z]|]; constructor. split; [done|apply zipRel_refl].
Qed.

Lemma runRel_ret {A} (a : A) : runRel (ret a) (ret a).
Proof. by intros j j' H. Qed.

Lemma runRel_throw {A} e : runRel (@throw A e) (@throw A e).
Proof. by intros j j' H. Qed.

Lemma runRel_diverge {A} : runRel (@diverge A) (@diverge A).
Proof. by intros j j' H. Qed.

Lemma runRel_axiosGet {A} (r : JsError + A) : runRel (axiosGet r) (axiosGet r).
Proof. destruct r; [apply runRel_throw|apply runRel_ret]. Qed.

Lemma runRel_bind {A B} (m m' : Run A) (k k' : A -> Run B) :
  runRel m m' -> (forall a, runRel (k a) (k' a)) -> runRel (bind m k) (bind m' k').
Proof.
  intros Hm Hk j j' Hj. unfold bind. destruct (Hm j j' Hj) as [Ho Hs].
  destruct (m j) as [o1 j1], (m' j') as [o2 j2]. simpl in *. subst o2.
  destruct o1 as [a|e|]; [by apply Hk|done..].
Qed.

Lemma runRel_tryCatch {A} (body body' : Run A) (handler handler' : JsError -> Run A) :
  runRel body body' -> (forall e, runRel (handler e) (handler' e)) ->
  runRel (tryCatch body handler) (tryCatch body' handler').
Proof.
  intros Hm Hh j j' Hj. unfold tryCatch. destruct (Hm j j' Hj) as [Ho Hs].
  destruct (body j) as [o1 j1], (body' j') as [o2 j2]. simpl in *. subst o2.
  destruct o1 as [a|e|]; [done|by apply Hh|done].
Qed.

Lemma runRel_forEachFrom {A} (body body' : Z -> A -> Run unit) i (items : list A) :
  (forall i' item, In item items -> runRel (body i' item) (body' i' item)) ->
  runRel (forEachFrom body i items) (forEachFrom body' i items).
Proof.
  revert i; induction items as [|x items IH]; intros i Hbody; cbn [forEachFrom].
  - apply runRel_ret.
  - apply runRel_bind; [apply Hbody; by left|].
    intros _. apply IH. intros i' item Hin. apply Hbody. by right.
Qed.

Lemma runRel_onProgress p msg : runRel (onProgress p msg) (onProgress p msg).
Proof.
  intros j j' (Hz & Hr & Hs). split; [done|]. split; [done|]. split; [|done].
  simpl. by rewrite Hr.
Qed.

Lemma runRel_zipFolder name : runRel (zipFolder name) (zipFolder name).
Proof.
  intros j j' (Hz & Hr & Hs). split; [done|]. split; [|done].
  by apply zipRel_folder.
Qed.

Lemma runRel_zipFile name d d' :
  dataRel d d' -> runRel (zipFile name d) (zipFile name d').
Proof.
  intros Hd j j' (Hz & Hr & Hs). split; [done|]. split; [|done].
  by apply zipRel_file.
Qed.

(** ** addFileToZip *)

Lemma orElse_assoc a b c : orElse (orElse a b) c = orElse a (orElse b c).
Proof. unfold orElse. destruct (truthy a) eqn:E; [by rewrite E|done]. Qed.

Lemma orElse_truthy a b : a <> "" -> orElse a b = a.
Proof.
  intros H. unfold orElse, truthy. by destruct (String.eqb_spec a "").
Qed.

(** [addFileToZip] always returns, after writing one entry. *)
Lemma addFileToZip_eq api o r b p zp j :
  addFileToZip api o r b p zp j
  = zipFile (fileKey api o r b p zp) (fileData api o r b p) j.
Proof.
  unfold addFileToZip, fileKey, fileData, fetched, fallbackName.
  rewrite orElse_assoc. unfold tryCatch, bind.
  destruct (fileInfo api _) as [e|info]; [done|].
  cbn [axiosGet ret].
  destruct (negb (truthy (urlOrEmpty (download_url info)))).
  - destruct (blob api _) as [e|bd]; [done|].
    cbn [axiosGet ret]. by destruct (String.eqb (encoding bd) "base64").
  - by destruct (raw api _) as [e|bytes].
Qed.

Lemma fileKey_zipPath api o r b p zp : zp <> "" -> fileKey api o r b p zp = zp.
Proof.
  intros H. unfold fileKey.
  destruct (fetched api o r b p) as [[n d]|]; by apply orElse_truthy.
Qed.

Lemma itemZipPath_nonempty zp n : n <> "" -> itemZipPath zp n <> "".
Proof.
  unfold itemZipPath, truthy. destruct (String.eqb_spec zp ""); [done|].
  intros _. by destruct zp.
Qed.

(** ** fetchDirectoryContents *)

Lemma progressPercent_range i n : 0 <= i < n -> 30 <= progressPercent i n < 70.
Proof.
  intros H. unfold progressPercent.
  assert (0 <= i * 40 / n) by (apply Z.div_pos; lia).
  assert (i * 40 / n < 40) by (apply Z.div_lt_upper_bound; lia).
  lia.
Qed.

Lemma progressPercent_0 n : progressPercent 0 n = 30.
Proof. reflexivity. Qed.

Lemma progressPercent_mono i i' n :
  0 <= i <= i' -> 0 < n -> progressPercent i n <= progressPercent i' n.
Proof.
  intros H Hn. unfold progressPercent.
  assert (i * 40 / n <= i' * 40 / n) by (apply Z.div_le_mono; lia). lia.
Qed.

Lemma steps_bind_ret {R : Job -> Job -> Prop} {A B} (a : A) (k : A -> Run B) :
  steps R (k a) -> steps R (bind (ret a) k).
Proof. intros H j. apply H. Qed.

Section FetchSteps.

Context {R : Job -> Job -> Prop} `{!Reflexive R} `{!Transitive R}.
Variables (api : Api) (o r b : string).
Hypothesis R_progress : forall p msg, 30 <= p < 70 -> steps R (onProgress p msg).
Hypothesis R_folder : forall name, steps R (zipFolder name).

(** A relation kept by every report of the walk, every [zip.folder] and
    every file the walk comes to is kept by the walk. *)
Lemma steps_fetch fuel path zipPath :
  (forall item k, reaches api o r b path zipPath item k -> type item = item_file ->
                  steps R (addFileToZip api o r b (GitHub.path item) k)) ->
  steps R (fetchDirectoryContents api fuel o r b path zipPath).
Proof.
  revert path zipPath; induction fuel as [|fuel IH]; intros path zipPath Hfile;
    cbn [fetchDirectoryContents]; [apply steps_diverge|].
  apply steps_tryCatch.
  - destruct (listing api (contentsUrl o r b path)) as [e|l] eqn:El; cbn [axiosGet].
    { intros j. unfold bind, throw. simpl. reflexivity. }
    apply steps_bind_ret. apply steps_forEachFrom. intros i' item Hi Hin.
    apply steps_bind; [apply R_progress, progressPercent_range; lia|].
    intros _. destruct (type item) eqn:Et; try apply steps_ret.
    + apply (Hfile item); [|done]. by eapply reaches_entry.
    + apply steps_bind; [apply R_folder|]. intros _. apply IH.
      intros item' k Hreach Hf. apply Hfile; [|done]. by eapply reaches_nested.
  - intros e. destruct (hasStatus e 404); [apply R_folder|apply steps_throw].
Qed.

End FetchSteps.

(** *** What the walk throws *)

Lemma throwsOnly_weaken {A} (E E' : JsError -> Prop) (m : Run A) :
  (forall e, E e -> E' e) -> throwsOnly E m -> throwsOnly E' m.
Proof. intros HE Hm j e j' H. by eapply HE, Hm. Qed.

Lemma throwsOnly_axiosGet {A} (E : JsError -> Prop) (r : JsError + A) :
  (forall e, r = inl e -> E e) -> throwsOnly E (axiosGet r).
Proof. intros H. destruct r; [by apply throwsOnly_throw, H|apply throwsOnly_ret]. Qed.

Lemma throwsOnly_onProgress E p msg : throwsOnly E (onProgress p msg).
Proof. by intros j e j'. Qed.

Lemma throwsOnly_zipFolder E name : throwsOnly E (zipFolder name).
Proof. by intros j e j'. Qed.

Lemma throwsOnly_addFileToZip E api o r b p zp : throwsOnly E (addFileToZip api o r b p zp).
Proof. intros j e j'. by rewrite addFileToZip_eq. Qed.

Lemma fetch_S api fuel o r b path zipPath :
  fetchDirectoryContents api (S fuel) o r b path zipPath =
    tryCatch
      (contents <- axiosGet (listing api (contentsUrl o r b path)) ;;
       forEachFrom (walkEntry api fuel o r b zipPath (Z.of_nat (length contents)))
                   0 contents)
      (fun error =>
         if hasStatus error 404 then zipFolder (JS.orElse zipPath path)
         else throw error).
Proof. reflexivity. Qed.

(** The walk throws only what a listing request threw, and never a 404. *)
Lemma throwsOnly_fetch api fuel o r b path zipPath :
  throwsOnly (fun e => hasStatus e 404 = false /\ exists url, listing api url = inl e)
             (fetchDirectoryContents api fuel o r b path zipPath).
Proof.
  revert path zipPath; induction fuel as [|fuel IH]; intros path zipPath;
    cbn [fetchDirectoryContents]; [by intros j e j'|].
  apply (throwsOnly_tryCatch _ (fun e => exists url, listing api url = inl e)).
  - apply throwsOnly_bind; [apply throwsOnly_axiosGet; by eauto|].
    intros contents. apply throwsOnly_forEachFrom. intros i' item _.
    apply throwsOnly_bind; [apply throwsOnly_onProgress|]. intros _.
    destruct (type item); try apply throwsOnly_ret.
    + apply throwsOnly_addFileToZip.
    + apply throwsOnly_bind; [apply throwsOnly_zipFolder|]. intros _.
      eapply throwsOnly_weaken; [|apply IH]. by intros e [_ ?].
  - intros e He. destruct (hasStatus e 404) eqn:E404; [apply throwsOnly_zipFolder|].
    by apply throwsOnly_throw.
Qed.

Lemma throwsOnly_walkEntry api fuel o r b zipPath n i item :
  throwsOnly (fun e => hasStatus e 404 = false /\ exists url, listing api url = inl e)
             (walkEntry api fuel o r b zipPath n i item).
Proof.
  unfold walkEntry. apply throwsOnly_bind; [apply throwsOnly_onProgress|]. intros _.
  destruct (type item); try apply throwsOnly_ret.
  - apply throwsOnly_addFileToZip.
  - apply throwsOnly_bind; [apply throwsOnly_zipFolder|]. intros _.
    apply throwsOnly_fetch.
Qed.

(** *** More fuel changes nothing once the walk has ended *)

Lemma forEachFrom_ext {A} (body body' : Z -> A -> Run unit) i (items : list A) j :
  (forall i' item j0, In item items ->
      fst (body i' item j0) <> Diverged -> body' i' item j0 = body i' item j0) ->
  fst (forEachFrom body i items j) <> Diverged ->
  forEachFrom body' i items j = forEachFrom body i items j.
Proof.
  revert i j; induction items as [|x items IH]; intros i j Hbody Hend; [done|].
  cbn [forEachFrom] in *. unfold bind in *.
  rewrite (Hbody i x j); [|by left|by destruct (body i x j) as [[| |] ?]].
  destruct (body i x j) as [[[]|e|] j1]; [|done..].
  apply IH; [|done]. intros i' item j0 Hin. apply Hbody. by right.
Qed.

Lemma fetch_more_fuel api fuel o r b path zipPath j :
  fst (fetchDirectoryContents api fuel o r b path zipPath j) <> Diverged ->
  fetchDirectoryContents api (S fuel) o r b path zipPath j
  = fetchDirectoryContents api fuel o r b path zipPath j.
Proof.
  revert path zipPath j; induction fuel as [|fuel IH]; intros path zipPath j; [done|].
  rewrite (fetch_S api (S fuel)), (fetch_S api fuel). unfold tryCatch, bind.
  destruct (listing api (contentsUrl o r b path)) as [e|l]; [done|].
  cbn [axiosGet ret]. intros Hend.
  rewrite (forEachFrom_ext (walkEntry api fuel o r b zipPath (Z.of_nat (length l)))
             (walkEntry api (S fuel) o r b zipPath (Z.of_nat (length l)))); [done| |].
  - intros i' item j0 _. unfold walkEntry, bind. cbn [onProgress].
    destruct (type item); try done. cbn [zipFolder]. apply IH.
  - destruct (forEachFrom _ 0 l j) as [[[]|e|] j1]; [done..|].
    by cbn in Hend.
Qed.

(** *** Two mocks with the same listings *)

Lemma runRel_bind_ret {A B} (a : A) (k k' : A -> Run B) :
  runRel (k a) (k' a) -> runRel (bind (ret a) k) (bind (ret a) k').
Proof. intros H j j' Hj. by apply H. Qed.

Lemma runRel_fetch api api' fuel o r b path zipPath :
  apiRel api api' -> namesOk api ->
  runRel (fetchDirectoryContents api fuel o r b path zipPath)
         (fetchDirectoryContents api' fuel o r b path zipPath).
Proof.
  intros [Hlist Hdata] Hnames.
  revert path zipPath; induction fuel as [|fuel IH]; intros path zipPath;
    cbn [fetchDirectoryContents]; [apply runRel_diverge|].
  apply runRel_tryCatch.
  - rewrite Hlist.
    destruct (listing api (contentsUrl o r b path)) as [e|l] eqn:El; cbn [axiosGet].
    { by intros j j' Hj. }
    apply runRel_bind_ret. apply runRel_forEachFrom. intros i' item Hin.
    apply runRel_bind; [apply runRel_onProgress|]. intros _.
    destruct (type item); try apply runRel_ret.
    + intros j j' Hj. rewrite !addFileToZip_eq.
      assert (itemZipPath zipPath (name item) <> "") as Hk
        by (apply itemZipPath_nonempty; by eapply Hnames).
      unfold itemZipPath in Hk. rewrite !fileKey_zipPath by done.
      by apply runRel_zipFile.
    + apply runRel_bind; [apply runRel_zipFolder|]. intros _. apply IH.
  - intros e. destruct (hasStatus e 404); [apply runRel_zipFolder|apply runRel_throw].
Qed.

(** *** Placeholders in the archive *)

#[local] Instance keeps_refl P : Reflexive (keeps P).
Proof. intros j H. exact H. Qed.

#[local] Instance keeps_trans P : Transitive (keeps P).
Proof. intros j1 j2 j3 H12 H23 H. by apply H23, H12. Qed.

Lemma forEachFrom_returned {A} (R : Job -> Job -> Prop)
    `{!Reflexive R} `{!Transitive R} (body : Z -> A -> Run unit) i items j j' x :
  (forall i' item, In item items -> steps R (body i' item)) ->
  forEachFrom body i items j = (Returned tt, j') -> In x items ->
  exists i' j0 j1, body i' x j0 = (Returned tt, j1) /\ R j1 j'.
Proof.
  intros Hsteps. revert i j. induction items as [|y items IH]; intros i j Hrun Hin;
    [done|].
  cbn [forEachFrom] in Hrun. unfold bind in Hrun.
  destruct (body i y j) as [[[]|e|] j1] eqn:Ey; [|done..].
  destruct Hin as [->|Hin].
  - exists i, j, j1. split; [done|].
    assert (steps R (forEachFrom body (i + 1) items)) as Hrest.
    { apply steps_forEachFrom. intros i' item _ Hitem. apply Hsteps. by right. }
    specialize (Hrest j1). by rewrite Hrun in Hrest.
  - eapply IH; [|exact Hrun|exact Hin].
    intros i' item Hitem. apply Hsteps. by right.
Qed.

Section Placeholder.

Variables (api : Api) (o r b k : string).
Hypothesis names : namesOk api.

Abbreviation allFail := (ServicesSpec.allFail api o r b k).

Lemma reaches_nonempty path zipPath item k' :
  reaches api o r b path zipPath item k' -> k' <> "".
Proof.
  induction 1; [|done]. apply itemZipPath_nonempty. by eapply names.
Qed.

Lemma keeps_fetch fuel path zipPath :
  allFail path zipPath ->
  steps (keeps (holdsPlaceholder k)) (fetchDirectoryContents api fuel o r b path zipPath).
Proof.
  intros Hfail. apply steps_fetch.
  - intros p msg _ j Hj. exact Hj.
  - intros name j Hj. by apply folder_keeps.
  - intros item k' Hreach Hfile j Hj. rewrite addFileToZip_eq.
    rewrite fileKey_zipPath by (by eapply reaches_nonempty).
    unfold holdsPlaceholder. cbn [zipFile snd zip].
    destruct (decide (k = k')) as [<-|Hne].
    + rewrite Hfail by done. apply file_lookup.
    + by apply file_keeps.
Qed.

Lemma fetch_returned fuel path zipPath l j j' :
  listing api (contentsUrl o r b path) = inr l ->
  fetchDirectoryContents api (S fuel) o r b path zipPath j = (Returned tt, j') ->
  forEachFrom (walkEntry api fuel o r b zipPath (Z.of_nat (length l))) 0 l j
  = (Returned tt, j').
Proof.
  intros El. rewrite fetch_S, El. cbn [axiosGet].
  unfold tryCatch at 1. unfold bind at 1. cbn [ret].
  pose proof (throwsOnly_forEachFrom (fun e => hasStatus e 404 = false)
                (walkEntry api fuel o r b zipPath (Z.of_nat (length l))) 0 l) as Hthrow.
  destruct (forEachFrom _ 0 l j) as [[[]|e|] j1] eqn:Eloop; [done| |done].
  assert (hasStatus e 404 = false) as ->; [|done].
  eapply Hthrow; [|exact Eloop].
  intros i' item _. eapply throwsOnly_weaken; [|apply throwsOnly_walkEntry].
  by intros e' [? _].
Qed.

Lemma allFail_nested path zipPath l d :
  listing api (contentsUrl o r b path) = inr l -> In d l -> type d = item_dir ->
  allFail path zipPath -> allFail (GitHub.path d) (itemZipPath zipPath (name d)).
Proof.
  intros El Hd Hdir Hfail item Hreach Hfile. apply Hfail; [|done].
  by eapply reaches_nested.
Qed.

(** After a walk that returned, the placeholder is at [k] as soon as one
    file has this ZIP path and every such file fails. *)
Lemma fetch_makes_placeholder fuel path zipPath j j' item :
  allFail path zipPath ->
  fetchDirectoryContents api fuel o r b path zipPath j = (Returned tt, j') ->
  reaches api o r b path zipPath item k -> type item = item_file ->
  holdsPlaceholder k j'.
Proof.
  revert path zipPath j j'; induction fuel as [|fuel IH];
    intros path zipPath j j' Hfail Hrun Hreach Hfile; [done|].
  assert (exists l, listing api (contentsUrl o r b path) = inr l) as [l El]
    by (inversion Hreach; by eauto).
  apply (fetch_returned _ _ _ l) in Hrun; [|done].
  assert (forall i' x, In x l ->
    steps (keeps (holdsPlaceholder k))
          (walkEntry api fuel o r b zipPath (Z.of_nat (length l)) i' x)) as Hbody.
  { intros i' x Hx. unfold walkEntry.
    apply steps_bind; [intros j0 Hj0; exact Hj0|]. intros _.
    destruct (type x) eqn:Ex; try apply steps_ret.
    - intros j0 Hj0. rewrite addFileToZip_eq.
      assert (itemZipPath zipPath (name x) <> "") as Hne
        by (apply itemZipPath_nonempty; by eapply names).
      rewrite fileKey_zipPath by done.
      unfold holdsPlaceholder. cbn [zipFile snd zip].
      destruct (decide (k = itemZipPath zipPath (name x))) as [Hk|Hk].
      + rewrite <- Hk. rewrite Hfail; [apply file_lookup| |done].
        rewrite Hk. by eapply reaches_entry.
      + by apply file_keeps.
    - apply steps_bind; [intros j0 Hj0; by apply folder_keeps|]. intros _.
      apply keeps_fetch. by eapply allFail_nested. }
  inversion Hreach as [path0 zp0 l0 item0 El0 Hin Hp Hz Hi Hk
                      |path0 zp0 l0 d item0 k0 El0 Hd Hdir Hsub Hp Hz Hi Hk];
    rewrite El in El0; injection El0 as <-.
  - destruct (forEachFrom_returned (keeps (holdsPlaceholder k))
                _ _ _ _ _ item Hbody Hrun Hin) as (i' & j0 & j1 & Hitem & Hkeep).
    rewrite Hk. apply Hkeep. unfold walkEntry, bind in Hitem.
    cbn [onProgress] in Hitem. rewrite Hfile in Hitem.
    rewrite addFileToZip_eq in Hitem.
    assert (itemZipPath zipPath (name item) <> "") as Hne
      by (apply itemZipPath_nonempty; by eapply names).
    rewrite fileKey_zipPath in Hitem by done.
    injection Hitem as <-. unfold holdsPlaceholder. cbn [zip].
    rewrite Hfail by done. rewrite <- Hk. apply file_lookup.
  - destruct (forEachFrom_returned (keeps (holdsPlaceholder k))
                _ _ _ _ _ d Hbody Hrun Hd) as (i' & j0 & j1 & Hitem & Hkeep).
    apply Hkeep. unfold walkEntry, bind in Hitem. cbn [onProgress zipFolder] in Hitem.
    rewrite Hdir in Hitem. cbn [onProgress zipFolder] in Hitem.
    eapply IH; [|exact Hitem|exact Hsub|done].
    by eapply allFail_nested.
Qed.

End Placeholder.

(** ** downloadRepository *)

(** The job on a directory address, read off the outcome of the walk. *)
Lemma download_directory api fuel parsedUrl j :
  Parser.type parsedUrl = Parser.type_directory ->
  downloadRepository api fuel parsedUrl j =
    match fetchDirectoryContents api fuel (Parser.owner parsedUrl) (Parser.repo parsedUrl)
            (Parser.branch parsedUrl) (Parser.path parsedUrl) "" (setZip ∅ j) with
    | (Returned _, j1) =>
        closing (getZipFilename (Parser.repo parsedUrl) (Parser.path parsedUrl)) j1
    | (Thrown e, j1) => (Thrown (rethrown e), j1)
    | (Diverged, j1) => (Diverged, j1)
    end.
Proof.
  intros Ht. unfold downloadRepository. rewrite Ht.
  unfold bind at 1. cbn [newZip]. unfold tryCatch, bind.
  change {| zip := ∅; reported := reported j; saved := saved j |} with (setZip ∅ j).
  destruct (fetchDirectoryContents _ _ _ _ _ _ _ _) as [[[]|e|] j1]; try reflexivity.
  unfold closing, generateAsync, onProgress. cbn [zip reported saved].
  destruct (generated (zip j1)) as [msg|content]; cbn [rethrown hasStatus];
    unfold throw, ret, saveAs, closingReports, generatingReports;
    cbn [zip reported saved]; by rewrite <- !List.app_assoc.
Qed.

(** The job on a file address ends when the archive of its one entry is
    generated. *)
Lemma download_file api fuel parsedUrl j :
  Parser.type parsedUrl = Parser.type_file ->
  downloadRepository api fuel parsedUrl j =
    closing (getZipFilename (Parser.repo parsedUrl) (Parser.path parsedUrl))
      (setZip (JSZip.file
                 (fileKey api (Parser.owner parsedUrl) (Parser.repo parsedUrl)
                          (Parser.branch parsedUrl) (Parser.path parsedUrl) "")
                 (fileData api (Parser.owner parsedUrl) (Parser.repo parsedUrl)
                           (Parser.branch parsedUrl) (Parser.path parsedUrl)) ∅) j).
Proof.
  intros Ht. unfold downloadRepository. rewrite Ht.
  unfold bind at 1. cbn [newZip]. unfold tryCatch, bind.
  rewrite addFileToZip_eq. cbn [zipFile zip reported saved].
  unfold closing, generateAsync, onProgress, setZip. cbn [zip reported saved].
  destruct (generated _) as [msg|content]; cbn [rethrown hasStatus];
    unfold throw, ret, saveAs, closingReports, generatingReports;
    cbn [zip reported saved]; by rewrite <- !List.app_assoc.
Qed.

(** The ends of [closing]. *)
Lemma closing_returned zipFilename j out j' :
  closing zipFilename j = (out, j') ->
  match out with
  | Returned result =>
      result = true /\ readable (zip j) /\ zip j' = zip j /\
      reported j' = reported j ++ closingReports /\
      saved j' = Some (zipFilename, entries (zip j))
  | Thrown e =>
      (exists msg, generated (zip j) = inl msg /\ e = PlainError msg) /\
      zip j' = zip j /\ reported j' = reported j ++ generatingReports /\
      saved j' = saved j
  | Diverged => False
  end.
Proof.
  unfold closing. destruct (generated (zip j)) as [msg|content] eqn:E; intros [= <- <-].
  - split; [by exists msg|done].
  - apply generated_inr_inv in E as [-> Hr]. by repeat split.
Qed.

Lemma closing_zip zipFilename j : zip (snd (closing zipFilename j)) = zip j.
Proof. unfold closing. by destruct (generated (zip j)). Qed.

Lemma closing_readable zipFilename j :
  readable (zip j) ->
  closing zipFilename j
  = (Returned true,
     {| zip := zip j; reported := reported j ++ closingReports;
        saved := Some (zipFilename, entries (zip j)) |}).
Proof. intros H. unfold closing. by rewrite generated_inr. Qed.

(** ** The claims about the job *)

(** *** Progress *)

#[local] Instance reportsAdded_refl P : Reflexive (reportsAdded P).
Proof. intros j. exists []. by rewrite List.app_nil_r. Qed.

#[local] Instance reportsAdded_trans P : Transitive (reportsAdded P).
Proof.
  intros j1 j2 j3 (a1 & H1 & F1) (a2 & H2 & F2). exists (a1 ++ a2).
  split; [by rewrite H2, H1, List.app_assoc|by apply Forall_app].
Qed.

Lemma reportsAdded_same P j j' : reported j' = reported j -> reportsAdded P j j'.
Proof. intros H. exists []. by rewrite H, List.app_nil_r. Qed.

Lemma reportsAdded_fetch api fuel o r b path zipPath :
  steps (reportsAdded (fun p => 30 <= p < 70))
        (fetchDirectoryContents api fuel o r b path zipPath).
Proof.
  apply steps_fetch.
  - intros p msg Hp j. exists [(p, msg)]. split; [done|].
    constructor; [exact Hp|constructor].
  - intros name j. by apply reportsAdded_same.
  - intros item k _ _ j. rewrite addFileToZip_eq. by apply reportsAdded_same.
Qed.

Lemma saved_fetch api fuel o r b path zipPath :
  steps (fun j1 j2 => saved j2 = saved j1)
        (fetchDirectoryContents api fuel o r b path zipPath).
Proof.
  apply (@steps_fetch _ (fun j => eq_refl) (fun j1 j2 j3 H1 H2 => eq_trans H2 H1));
    try done.
  intros item k _ _ j0. by rewrite addFileToZip_eq.
Qed.

(** How a job ends: its walk, or its one file, leaves a state [j1] after
    reports between 30 and 69; then the walk has thrown what a listing
    request threw, or was cut by the recursion bound, or the job closes. *)
Lemma download_cases api fuel parsedUrl j out j' :
  downloadRepository api fuel parsedUrl j = (out, j') ->
  exists j1,
    reportsAdded (fun p => 30 <= p < 70) j j1 /\ saved j1 = saved j /\
    (closing (getZipFilename (Parser.repo parsedUrl) (Parser.path parsedUrl)) j1
     = (out, j') \/
     j' = j1 /\
     (out = Diverged \/
      exists url cause,
        listing api url = inl cause /\ hasStatus cause 404 = false /\
        out = Thrown (rethrown cause))).
Proof.
  destruct (Parser.type parsedUrl) eqn:Ht.
  - rewrite download_file by done. intros Hrun. eexists. split; [|split; [|by left]].
    + by apply reportsAdded_same.
    + done.
  - rewrite download_directory by done.
    pose proof (reportsAdded_fetch api fuel (Parser.owner parsedUrl) (Parser.repo parsedUrl)
                  (Parser.branch parsedUrl) (Parser.path parsedUrl) "" (setZip ∅ j))
      as Hreports.
    pose proof (saved_fetch api fuel (Parser.owner parsedUrl) (Parser.repo parsedUrl)
                  (Parser.branch parsedUrl) (Parser.path parsedUrl) "" (setZip ∅ j))
      as Hsaved.
    destruct (fetchDirectoryContents _ _ _ _ _ _ _ _) as [[[]|cause|] j1] eqn:Ef;
      cbn [snd] in *; intros Hrun; exists j1; (split; [exact Hreports|]);
      (split; [exact Hsaved|]).
    + by left.
    + injection Hrun as <- <-. right. split; [done|]. right.
      destruct (throwsOnly_fetch _ _ _ _ _ _ _ _ _ _ Ef) as [E404 [url Hurl]].
      by exists url, cause.
    + injection Hrun as <- <-. right. split; [done|]. by left.
Qed.

Lemma StronglySorted_app (l1 l2 : list Z) :
  StronglySorted Z.le l1 -> StronglySorted Z.le l2 ->
  (forall x y, In x l1 -> In y l2 -> x <= y) ->
  StronglySorted Z.le (l1 ++ l2).
Proof.
  intros H1 H2 Hle. induction H1 as [|a l1 Hl1 IH Ha]; [done|].
  cbn [app]. constructor.
  - apply IH. intros x y Hx Hy. apply Hle; [by right|done].
  - apply Forall_app. split; [done|].
    apply Forall_forall. intros y Hy. apply Hle; [by left|by apply list_elem_of_In].
Qed.

(** A loop over entries that are no directories reports the percentages of
    its indices, in order. *)
Lemma flat_loop api fuel o r b zipPath n (items : list GitHubContent) i j :
  Forall (fun item => type item <> item_dir) items ->
  0 <= i -> i + Z.of_nat (length items) <= n ->
  exists added,
    reported (snd (forEachFrom (walkEntry api fuel o r b zipPath n) i items j))
    = reported j ++ added /\
    StronglySorted Z.le (map fst added) /\
    Forall (fun p => progressPercent i n <= p < 70) (map fst added).
Proof.
  intros Hflat. revert i j. induction Hflat as [|item items Hitem Hflat IH];
    intros i j Hi Hn.
  - exists []. cbn. rewrite List.app_nil_r. by repeat constructor.
  - cbn [forEachFrom length] in *. unfold bind at 1. unfold walkEntry at 1.
    unfold bind at 1. cbn [onProgress].
    set (j1 := {| zip := zip j;
                  reported := reported j ++ [(progressPercent i n,
                                "Processing " +:+ GitHub.path item +:+ "...")];
                  saved := saved j |}).
    assert (exists j2, (match type item with
                        | item_file =>
                            addFileToZip api o r b (GitHub.path item)
                                         (itemZipPath zipPath (name item))
                        | item_dir =>
                            zipFolder (itemZipPath zipPath (name item)) ;;
                            fetchDirectoryContents api fuel o r b (GitHub.path item)
                              (itemZipPath zipPath (name item))
                        | _ => ret tt
                        end) j1 = (Returned tt, j2) /\ reported j2 = reported j1)
      as (j2 & -> & Hj2).
    { destruct (type item) eqn:Et; [|done|by exists j1..].
      rewrite addFileToZip_eq. by eexists. }
    destruct (IH (i + 1) j2) as (added & Hadd & Hsorted & Hrange); [lia..|].
    exists ((progressPercent i n,
             "Processing " +:+ GitHub.path item +:+ "...") :: added).
    split; [|split].
    + rewrite Hadd, Hj2. subst j1. cbn [reported]. by rewrite <- List.app_assoc.
    + cbn [map fst]. constructor; [done|].
      eapply Forall_impl; [exact Hrange|]. intros p [Hp _]. cbn beta in Hp.
      pose proof (progressPercent_mono i (i + 1) n). lia.
    + cbn [map fst]. constructor.
      * pose proof (progressPercent_range i n). lia.
      * eapply Forall_impl; [exact Hrange|]. intros p [Hp ?]. cbn beta in Hp.
        pose proof (progressPercent_mono i (i + 1) n). lia.
Qed.

Lemma flat_fetch api fuel o r b path zipPath j :
  (forall l, listing api (contentsUrl o r b path) = inr l ->
             Forall (fun item => type item <> item_dir) l) ->
  exists added,
    reported (snd (fetchDirectoryContents api fuel o r b path zipPath j))
    = reported j ++ added /\
    StronglySorted Z.le (map fst added) /\
    Forall (fun p => 30 <= p < 70) (map fst added).
Proof.
  intros Hflat. destruct fuel as [|fuel].
  { exists []. cbn. rewrite List.app_nil_r. by repeat constructor. }
  rewrite fetch_S. unfold tryCatch, bind.
  destruct (listing api (contentsUrl o r b path)) as [e|l] eqn:El; cbn [axiosGet throw ret].
  - exists []. rewrite List.app_nil_r. split; [|by repeat constructor].
    by destruct (hasStatus e 404).
  - destruct (flat_loop api fuel o r b zipPath (Z.of_nat (length l)) l 0 j)
      as (added & Hadd & Hsorted & Hrange); [by apply Hflat|lia..|].
    assert (throwsOnly (fun _ => False)
              (forEachFrom (walkEntry api fuel o r b zipPath (Z.of_nat (length l))) 0 l))
      as Hnothrow.
    { apply throwsOnly_forEachFrom. intros i' item Hin. unfold walkEntry.
      apply throwsOnly_bind; [apply throwsOnly_onProgress|]. intros _.
      specialize (Hflat l eq_refl). rewrite Forall_forall in Hflat.
      apply list_elem_of_In, Hflat in Hin.
      destruct (type item); try apply throwsOnly_ret; [|done].
      apply throwsOnly_addFileToZip. }
    destruct (forEachFrom _ 0 l j) as [[[]|e|] j1] eqn:Eloop; cbn [snd] in *.
    + exists added. split; [done|]. split; [done|].
      eapply Forall_impl; [exact Hrange|]. intros p [Hp ?]. cbn beta in Hp.
      rewrite progressPercent_0 in Hp. lia.
    + destruct (Hnothrow _ _ _ Eloop).
    + exists added. split; [done|]. split; [done|].
      eapply Forall_impl; [exact Hrange|]. intros p [Hp ?]. cbn beta in Hp.
      rewrite progressPercent_0 in Hp. lia.
Qed.

(** C1, as stated, fails: with the directory [A] of three files
    before the file [B], the reports are 30, 30, 43, 56 inside [A] and then
    50 for [B]. *)
Lemma progress_can_decrease : ~ progressNeverDecreases.
Proof.
  intros H.
  pose (res := downloadRepository Mock.nestedApi 2 Mock.rootDirectory startJob).
  specialize (H Mock.nestedApi 2%nat Mock.rootDirectory (fst res) (snd res)
                (surjective_pairing res)).
  assert (map fst (reported (snd res)) = [30; 30; 43; 56; 50; 70; 80; 90]) as E
    by (vm_compute; reflexivity).
  rewrite E in H.
  do 3 (apply Sorted_inv in H as [H _]).
  apply Sorted_inv in H as [_ H]. apply HdRel_inv in H. lia.
Qed.

(** C1, amended. The percentage of an entry is non-decreasing in its
    index within one listing and lies between 30 and 69; every report of the
    walk lies between 30 and 69; the reports 70, 80, 90 close a successful
    job, and only a successful one; a job that throws because its archive
    cannot be generated has reported 70 and 80 after the walk, and a job
    whose walk throws has reported nothing after it; the whole sequence is
    non-decreasing for a file job and for a directory job whose top-level
    listing has no directory entry. *)
Theorem progress_in_phases api fuel parsedUrl out j :
  downloadRepository api fuel parsedUrl startJob = (out, j) ->
  (exists walk,
      Forall (fun e => 30 <= fst e < 70) walk /\
      match out with
      | Returned _ => reported j = walk ++ closingReports
      | Thrown e =>
          (reported j = walk ++ generatingReports /\
           exists msg, generated (zip j) = inl msg /\ e = PlainError msg) \/
          (reported j = walk /\
           exists url cause, listing api url = inl cause /\ e = rethrown cause)
      | Diverged => reported j = walk
      end)
  /\ (flatJob api parsedUrl -> Sorted Z.le (map fst (reported j)))
  /\ (forall i i' n, 0 <= i <= i' -> i' < n ->
        30 <= progressPercent i n <= progressPercent i' n /\ progressPercent i' n < 70).
Proof.
  intros Hrun. split; [|split].
  - destruct (download_cases _ _ _ _ _ _ Hrun)
      as (j1 & (walk & Hwalk & Hall) & _ & [Hclose|[-> Hout]]).
    + exists walk. split; [done|]. cbn [reported startJob app] in Hwalk.
      apply closing_returned in Hclose. destruct out as [result|e|]; [| |done].
      * destruct Hclose as (_ & _ & _ & -> & _). by rewrite Hwalk.
      * destruct Hclose as ((msg & Hmsg & ->) & Hz & -> & _). left.
        split; [by rewrite Hwalk|]. exists msg. by rewrite Hz.
    + exists walk. split; [done|]. cbn [reported startJob app] in Hwalk.
      destruct Hout as [->|(url & cause & Hurl & _ & ->)]; [done|].
      right. split; [done|]. by exists url, cause.
  - intros Hflat. apply StronglySorted_Sorted.
    assert (exists added tail,
               reported j = added ++ tail /\
               StronglySorted Z.le (map fst added) /\
               Forall (fun p => 30 <= p < 70) (map fst added) /\
               (tail = closingReports \/ tail = generatingReports \/ tail = []))
      as (added & tail & -> & Hsorted & Hrange & Htail).
    { destruct (Parser.type parsedUrl) eqn:Ht.
      - rewrite download_file in Hrun by done. exists [].
        unfold closing in Hrun. destruct (generated _); injection Hrun as <- <-;
          eexists; (split; [reflexivity|]); (split; [constructor|]);
          (split; [constructor|]); auto.
      - destruct Hflat as [Hfile|Hflat]; [congruence|].
        rewrite download_directory in Hrun by done.
        destruct (flat_fetch api fuel (Parser.owner parsedUrl) (Parser.repo parsedUrl)
                    (Parser.branch parsedUrl) (Parser.path parsedUrl) ""
                    (setZip ∅ startJob) Hflat) as (added & Hadd & Hsorted & Hrange).
        cbn [reported setZip startJob app] in Hadd. exists added.
        destruct (fetchDirectoryContents _ _ _ _ _ _ _ _) as [[[]|e|] j1];
          cbn [snd] in Hadd.
        + unfold closing in Hrun. destruct (generated _); injection Hrun as <- <-;
            cbn [reported]; rewrite Hadd; eexists; (split; [reflexivity|]); repeat split; auto.
        + injection Hrun as <- <-. exists []. rewrite List.app_nil_r. repeat split; auto.
        + injection Hrun as <- <-. exists []. rewrite List.app_nil_r. repeat split; auto. }
    rewrite map_app. apply StronglySorted_app; [done| |].
    + destruct Htail as [->|[->| ->]]; cbn; repeat constructor; lia.
    + intros x y Hx Hy. rewrite Forall_forall in Hrange.
      apply list_elem_of_In, Hrange in Hx.
      destruct Htail as [->|[->| ->]]; cbn in Hy; lia.
  - intros i i' n Hi Hn.
    pose proof (progressPercent_range i n). pose proof (progressPercent_range i' n).
    pose proof (progressPercent_mono i i' n). lia.
Qed.

Lemma progress_in_phases_witness :
  Sorted Z.le
    (map fst (reported (snd (downloadRepository Mock.flatApi 1 Mock.rootDirectory startJob)))).
Proof.
  pose (res := downloadRepository Mock.flatApi 1 Mock.rootDirectory startJob).
  destruct (progress_in_phases Mock.flatApi 1 Mock.rootDirectory (fst res) (snd res)
              (surjective_pairing res)) as (_ & Hflat & _).
  apply Hflat. right. intros l Hl. vm_compute in Hl. injection Hl as <-.
  repeat constructor; discriminate.
Defined.

(** *** Errors *)




(** C5, as stated, fails at the top level: when the listing of the
    repository root answers 404, the walk returns normally and the archive
    is as empty as before, without any marker. *)
Lemma root_not_found_leaves_no_marker : ~ notFoundLeavesMarker.
Proof.
  intros H.
  destruct (H Mock.emptyApi 0%nat "o" "r" "main" "" "" startJob Mock.notFound)
    as (j' & Hrun & Hmarker); [reflexivity..|].
  vm_compute in Hrun. injection Hrun as <-. by vm_compute in Hmarker.
Qed.

(** C5, amended. A listing request answered 404 is recovered by
    [zip.folder(zipPath || path)], after which the call returns normally:
    nothing is lost from the archive; for a nested directory an entry
    exists at its ZIP path; for the top-level request the entry is made at
    the repository path, and none is made when that path is empty. A
    listing failure with any other status, or none, is thrown by the call;
    what a nested call throws is thrown again by the enclosing walk; and
    what the top-level walk throws ends the job with the mapped error. *)
Theorem listing_failure_policy api :
  (forall fuel o r b path zipPath j e,
      listing api (contentsUrl o r b path) = inl e -> hasStatus e 404 = true ->
      fetchDirectoryContents api (S fuel) o r b path zipPath j
      = (Returned tt, setZip (JSZip.folder (JS.orElse zipPath path) (zip j)) j) /\
      (forall k d, zip j !! k = Some d ->
                   JSZip.folder (JS.orElse zipPath path) (zip j) !! k = Some d) /\
      (zipPath <> "" ->
       is_Some (JSZip.folder (JS.orElse zipPath path) (zip j)
                  !! JSZip.forceTrailingSlash zipPath)) /\
      (zipPath = "" -> path <> "" ->
       is_Some (JSZip.folder (JS.orElse zipPath path) (zip j)
                  !! JSZip.forceTrailingSlash path)) /\
      (zipPath = "" -> path = "" ->
       JSZip.folder (JS.orElse zipPath path) (zip j) = zip j))
  /\ (forall fuel o r b path zipPath j e,
        listing api (contentsUrl o r b path) = inl e -> hasStatus e 404 = false ->
        fetchDirectoryContents api (S fuel) o r b path zipPath j = (Thrown e, j))
  /\ (forall fuel o r b path zipPath j l e j',
        listing api (contentsUrl o r b path) = inr l ->
        forEachFrom (walkEntry api fuel o r b zipPath (Z.of_nat (length l))) 0 l j
        = (Thrown e, j') ->
        fetchDirectoryContents api (S fuel) o r b path zipPath j = (Thrown e, j'))
  /\ (forall fuel parsedUrl j e j',
        Parser.type parsedUrl = Parser.type_directory ->
        fetchDirectoryContents api fuel (Parser.owner parsedUrl) (Parser.repo parsedUrl)
          (Parser.branch parsedUrl) (Parser.path parsedUrl) "" (setZip ∅ j)
        = (Thrown e, j') ->
        hasStatus e 404 = false /\
        downloadRepository api fuel parsedUrl j = (Thrown (rethrown e), j') /\
        saved j' = saved j).
Proof.
  split; [|split; [|split]].
  - intros fuel o r b path zipPath j e El E404.
    split; [|split; [|split; [|split]]].
    + rewrite fetch_S, El. unfold tryCatch, bind. cbn [axiosGet throw].
      by rewrite E404.
    + intros k d. apply folder_keeps.
    + intros Hz. rewrite orElse_truthy by done. by apply folder_makes.
    + intros -> Hp. by apply folder_makes.
    + by intros -> ->.
  - intros fuel o r b path zipPath j e El E404.
    rewrite fetch_S, El. unfold tryCatch, bind. cbn [axiosGet throw].
    by rewrite E404.
  - intros fuel o r b path zipPath j l e j' El Hloop.
    rewrite fetch_S, El. unfold tryCatch, bind. cbn [axiosGet ret].
    rewrite Hloop.
    assert (hasStatus e 404 = false) as ->; [|done].
    eapply (throwsOnly_forEachFrom (fun e => hasStatus e 404 = false));
      [|exact Hloop].
    intros i' item _. eapply throwsOnly_weaken; [|apply throwsOnly_walkEntry].
    by intros e' [? _].
  - intros fuel parsedUrl j e j' Ht Hrun.
    destruct (throwsOnly_fetch _ _ _ _ _ _ _ _ _ _ Hrun) as [E404 _].
    split; [done|]. split; [by rewrite download_directory, Hrun|].
    assert (steps (fun j1 j2 => saved j2 = saved j1)
              (fetchDirectoryContents api fuel (Parser.owner parsedUrl)
                 (Parser.repo parsedUrl) (Parser.branch parsedUrl)
                 (Parser.path parsedUrl) "")) as Hsaved.
    { apply (@steps_fetch _ (fun j => eq_refl) (fun j1 j2 j3 H1 H2 => eq_trans H2 H1));
        try done.
      intros item k _ _ j0. by rewrite addFileToZip_eq. }
    specialize (Hsaved (setZip ∅ j)). by rewrite Hrun in Hsaved.
Qed.

Lemma listing_failure_policy_witness :
  fetchDirectoryContents Mock.nestedApi 1 "o" "r" "main" "docs" "docs" startJob
  = (Returned tt, setZip {["docs/" := JSZip.Folder]} startJob)
  /\ downloadRepository Mock.limitedApi 1 Mock.rootDirectory startJob
     = (Thrown (PlainError rateLimitMessage), startJob).
Proof.
  destruct (listing_failure_policy Mock.nestedApi) as (Hfound & _).
  destruct (listing_failure_policy Mock.limitedApi) as (_ & Hother & _ & Hjob).
  split.
  - destruct (Hfound 0%nat "o" "r" "main" "docs" "docs" startJob Mock.notFound)
      as [-> _]; [reflexivity..|].
    f_equal.
  - destruct (Hjob 1%nat Mock.rootDirectory startJob
                (AxiosError (Some 403) "Request failed with status code 403") startJob)
      as (_ & -> & _); [reflexivity| |reflexivity].
    apply (Hother 0%nat "o" "r" "main" "" "" startJob); reflexivity.
Defined.

(** C9, as stated, fails when the path has an empty last segment:
    for the address of [https://github.com/o/r/blob/main] the placeholder is
    named ["unknown-file"], and no entry has the empty name. *)
Lemma placeholder_not_named_from_path : ~ placeholderNamedFromPath.
Proof.
  intros H.
  destruct (H Mock.emptyApi 0%nat Mock.rootFile Mock.notFound)
    as (j' & Hrun & Hname); [reflexivity..|].
  vm_compute in Hrun. injection Hrun as <-. by vm_compute in Hname.
Qed.

(** C9, amended. When the metadata request of a file job fails,
    with a 404 or otherwise, [downloadRepository] throws nothing: it returns
    [true], the archive it saves holds exactly one entry, the placeholder
    text, named by the last segment of the path, or ["unknown-file"] when
    that segment is empty, and the reports are 70, 80, 90. *)
Theorem metadata_failure_is_swallowed api fuel parsedUrl j e :
  Parser.type parsedUrl = Parser.type_file ->
  fileInfo api (contentsUrl (Parser.owner parsedUrl) (Parser.repo parsedUrl)
                  (Parser.branch parsedUrl) (Parser.path parsedUrl)) = inl e ->
  let lastSegment := List.last (JS.split (Parser.path parsedUrl) "/") "" in
  let entryName := if String.eqb lastSegment "" then "unknown-file" else lastSegment in
  downloadRepository api fuel parsedUrl j
  = (Returned true,
     {| zip := {[entryName := JSZip.Text placeholder]};
        reported := reported j ++ closingReports;
        saved := Some (getZipFilename (Parser.repo parsedUrl) (Parser.path parsedUrl),
                       {[entryName := JSZip.Text placeholder]}) |}).
Proof.
  intros Ht He lastSegment entryName. rewrite download_file by done.
  unfold fileKey, fileData, fetched. rewrite He.
  assert (JS.orElse "" (fallbackName (Parser.path parsedUrl)) = entryName) as ->.
  { unfold fallbackName, JS.orElse, truthy, entryName, lastSegment. cbn [String.eqb negb].
    by destruct (String.eqb _ ""). }
  assert (entryName <> "") as Hname.
  { unfold entryName, lastSegment.
    by destruct (String.eqb_spec (List.last (split (Parser.path parsedUrl) "/") "") ""). }
  rewrite file_alone.
  2:{ unfold entryName, lastSegment.
      destruct (String.eqb _ ""); [done|apply last_piece_no_slash]. }
  rewrite closing_readable.
  - cbn [setZip zip reported saved]. rewrite entries_id; [done|].
    apply lookup_singleton_ne. congruence.
  - cbn [setZip zip]. intros k d [<- <-]%lookup_singleton_Some _. done.
Qed.

Lemma metadata_failure_is_swallowed_witness :
  downloadRepository Mock.emptyApi 0 Mock.readmeFile startJob
  = (Returned true,
     {| zip := {["README.md" := JSZip.Text placeholder]};
        reported := closingReports;
        saved := Some ("r-README.md.zip", {["README.md" := JSZip.Text placeholder]}) |}).
Proof.
  apply (metadata_failure_is_swallowed Mock.emptyApi 0 Mock.readmeFile startJob
           Mock.notFound); reflexivity.
Defined.

(** *** Files that fail *)

Lemma reaches_ext api api' o r b path zipPath item k :
  (forall url, listing api' url = listing api url) ->
  reaches api o r b path zipPath item k -> reaches api' o r b path zipPath item k.
Proof.
  intros Hlist. induction 1 as [path zipPath l item El Hin
                               |path zipPath l d item k El Hd Hdir _ IH].
  - eapply reaches_entry; [by rewrite Hlist|done].
  - eapply reaches_nested; [by rewrite Hlist|done..].
Qed.

Lemma download_rel api api' fuel parsedUrl j1 :
  apiRel api api' -> namesOk api ->
  Parser.type parsedUrl = Parser.type_directory ->
  downloadRepository api fuel parsedUrl startJob = (Returned true, j1) ->
  exists j2,
    downloadRepository api' fuel parsedUrl startJob = (Returned true, j2) /\
    zipRel (zip j1) (zip j2) /\ reported j2 = reported j1.
Proof.
  intros Hrel Hnames Ht. rewrite !download_directory by done.
  destruct (runRel_fetch api api' fuel (Parser.owner parsedUrl) (Parser.repo parsedUrl)
              (Parser.branch parsedUrl) (Parser.path parsedUrl) "" Hrel Hnames
              (setZip ∅ startJob) (setZip ∅ startJob) (jobRel_refl _)) as [Hout Hjob].
  destruct (fetchDirectoryContents api _ _ _ _ _ _ _) as [o1 s1].
  destruct (fetchDirectoryContents api' _ _ _ _ _ _ _) as [o2 s2].
  cbn [fst snd] in *. subst o2. destruct Hjob as (Hz & Hr & _).
  destruct o1 as [[]|e|]; [|done..].
  intros (_ & Hread & Hz1 & Hr1 & _)%closing_returned.
  rewrite closing_readable by (by eapply zipRel_readable).
  eexists. split; [done|]. cbn [zip reported]. rewrite Hz1, Hr1, Hr. done.
Qed.

Lemma download_placeholder api fuel parsedUrl j k item :
  namesOk api ->
  Parser.type parsedUrl = Parser.type_directory ->
  downloadRepository api fuel parsedUrl startJob = (Returned true, j) ->
  reaches api (Parser.owner parsedUrl) (Parser.repo parsedUrl) (Parser.branch parsedUrl)
          (Parser.path parsedUrl) "" item k ->
  type item = item_file ->
  allFail api (Parser.owner parsedUrl) (Parser.repo parsedUrl) (Parser.branch parsedUrl)
          k (Parser.path parsedUrl) "" ->
  zip j !! k = Some (Text placeholder).
Proof.
  intros Hnames Ht Hrun Hreach Hfile Hfail. rewrite download_directory in Hrun by done.
  destruct (fetchDirectoryContents _ _ _ _ _ _ _ _) as [[[]|e|] j1] eqn:Ef; [|done..].
  apply closing_returned in Hrun as (_ & _ & -> & _).
  by eapply (fetch_makes_placeholder api _ _ _ k Hnames).
Qed.

Lemma apiRel_withRaw api url e : apiRel api (withRaw api url (inl e)).
Proof.
  split; [done|]. intros o r b p. unfold dataRel, fileData, fetched.
  cbn [withRaw fileInfo blob raw].
  destruct (fileInfo api _) as [?|info]; [by left|].
  destruct (negb (truthy _)); [by left|].
  destruct (String.eqb _ url); [by right|by left].
Qed.

Lemma apiRel_withBlob api url bd :
  encoding bd <> "base64" -> apiRel api (withBlob api url (inr bd)).
Proof.
  intros Henc. split; [done|]. intros o r b p. unfold dataRel, fileData, fetched.
  cbn [withBlob fileInfo blob raw].
  destruct (fileInfo api _) as [?|info]; [by left|].
  destruct (negb (truthy _)); [|by left].
  destruct (String.eqb _ url); [|by left].
  apply eqb_neq in Henc. rewrite Henc. by right.
Qed.

Lemma allFail_withRaw api url e o r b k path zipPath :
  (forall item, reaches api o r b path zipPath item k -> type item = item_file ->
                servedFrom api o r b item url) ->
  allFail (withRaw api url (inl e)) o r b k path zipPath.
Proof.
  intros Hserved item Hreach Hfile.
  apply (reaches_ext _ api) in Hreach; [|done].
  destruct (Hserved item Hreach Hfile) as (info & Hinfo & Hurl & Hne).
  unfold fileData, fetched. cbn [withRaw fileInfo blob raw].
  rewrite Hinfo, Hurl. cbn [urlOrEmpty]. unfold truthy.
  destruct (String.eqb_spec url ""); [done|]. cbn [negb].
  by rewrite String.eqb_refl.
Qed.

Lemma allFail_withBlob api url bd o r b k path zipPath :
  encoding bd <> "base64" ->
  (forall item, reaches api o r b path zipPath item k -> type item = item_file ->
                blobAt api o r b item url) ->
  allFail (withBlob api url (inr bd)) o r b k path zipPath.
Proof.
  intros Henc Hblob item Hreach Hfile.
  apply (reaches_ext _ api) in Hreach; [|done].
  destruct (Hblob item Hreach Hfile) as (info & Hinfo & Hurl & Hsha).
  unfold fileData, fetched. cbn [withBlob fileInfo blob raw].
  rewrite Hinfo, Hurl, Hsha. cbn [urlOrEmpty truthy String.eqb negb].
  rewrite String.eqb_refl. apply eqb_neq in Henc. by rewrite Henc.
Qed.

(** C3. Take a directory job that succeeds, on a mock whose
    listings have non-empty names, and let the download of the bytes at
    [url] fail instead. The job still succeeds; the archive has the same
    entry names, hence the same number of entries; every entry is what it
    was or the placeholder text; and a ZIP path whose files all have their
    bytes at [url] holds the placeholder text. *)
Theorem failed_download_keeps_job api fuel parsedUrl url e j1 :
  namesOk api ->
  Parser.type parsedUrl = Parser.type_directory ->
  downloadRepository api fuel parsedUrl startJob = (Returned true, j1) ->
  exists j2,
    downloadRepository (withRaw api url (inl e)) fuel parsedUrl startJob
    = (Returned true, j2) /\
    dom (zip j2) = dom (zip j1) /\
    base.size (zip j2) = base.size (zip j1) /\
    (forall k, zip j2 !! k = zip j1 !! k \/ zip j2 !! k = Some (Text placeholder)) /\
    (forall k,
        (exists item,
            reaches api (Parser.owner parsedUrl) (Parser.repo parsedUrl)
                    (Parser.branch parsedUrl) (Parser.path parsedUrl) "" item k /\
            type item = item_file) ->
        (forall item,
            reaches api (Parser.owner parsedUrl) (Parser.repo parsedUrl)
                    (Parser.branch parsedUrl) (Parser.path parsedUrl) "" item k ->
            type item = item_file ->
            servedFrom api (Parser.owner parsedUrl) (Parser.repo parsedUrl)
                       (Parser.branch parsedUrl) item url) ->
        zip j2 !! k = Some (Text placeholder)).
Proof.
  intros Hnames Ht Hrun.
  destruct (download_rel api (withRaw api url (inl e)) fuel parsedUrl j1
              (apiRel_withRaw api url e) Hnames Ht Hrun) as (j2 & Hrun2 & Hz & _).
  exists j2. split; [done|].
  split; [symmetry; by apply zipRel_dom|].
  split; [symmetry; by apply zipRel_size|].
  split; [intros k; by apply zipRel_lookup|].
  intros k (item & Hreach & Hfile) Hserved.
  eapply (download_placeholder (withRaw api url (inl e))); [done|done|exact Hrun2| |done|].
  - by apply (reaches_ext api).
  - by apply allFail_withRaw.
Qed.

Lemma respond_namesOk table url l item :
  Mock.tableNamesOk table = true ->
  Mock.respond table url = inr l -> In item l -> name item <> "".
Proof.
  intros Hok Hl Hin. induction table as [|[u answer] table IH]; [done|].
  cbn [Mock.tableNamesOk forallb snd] in Hok. apply andb_true_iff in Hok as [Hrow Hok].
  cbn [Mock.respond] in Hl. destruct (String.eqb u url); [|by apply IH].
  subst answer. rewrite forallb_forall in Hrow.
  specialize (Hrow item Hin). unfold truthy in Hrow.
  apply negb_true_iff in Hrow. by apply eqb_neq.
Qed.

Lemma flatApi_namesOk : namesOk Mock.flatApi.
Proof. intros url l item. by apply respond_namesOk. Qed.

Lemma flatApi_reaches item k :
  reaches Mock.flatApi "o" "r" "main" "" "" item k ->
  (item = Mock.fileEntry "a.txt" "a.txt" /\ k = "a.txt") \/
  (item = Mock.largeFileEntry "big.bin" "big.bin" /\ k = "big.bin").
Proof.
  assert (listing Mock.flatApi (contentsUrl "o" "r" "main" "")
          = inr [Mock.fileEntry "a.txt" "a.txt"; Mock.largeFileEntry "big.bin" "big.bin"])
    as El by reflexivity.
  inversion 1 as [path0 zp0 l0 item0 El0 Hin|path0 zp0 l0 d item0 k0 El0 Hd Hdir Hsub];
    subst; rewrite El in El0; injection El0 as <-.
  - destruct Hin as [<-|[<-|[]]]; [by left|by right].
  - by destruct Hd as [<-|[<-|[]]].
Qed.

Lemma failed_download_keeps_job_witness :
  exists j2,
    downloadRepository
      (withRaw Mock.flatApi "https://raw.githubusercontent.com/o/r/main/a.txt"
               (inl Mock.networkError))
      1 Mock.rootDirectory startJob = (Returned true, j2) /\
    base.size (zip j2) = 2%nat /\
    zip j2 !! "a.txt" = Some (Text placeholder).
Proof.
  pose (res := downloadRepository Mock.flatApi 1 Mock.rootDirectory startJob).
  destruct (failed_download_keeps_job Mock.flatApi 1 Mock.rootDirectory
              "https://raw.githubusercontent.com/o/r/main/a.txt" Mock.networkError
              (snd res) flatApi_namesOk eq_refl)
    as (j2 & Hrun & _ & Hsize & _ & Hplace); [by vm_compute|].
  exists j2. split; [done|]. split; [rewrite Hsize; by vm_compute|].
  apply Hplace.
  - exists (Mock.fileEntry "a.txt" "a.txt"). split; [|done].
    by eapply (reaches_entry _ _ _ _ "" "" _ (Mock.fileEntry "a.txt" "a.txt")); [reflexivity|left].
  - intros item [[-> _]|[_ [=]]]%flatApi_reaches _.
    exists (Mock.fileEntry "a.txt" "a.txt"). by repeat split.
Defined.

(** *** Entries that a failing blob does not touch *)

Lemma sameOutside_refl K (z : gmap string Data) : sameOutside K z z.
Proof. by split. Qed.

Lemma sameOutside_insert K (z z' : gmap string Data) k d d' :
  sameOutside K z z' -> K k \/ d' = d -> sameOutside K (<[k := d]> z) (<[k := d']> z').
Proof.
  intros [Hdom Hsame] Hd. split; [by rewrite !dom_insert_L, Hdom|].
  intros k' Hk'. destruct (decide (k = k')) as [<-|Hne].
  - rewrite !lookup_insert_eq. by destruct Hd as [?| ->].
  - rewrite !lookup_insert_ne by done. by apply Hsame.
Qed.

Lemma sameOutside_present K (z z' : gmap string Data) k :
  sameOutside K z z' -> is_Some (z !! k) <-> is_Some (z' !! k).
Proof. intros [Hdom _]. by rewrite <- !elem_of_dom, Hdom. Qed.

Lemma sameOutside_folderAddUpTo K depth name (z z' : gmap string Data) :
  sameOutside K z z' ->
  sameOutside K (folderAddUpTo depth name z) (folderAddUpTo depth name z').
Proof.
  revert name z z'; induction depth as [|depth IH]; intros name z z' Hz;
    rewrite (folderAddUpTo_eq _ name z), (folderAddUpTo_eq _ name z');
    pose proof (sameOutside_present K z z' (forceTrailingSlash name) Hz) as Hp;
    destruct (z !! forceTrailingSlash name) as [d|] eqn:E,
             (z' !! forceTrailingSlash name) as [d'|] eqn:E'; try done;
    try (exfalso; destruct Hp as [Hp1 Hp2];
         first [by destruct Hp1 as [? ?]; eauto|by destruct Hp2 as [? ?]; eauto]);
    (apply sameOutside_insert; [|by right]); [done|].
  destruct (truthy _); auto.
Qed.

Lemma sameOutside_folder K arg (z z' : gmap string Data) :
  sameOutside K z z' -> sameOutside K (folder arg z) (folder arg z').
Proof.
  intros Hz. unfold folder, folderAdd. destruct (negb (truthy arg)); [done|].
  by apply sameOutside_folderAddUpTo.
Qed.

Lemma sameOutside_file K name d d' (z z' : gmap string Data) :
  sameOutside K z z' -> K name \/ d' = d ->
  sameOutside K (file name d z) (file name d' z').
Proof.
  intros Hz Hd. unfold file, fileAdd. apply sameOutside_insert; [|done].
  destruct (truthy _); [|done]. by apply sameOutside_folderAddUpTo.
Qed.

Lemma runSame_ret {A} K (a : A) : runSame K (ret a) (ret a).
Proof. by intros j j' H. Qed.

Lemma runSame_throw {A} K e : runSame K (@throw A e) (@throw A e).
Proof. by intros j j' H. Qed.

Lemma runSame_bind {A B} K (m m' : Run A) (k k' : A -> Run B) :
  runSame K m m' -> (forall a, runSame K (k a) (k' a)) ->
  runSame K (bind m k) (bind m' k').
Proof.
  intros Hm Hk j j' Hj. unfold bind. destruct (Hm j j' Hj) as [Ho Hs].
  destruct (m j) as [o1 j1], (m' j') as [o2 j2]. simpl in *. subst o2.
  destruct o1 as [a|e|]; [by apply Hk|done..].
Qed.

Lemma runSame_tryCatch {A} K (body body' : Run A) (handler handler' : JsError -> Run A) :
  runSame K body body' -> (forall e, runSame K (handler e) (handler' e)) ->
  runSame K (tryCatch body handler) (tryCatch body' handler').
Proof.
  intros Hm Hh j j' Hj. unfold tryCatch. destruct (Hm j j' Hj) as [Ho Hs].
  destruct (body j) as [o1 j1], (body' j') as [o2 j2]. simpl in *. subst o2.
  destruct o1 as [a|e|]; [done|by apply Hh|done].
Qed.

Lemma runSame_forEachFrom {A} K (body body' : Z -> A -> Run unit) i (items : list A) :
  (forall i' item, In item items -> runSame K (body i' item) (body' i' item)) ->
  runSame K (forEachFrom body i items) (forEachFrom body' i items).
Proof.
  revert i; induction items as [|x items IH]; intros i Hbody; cbn [forEachFrom].
  - apply runSame_ret.
  - apply runSame_bind; [apply Hbody; by left|].
    intros _. apply IH. intros i' item Hin. apply Hbody. by right.
Qed.

Lemma runSame_zipFolder K name : runSame K (zipFolder name) (zipFolder name).
Proof. intros j j' Hj. split; [done|]. by apply sameOutside_folder. Qed.

(** Two mocks with the same listings, whose files differ at most at the
    ZIP paths in [K], give walks that end the same way, with archives that
    differ at most in [K]. *)
Lemma runSame_fetch api api' K fuel o r b path zipPath :
  (forall url, listing api' url = listing api url) -> namesOk api ->
  (forall item k, reaches api o r b path zipPath item k -> type item = item_file ->
                  K k \/ fileData api' o r b (GitHub.path item)
                         = fileData api o r b (GitHub.path item)) ->
  runSame K (fetchDirectoryContents api fuel o r b path zipPath)
            (fetchDirectoryContents api' fuel o r b path zipPath).
Proof.
  intros Hlist Hnames.
  revert path zipPath; induction fuel as [|fuel IH]; intros path zipPath Hfile;
    cbn [fetchDirectoryContents]; [by intros j j' Hj|].
  apply runSame_tryCatch.
  - rewrite Hlist.
    destruct (listing api (contentsUrl o r b path)) as [e|l] eqn:El; cbn [axiosGet].
    { by intros j j' Hj. }
    intros j j' Hj. unfold bind at 1 3. cbn [ret]. revert j j' Hj.
    apply runSame_forEachFrom. intros i' item Hin.
    apply runSame_bind; [by intros j j' Hj|]. intros _.
    destruct (type item) eqn:Et; try apply runSame_ret.
    + intros j j' Hj. rewrite !addFileToZip_eq.
      assert (itemZipPath zipPath (name item) <> "") as Hk
        by (apply itemZipPath_nonempty; by eapply Hnames).
      unfold itemZipPath in Hk. rewrite !fileKey_zipPath by done.
      split; [done|]. cbn [zipFile snd zip]. apply sameOutside_file; [done|].
      apply (Hfile item); [|done]. by eapply reaches_entry.
    + apply runSame_bind; [apply runSame_zipFolder|]. intros _. apply IH.
      intros item' k Hreach Hty. apply (Hfile item'); [|done].
      by eapply reaches_nested.
  - intros e. destruct (hasStatus e 404); [apply runSame_zipFolder|apply runSame_throw].
Qed.

Lemma download_outside api api' K fuel parsedUrl j1 j2 :
  (forall url, listing api' url = listing api url) -> namesOk api ->
  Parser.type parsedUrl = Parser.type_directory ->
  (forall item k,
      reaches api (Parser.owner parsedUrl) (Parser.repo parsedUrl)
              (Parser.branch parsedUrl) (Parser.path parsedUrl) "" item k ->
      type item = item_file ->
      K k \/ fileData api' (Parser.owner parsedUrl) (Parser.repo parsedUrl)
               (Parser.branch parsedUrl) (GitHub.path item)
             = fileData api (Parser.owner parsedUrl) (Parser.repo parsedUrl)
                 (Parser.branch parsedUrl) (GitHub.path item)) ->
  downloadRepository api fuel parsedUrl startJob = (Returned true, j1) ->
  downloadRepository api' fuel parsedUrl startJob = (Returned true, j2) ->
  forall k, ~ K k -> zip j2 !! k = zip j1 !! k.
Proof.
  intros Hlist Hnames Ht Hfile. rewrite !download_directory by done.
  destruct (runSame_fetch api api' K fuel (Parser.owner parsedUrl) (Parser.repo parsedUrl)
              (Parser.branch parsedUrl) (Parser.path parsedUrl) "" Hlist Hnames Hfile
              (setZip ∅ startJob) (setZip ∅ startJob) (sameOutside_refl _ _))
    as [_ [_ Hsame]].
  destruct (fetchDirectoryContents api _ _ _ _ _ _ _) as [[[]|?|] s1]; [|done..].
  destruct (fetchDirectoryContents api' _ _ _ _ _ _ _) as [[[]|?|] s2]; [|done..].
  intros (_ & _ & -> & _)%closing_returned (_ & _ & -> & _)%closing_returned k Hk.
  symmetry. by apply Hsame.
Qed.

Lemma append_inj_r (p a b : string) : p +:+ a = p +:+ b -> a = b.
Proof. induction p as [|c p IH]; [done|]. intros [= H]. by apply IH. Qed.

Lemma blobUrl_inj o r s s' : blobUrl o r s = blobUrl o r s' -> s = s'.
Proof. unfold blobUrl. by intros H; repeat apply append_inj_r in H. Qed.

(** A file is asked of the blob endpoint at [s], or the answer at [s]
    does not matter to it. *)
Lemma withBlob_cases api o r b item s answer :
  blobKeyed api o r b item s \/
  fileData (withBlob api (blobUrl o r s) answer) o r b (GitHub.path item)
  = fileData api o r b (GitHub.path item).
Proof.
  unfold blobKeyed, fileData, fetched. cbn [withBlob fileInfo blob raw].
  destruct (fileInfo api _) as [?|info]; [by right|].
  destruct (truthy (urlOrEmpty (download_url info))) eqn:Eu; cbn [negb]; [by right|].
  destruct (String.eqb_spec (sha info) s) as [Hs|Hs]; [left; by exists info|].
  right. destruct (String.eqb_spec (blobUrl o r (sha info)) (blobUrl o r s)) as [E|E];
    [by apply blobUrl_inj in E|done].
Qed.

Lemma allFail_blobKeyed api s bd o r b k path zipPath :
  encoding bd <> "base64" ->
  (forall item, reaches api o r b path zipPath item k -> type item = item_file ->
                blobKeyed api o r b item s) ->
  allFail (withBlob api (blobUrl o r s) (inr bd)) o r b k path zipPath.
Proof.
  intros Henc Hblob item Hreach Hfile.
  apply (reaches_ext _ api) in Hreach; [|done].
  destruct (Hblob item Hreach Hfile) as (info & Hinfo & Hurl & Hsha).
  unfold fileData, fetched. cbn [withBlob fileInfo blob raw].
  rewrite Hinfo, Hurl, Hsha. cbn [negb].
  rewrite String.eqb_refl. apply eqb_neq in Henc. by rewrite Henc.
Qed.

(** C4. A file whose metadata has [download_url = null] is read
    from the blob endpoint at the [sha] of the metadata, the URL
    [https://api.github.com/repos/{owner}/{repo}/git/blobs/{sha}], and
    stored as base64 text. And take a directory job that succeeds, on a
    mock whose listings have non-empty names, and let the blob endpoint at
    one [sha] answer with another encoding: the job still succeeds; the
    archive has the same entry names; a ZIP path none of whose files is
    asked of the blob endpoint at this [sha] holds what it held, so the
    remaining files are as they were; and a ZIP path whose files are all
    asked of it holds the placeholder text. *)
Theorem blob_download_and_encoding api :
  (forall o r b path zipPath j info bd,
      fileInfo api (contentsUrl o r b path) = inr info ->
      download_url info = None ->
      blob api ("https://api.github.com/repos/" +:+ o +:+ "/" +:+ r +:+ "/git/blobs/"
                  +:+ sha info) = inr bd ->
      encoding bd = "base64" ->
      addFileToZip api o r b path zipPath j
      = (Returned tt,
         setZip (JSZip.file (JS.orElse zipPath (name info)) (Base64 (content bd)) (zip j))
                j))
  /\ (forall fuel parsedUrl s bd j1,
        encoding bd <> "base64" ->
        namesOk api ->
        Parser.type parsedUrl = Parser.type_directory ->
        downloadRepository api fuel parsedUrl startJob = (Returned true, j1) ->
        exists j2,
          downloadRepository
            (withBlob api
               ("https://api.github.com/repos/" +:+ Parser.owner parsedUrl +:+ "/"
                  +:+ Parser.repo parsedUrl +:+ "/git/blobs/" +:+ s)
               (inr bd))
            fuel parsedUrl startJob
          = (Returned true, j2) /\
          dom (zip j2) = dom (zip j1) /\
          (forall k, zip j2 !! k = zip j1 !! k \/ zip j2 !! k = Some (Text placeholder)) /\
          (forall k,
              (forall item,
                  reaches api (Parser.owner parsedUrl) (Parser.repo parsedUrl)
                          (Parser.branch parsedUrl) (Parser.path parsedUrl) "" item k ->
                  type item = item_file ->
                  ~ blobKeyed api (Parser.owner parsedUrl) (Parser.repo parsedUrl)
                      (Parser.branch parsedUrl) item s) ->
              zip j2 !! k = zip j1 !! k) /\
          (forall k,
              (exists item,
                  reaches api (Parser.owner parsedUrl) (Parser.repo parsedUrl)
                          (Parser.branch parsedUrl) (Parser.path parsedUrl) "" item k /\
                  type item = item_file) ->
              (forall item,
                  reaches api (Parser.owner parsedUrl) (Parser.repo parsedUrl)
                          (Parser.branch parsedUrl) (Parser.path parsedUrl) "" item k ->
                  type item = item_file ->
                  blobKeyed api (Parser.owner parsedUrl) (Parser.repo parsedUrl)
                            (Parser.branch parsedUrl) item s) ->
              zip j2 !! k = Some (Text placeholder))).
Proof.
  split.
  - intros o r b path zipPath j info bd Hinfo Hurl Hblob Henc.
    rewrite addFileToZip_eq. unfold fileKey, fileData, fetched.
    change (blob api (blobUrl o r (sha info)) = inr bd) in Hblob.
    rewrite Hinfo, Hurl, Hblob, Henc. reflexivity.
  - intros fuel parsedUrl s bd j1 Henc Hnames Ht Hrun.
    change ("https://api.github.com/repos/" +:+ Parser.owner parsedUrl +:+ "/"
              +:+ Parser.repo parsedUrl +:+ "/git/blobs/" +:+ s)
      with (blobUrl (Parser.owner parsedUrl) (Parser.repo parsedUrl) s).
    set (url := blobUrl (Parser.owner parsedUrl) (Parser.repo parsedUrl) s).
    destruct (download_rel api (withBlob api url (inr bd)) fuel parsedUrl j1
                (apiRel_withBlob api url bd Henc) Hnames Ht Hrun) as (j2 & Hrun2 & Hz & _).
    exists j2. split; [done|].
    split; [symmetry; by apply zipRel_dom|].
    split; [intros k; by apply zipRel_lookup|]. split.
    + intros k Hk.
      apply (download_outside api (withBlob api url (inr bd))
               (fun k' => exists item,
                    reaches api (Parser.owner parsedUrl) (Parser.repo parsedUrl)
                            (Parser.branch parsedUrl) (Parser.path parsedUrl) "" item k' /\
                    type item = item_file /\
                    blobKeyed api (Parser.owner parsedUrl) (Parser.repo parsedUrl)
                              (Parser.branch parsedUrl) item s)
               fuel parsedUrl j1 j2); try done.
      * intros item k' Hreach Hty.
        destruct (withBlob_cases api (Parser.owner parsedUrl) (Parser.repo parsedUrl)
                    (Parser.branch parsedUrl) item s (inr bd)) as [Hb|Hsame];
          [left; by exists item|by right].
      * intros (item & Hreach & Hty & Hb). by apply (Hk item).
    + intros k (item & Hreach & Hfile) Hblob.
      eapply (download_placeholder (withBlob api url (inr bd)));
        [done|done|exact Hrun2| |done|].
      * by apply (reaches_ext api).
      * by apply allFail_blobKeyed.
Qed.

Lemma blob_download_and_encoding_witness :
  addFileToZip Mock.flatApi "o" "r" "main" "big.bin" "big.bin" startJob
  = (Returned tt, setZip {["big.bin" := Base64 "AAEC"]} startJob)
  /\ exists j2,
       downloadRepository
         (withBlob Mock.flatApi "https://api.github.com/repos/o/r/git/blobs/sha-big.bin"
                   (inr {| content := "AAEC"; encoding := "utf-8" |}))
         1 Mock.rootDirectory startJob = (Returned true, j2) /\
       zip j2 !! "a.txt" = Some (Binary "bytes of a.txt") /\
       zip j2 !! "big.bin" = Some (Text placeholder).
Proof.
  destruct (blob_download_and_encoding Mock.flatApi) as [Hfile Hjob].
  split.
  - rewrite (Hfile "o" "r" "main" "big.bin" "big.bin" startJob
               (Mock.largeFileEntry "big.bin" "big.bin")
               {| content := "AAEC"; encoding := "base64" |}); reflexivity.
  - pose (res := downloadRepository Mock.flatApi 1 Mock.rootDirectory startJob).
    destruct (Hjob 1%nat Mock.rootDirectory "sha-big.bin"
                {| content := "AAEC"; encoding := "utf-8" |} (snd res))
      as (j2 & Hrun & _ & _ & Hrest & Hplace);
      [discriminate|apply flatApi_namesOk|reflexivity|by vm_compute|].
    exists j2. split; [exact Hrun|]. split.
    + rewrite (Hrest "a.txt"); [by vm_compute|].
      intros item [[-> _]|[_ [=]]]%flatApi_reaches _ (info & Hinfo & Hurl & _).
      vm_compute in Hinfo. injection Hinfo as <-. by vm_compute in Hurl.
    + apply Hplace.
      * exists (Mock.largeFileEntry "big.bin" "big.bin"). split; [|done].
        by eapply (reaches_entry _ _ _ _ "" "" _ (Mock.largeFileEntry "big.bin" "big.bin"));
          [reflexivity|right; left].
      * intros item [[_ [=]]|[-> _]]%flatApi_reaches _.
        exists (Mock.largeFileEntry "big.bin" "big.bin"). by repeat split.
Defined.

End ServicesFacts.

(** * Beyond the claims: the parser *)

Module ParserExtras.

Import JS StringSpec JSFacts Parser ParserSpec ParserFacts ExtraSpec.

#[local] Arguments String.append : simpl nomatch.

(** The parser sees its input only through [cleanUrl]. *)
Lemma parseGitHubUrl_cleanUrl u1 u2 :
  cleanUrl u1 = cleanUrl u2 -> parseGitHubUrl u1 = parseGitHubUrl u2.
Proof. intros H. unfold parseGitHubUrl. by rewrite H. Qed.

Lemma trimStart_app s t :
  trimStart (s +:+ t) = if allWhiteSpace s then trimStart t else trimStart s +:+ t.
Proof.
  induction s as [|c s IH]; [done|].
  change (String c s +:+ t) with (String c (s +:+ t)).
  cbn [trimStart allWhiteSpace]. by destruct (isWhiteSpace c).
Qed.

Lemma trimEnd_app_white s w : allWhiteSpace w = true -> trimEnd (s +:+ w) = trimEnd s.
Proof.
  intros Hw. induction s as [|c s IH]; [by apply trimEnd_allWhiteSpace|].
  change (String c s +:+ w) with (String c (s +:+ w)).
  by rewrite !trimEnd_cons, IH.
Qed.

Lemma trim_surrounded w1 url w2 :
  allWhiteSpace w1 = true -> allWhiteSpace w2 = true ->
  trim (w1 +:+ url +:+ w2) = trim url.
Proof.
  intros H1 H2. unfold trim. rewrite trimStart_app, H1, trimStart_app.
  destruct (allWhiteSpace url) eqn:E.
  - by rewrite !trimStart_allWhiteSpace.
  - by apply trimEnd_app_white.
Qed.

(** X1. White space around the URL does not matter: the parser returns
    for a URL with white space before and after it what it returns for the
    URL alone. *)
Theorem parse_ignores_surrounding_space (w1 url w2 : string) :
  allWhiteSpace w1 = true -> allWhiteSpace w2 = true ->
  parseGitHubUrl (w1 +:+ url +:+ w2) = parseGitHubUrl url.
Proof.
  intros H1 H2. apply parseGitHubUrl_cleanUrl. unfold cleanUrl.
  by rewrite trim_surrounded.
Qed.

Lemma parse_ignores_surrounding_space_witness :
  parseGitHubUrl ("  " +:+ "https://github.com/octo/hello" +:+ " ")
  = parseGitHubUrl "https://github.com/octo/hello".
Proof. apply parse_ignores_surrounding_space; reflexivity. Defined.

Lemma trimStart_ends x c :
  isWhiteSpace c = false ->
  exists y, trimStart (x +:+ String c "") = y +:+ String c "".
Proof.
  intros Hc. rewrite trimStart_app. destruct (allWhiteSpace x).
  - exists "". cbn. by rewrite Hc.
  - by exists (trimStart x).
Qed.

(** X2. One trailing slash does not matter: when the URL ends with a
    character that is neither a slash nor white space, the parser returns
    for the URL followed by a slash what it returns for the URL. *)
Theorem parse_ignores_trailing_slash (x : string) (c : ascii) :
  isWhiteSpace c = false -> c <> "/"%char ->
  parseGitHubUrl (x +:+ String c "" +:+ "/") = parseGitHubUrl (x +:+ String c "").
Proof.
  intros Hc Hslash. apply parseGitHubUrl_cleanUrl. rewrite !cleanUrl_eq.
  rewrite <- JSFacts.app_assoc, trimStart_app.
  assert (allWhiteSpace (x +:+ String c "") = false) as ->.
  { clear Hslash. induction x as [|d x IH]; cbn [allWhiteSpace append].
    - by rewrite Hc.
    - change (String d x +:+ String c "") with (String d (x +:+ String c "")).
      cbn [allWhiteSpace]. by rewrite IH, andb_false_r. }
  destruct (trimStart_ends x c Hc) as (y & ->).
  rewrite (trimEnd_keep_last (y +:+ String c "") "/") by done.
  by rewrite chopSlash_snoc, trimEnd_keep_last, chopSlash_keep_last.
Qed.

Lemma parse_ignores_trailing_slash_witness :
  parseGitHubUrl "https://github.com/octo/hello/"
  = parseGitHubUrl "https://github.com/octo/hello".
Proof.
  apply (parse_ignores_trailing_slash "https://github.com/octo/hell" "o");
    [reflexivity|discriminate].
Defined.

Lemma afterFirst_after_prefix p rest :
  countChar "g" p = O -> afterFirst (p +:+ githubPrefix +:+ rest) githubPrefix = Some rest.
Proof.
  induction p as [|c p IH]; cbn [countChar].
  - intros _. change ("" +:+ githubPrefix +:+ rest) with (githubPrefix +:+ rest).
    apply afterFirst_app.
  - destruct (Ascii.eqb_spec c "g") as [|Hc]; [done|]. intros Hp.
    change (String c p +:+ githubPrefix +:+ rest)
      with (String c (p +:+ githubPrefix +:+ rest)).
    rewrite afterFirst_skip; [by apply IH|].
    unfold githubPrefix. cbn [String.prefix].
    destruct (ascii_dec "g" c); [congruence|done].
Qed.

(** X3. What stands before the first ["github.com/"] does not matter, as
    long as it has no letter g: scheme and subdomain are ignored. *)
Theorem parse_ignores_scheme (p rest : string) :
  countChar "g" p = O ->
  parseGitHubUrl (p +:+ githubPrefix +:+ rest) = parseGitHubUrl (githubPrefix +:+ rest).
Proof.
  intros Hp. rewrite !parseGitHubUrl_unfold, !afterFirst_cleanUrl.
  by rewrite afterFirst_after_prefix, afterFirst_app.
Qed.

Lemma parse_ignores_scheme_witness :
  parseGitHubUrl "http://www.github.com/octo/hello/tree/dev/src"
  = parseGitHubUrl "github.com/octo/hello/tree/dev/src".
Proof.
  apply (parse_ignores_scheme "http://www." "octo/hello/tree/dev/src"). reflexivity.
Defined.

Lemma addressOfParts_no_slash parts a :
  Forall (fun p => countChar "/" p = O) parts ->
  addressOfParts parts = Some a ->
  countChar "/" (owner a) = O /\ countChar "/" (repo a) = O /\
  countChar "/" (branch a) = O.
Proof.
  intros Hall. destruct parts as [|o [|r [|sp [|b ps]]]]; cbn [addressOfParts];
    try done.
  1,2: apply Forall_cons in Hall as [Ho Hall]; apply Forall_cons in Hall as [Hr _];
       by intros [= <-].
  apply Forall_cons in Hall as [Ho Hall]. apply Forall_cons in Hall as [Hr Hall].
  apply Forall_cons in Hall as [_ Hall]. apply Forall_cons in Hall as [Hb _].
  destruct (String.eqb sp "tree"); [by intros [= <-]|].
  destruct (String.eqb sp "blob"); by intros [= <-].
Qed.

Lemma parse_no_slash url a :
  parseGitHubUrl url = Some a ->
  countChar "/" (owner a) = O /\ countChar "/" (repo a) = O /\
  countChar "/" (branch a) = O.
Proof.
  rewrite parseGitHubUrl_unfold.
  destruct (afterFirst (cleanUrl url) githubPrefix) as [rest|]; [|done].
  apply addressOfParts_no_slash, JSZipFacts.split_pieces.
Qed.

(** X4. Whenever the parser succeeds, owner, repository and branch are
    single pieces: none of them contains a slash. A branch whose name has a
    slash is cut at its first slash. *)
Theorem parse_names_have_no_slash (url : string) (a : ParsedGitHubUrl) :
  parseGitHubUrl url = Some a ->
  countChar "/" (owner a) = O /\ countChar "/" (repo a) = O /\
  countChar "/" (branch a) = O.
Proof. apply parse_no_slash. Qed.

Lemma parse_names_have_no_slash_witness :
  countChar "/" "octo" = O /\ countChar "/" "hello" = O /\ countChar "/" "feature" = O.
Proof.
  apply (parse_names_have_no_slash "https://github.com/octo/hello/tree/feature/x/src"
           {| owner := "octo"; repo := "hello"; branch := "feature"; path := "x/src";
              type := type_directory |}).
  reflexivity.
Defined.

Lemma join_nonempty (ps : list string) :
  ps <> [] -> Forall (fun s => isSegment s = true) ps -> join ps "/" <> "".
Proof.
  destruct ps as [|p ps]; [done|]. intros _ Hall.
  apply Forall_cons in Hall as [(Hne & _)%isSegment_inv _].
  destruct ps; [done|]. rewrite join_cons. by destruct p.
Qed.

(** X5. Round trip: the web URL written from a well-formed address, with
    [/tree/] for a directory and [/blob/] for a file, the branch, and the
    path when it is not empty, is parsed back to this address. *)
Theorem parse_urlOf (a : ParsedGitHubUrl) :
  wellFormed a -> parseGitHubUrl (urlOf a) = Some a.
Proof.
  destruct a as [o r b p t]. intros (Ho & Hr & Hb & ps & Hps & Hp).
  cbn [owner repo branch path type] in *. subst p. unfold urlOf.
  cbn [owner repo branch path type].
  assert (isSegment "tree" = true) as Htree by reflexivity.
  assert (isSegment "blob" = true) as Hblob by reflexivity.
  destruct ps as [|p ps].
  - change (truthy (join [] "/")) with false. cbv iota. rewrite JSFacts.app_nil_r.
    destruct t.
    + change (o +:+ "/" +:+ r +:+ "/blob/" +:+ b) with (join [o; r; "blob"; b] "/").
      rewrite parseGitHubUrl_https; [done..|]. by repeat constructor.
    + change (o +:+ "/" +:+ r +:+ "/tree/" +:+ b) with (join [o; r; "tree"; b] "/").
      rewrite parseGitHubUrl_https; [done..|]. by repeat constructor.
  - assert (truthy (join (p :: ps) "/") = true) as ->.
    { unfold truthy. apply negb_true_iff, eqb_neq. by apply join_nonempty. }
    destruct t.
    + change (o +:+ "/" +:+ r +:+ "/blob/" +:+ b +:+ "/" +:+ join (p :: ps) "/")
        with (join (o :: r :: "blob" :: b :: p :: ps) "/").
      rewrite parseGitHubUrl_https; [done..|]. by do 4 (constructor; [done|]).
    + change (o +:+ "/" +:+ r +:+ "/tree/" +:+ b +:+ "/" +:+ join (p :: ps) "/")
        with (join (o :: r :: "tree" :: b :: p :: ps) "/").
      rewrite parseGitHubUrl_https; [done..|]. by do 4 (constructor; [done|]).
Qed.

Lemma parse_urlOf_witness :
  parseGitHubUrl "https://github.com/octo/hello/blob/dev/docs/guide/intro.md"
  = Some {| owner := "octo"; repo := "hello"; branch := "dev";
            path := "docs/guide/intro.md"; type := type_file |}.
Proof.
  apply (parse_urlOf {| owner := "octo"; repo := "hello"; branch := "dev";
                        path := "docs/guide/intro.md"; type := type_file |}).
  repeat split; try reflexivity.
  exists ["docs"; "guide"; "intro.md"]. split; [|reflexivity].
  repeat constructor.
Defined.

(** X21. The type of a parsed address is [file] exactly when the third
    piece after [github.com/] is [blob] and a fourth piece follows; in
    every other case it is [directory]. *)
Theorem type_is_file_for_blob url a :
  parseGitHubUrl url = Some a ->
  (type a = type_file <->
   exists rest o r b ps,
     afterFirst (cleanUrl url) githubPrefix = Some rest /\
     split rest "/" = o :: r :: "blob" :: b :: ps) /\
  (type a <> type_file -> type a = type_directory).
Proof.
  intros Hparse. split; [by apply ParserFacts.parse_type_file|].
  by destruct (type a).
Qed.

Lemma type_is_file_for_blob_witness :
  (type_file = type_file <->
   exists rest o r b ps,
     afterFirst (cleanUrl "https://github.com/o/r/blob/main/x") githubPrefix
     = Some rest /\
     split rest "/" = o :: r :: "blob" :: b :: ps) /\
  (type_file <> type_file -> type_file = type_directory).
Proof.
  apply (type_is_file_for_blob "https://github.com/o/r/blob/main/x"
           {| owner := "o"; repo := "r"; branch := "main"; path := "x";
              type := type_file |}).
  reflexivity.
Defined.

End ParserExtras.

(** * Beyond the claims: the archive and the job *)

Module ServicesExtras.

Import JS StringSpec JSFacts JSZip GitHub Services ServicesSpec JSZipFacts ServicesFacts
       ExtraSpec.

#[local] Arguments String.append : simpl nomatch.
Local Open Scope list_scope.

#[local] Existing Instance ServicesFacts.keeps_refl.
#[local] Existing Instance ServicesFacts.keeps_trans.

(** ** getZipFilename *)

Lemma nth_pred_last {A} (l : list A) d : nth (length l - 1) l d = List.last l d.
Proof.
  induction l as [|x l IH]; [done|]. destruct l as [|y l]; [done|].
  change (List.last (x :: y :: l) d) with (List.last (y :: l) d). rewrite <- IH.
  cbn [length Nat.sub nth]. by rewrite Nat.sub_0_r.
Qed.

Lemma getZipFilename_no_slash repo path :
  countChar "/" repo = O -> countChar "/" (getZipFilename repo path) = O.
Proof.
  intros Hrepo. unfold getZipFilename. destruct (negb (truthy path)).
  - by rewrite countChar_app, Hrepo.
  - rewrite nth_pred_last, !countChar_app, Hrepo, last_piece_no_slash. done.
Qed.

(** X6. The file name suggested for the archive of a parsed URL is a bare
    name: it contains no slash, whatever the path; it is the repository
    name followed by [.zip] for an empty path, and otherwise by a dash, the
    last piece of the path and [.zip]. *)
Theorem zip_filename_is_bare (url : string) (a : Parser.ParsedGitHubUrl) :
  Parser.parseGitHubUrl url = Some a ->
  countChar "/" (getZipFilename (Parser.repo a) (Parser.path a)) = O /\
  getZipFilename (Parser.repo a) (Parser.path a)
  = if String.eqb (Parser.path a) "" then Parser.repo a +:+ ".zip"
    else Parser.repo a +:+ "-" +:+ List.last (split (Parser.path a) "/") "" +:+ ".zip".
Proof.
  intros Hparse. split.
  - apply getZipFilename_no_slash. by apply (ParserExtras.parse_no_slash url).
  - unfold getZipFilename, truthy. rewrite nth_pred_last.
    by destruct (String.eqb (Parser.path a) "").
Qed.

Lemma zip_filename_is_bare_witness :
  countChar "/" (getZipFilename "hello" "src/lib") = O /\
  getZipFilename "hello" "src/lib" = "hello-lib.zip".
Proof.
  apply (zip_filename_is_bare "https://github.com/octo/hello/tree/dev/src/lib"
           {| Parser.owner := "octo"; Parser.repo := "hello"; Parser.branch := "dev";
              Parser.path := "src/lib"; Parser.type := Parser.type_directory |}).
  reflexivity.
Defined.

(** ** addFileToZip *)

(** X7. [addFileToZip] never throws, whatever the API answers: it returns
    after writing one entry, which holds the bytes, the base64 text or the
    placeholder text; the entry is at [zipPath] when this is not empty; no
    other entry is lost, and nothing is reported. *)
Theorem addFileToZip_always_returns api o r b path zipPath j :
  exists key d,
    addFileToZip api o r b path zipPath j
    = (Returned tt, setZip (JSZip.file key d (zip j)) j) /\
    (zipPath <> "" -> key = zipPath) /\
    (d = Text placeholder \/ (exists bytes, d = Binary bytes) \/
     (exists content, d = Base64 content)) /\
    JSZip.file key d (zip j) !! key = Some d /\
    (forall k e, k <> key -> zip j !! k = Some e ->
                 JSZip.file key d (zip j) !! k = Some e).
Proof.
  exists (fileKey api o r b path zipPath), (fileData api o r b path).
  split; [apply addFileToZip_eq|]. split; [apply fileKey_zipPath|].
  split; [|split; [apply file_lookup|intros k e; apply file_keeps]].
  unfold fileData, fetched.
  destruct (fileInfo api _) as [?|info]; [by left|].
  destruct (negb (truthy _)).
  - destruct (blob api _) as [?|bd]; [by left|].
    destruct (String.eqb _ _); [right; right; by eexists|by left].
  - destruct (raw api _) as [?|bytes]; [by left|right; left; by eexists].
Qed.

(** ** The job on a file *)

Lemma file_error key d (files : gmap string Data) k d' msg :
  readable files -> JSZip.file key d files !! k = Some d' -> k <> "" ->
  entryError d' = Some msg -> k = key /\ d' = d.
Proof.
  intros Hf Hk Hne He. unfold JSZip.file, fileAdd in Hk.
  destruct (decide (key = k)) as [<-|Hkk].
  - rewrite lookup_insert_eq in Hk. by injection Hk as <-.
  - rewrite lookup_insert_ne in Hk by done.
    assert (entryError d' = None); [|congruence].
    destruct (truthy _); [|by eapply Hf].
    by eapply (readable_folderAddUpTo _ _ files Hf).
Qed.

Lemma generated_file key d msg :
  key <> "" -> entryError d = Some msg -> generated (JSZip.file key d ∅) = inl msg.
Proof.
  intros Hne He. destruct (generated _) as [m|c] eqn:E.
  - apply generated_inl in E as (k & d' & Hk & Hkne & Hm).
    destruct (file_error _ _ _ _ _ _ readable_empty Hk Hkne Hm) as [_ ->]. congruence.
  - apply generated_inr_inv in E as [_ Hr].
    specialize (Hr key d (file_lookup _ _ _) Hne). congruence.
Qed.

Lemma fileData_shape api o r b path :
  fileData api o r b path = Text placeholder \/
  (exists bytes, fileData api o r b path = Binary bytes) \/
  (exists content, fileData api o r b path = Base64 content).
Proof.
  unfold fileData, fetched.
  destruct (fileInfo api _) as [?|info]; [by left|].
  destruct (negb (truthy _)).
  - destruct (blob api _) as [?|bd]; [by left|].
    destruct (String.eqb _ _); [right; right; by eexists|by left].
  - destruct (raw api _) as [?|bytes]; [by left|right; left; by eexists].
Qed.

(** The two ends of a file job. *)
Lemma file_job_cases api fuel parsedUrl j :
  Parser.type parsedUrl = Parser.type_file ->
  let key := fileKey api (Parser.owner parsedUrl) (Parser.repo parsedUrl)
                     (Parser.branch parsedUrl) (Parser.path parsedUrl) "" in
  let d := fileData api (Parser.owner parsedUrl) (Parser.repo parsedUrl)
                    (Parser.branch parsedUrl) (Parser.path parsedUrl) in
  (key = "" \/ entryError d = None ->
   downloadRepository api fuel parsedUrl j
   = (Returned true,
      {| zip := JSZip.file key d ∅; reported := reported j ++ closingReports;
         saved := Some (getZipFilename (Parser.repo parsedUrl) (Parser.path parsedUrl),
                        entries (JSZip.file key d ∅)) |})) /\
  (forall msg,
      key <> "" -> entryError d = Some msg ->
      downloadRepository api fuel parsedUrl j
      = (Thrown (PlainError msg),
         {| zip := JSZip.file key d ∅; reported := reported j ++ generatingReports;
            saved := saved j |})).
Proof.
  intros Ht key d. rewrite download_file by done. fold key d. split.
  - intros Hok. rewrite closing_readable; [done|]. cbn [setZip zip].
    apply readable_file; [apply readable_empty|].
    intros Hne. by destruct Hok.
  - intros msg Hne He. unfold closing. cbn [setZip zip reported saved].
    by rewrite (generated_file _ _ msg).
Qed.

(** X8. A file job ends in one of two ways, whatever the API answers and
    for any recursion bound: its one entry is the placeholder, the bytes or
    base64 text; when the entry can be read, or has the empty name,
    [downloadRepository] returns [true] after the reports 70, 80, 90 and
    saves the generated archive under the name of [getZipFilename]; when it
    is base64 text that cannot be decoded, under a name, generating the
    archive throws the error of the decoder after the reports 70 and 80,
    and nothing is saved. When the metadata and the bytes are served, and
    the name in the metadata is not empty and has no slash, the archive
    holds exactly one entry: the bytes, under the name of the metadata. *)
Theorem file_job_fails_only_in_generation api fuel parsedUrl j :
  Parser.type parsedUrl = Parser.type_file ->
  (exists key d,
      (d = Text placeholder \/ (exists bytes, d = Binary bytes) \/
       (exists content, d = Base64 content)) /\
      (key = "" \/ entryError d = None ->
       downloadRepository api fuel parsedUrl j
       = (Returned true,
          {| zip := JSZip.file key d ∅; reported := reported j ++ closingReports;
             saved := Some (getZipFilename (Parser.repo parsedUrl)
                                           (Parser.path parsedUrl),
                            entries (JSZip.file key d ∅)) |})) /\
      (forall msg,
          key <> "" -> entryError d = Some msg ->
          downloadRepository api fuel parsedUrl j
          = (Thrown (PlainError msg),
             {| zip := JSZip.file key d ∅; reported := reported j ++ generatingReports;
                saved := saved j |}))) /\
  (forall info url bytes,
      fileInfo api (contentsUrl (Parser.owner parsedUrl) (Parser.repo parsedUrl)
                      (Parser.branch parsedUrl) (Parser.path parsedUrl)) = inr info ->
      download_url info = Some url -> url <> "" ->
      raw api url = inr bytes ->
      name info <> "" -> countChar "/" (name info) = O ->
      downloadRepository api fuel parsedUrl j
      = (Returned true,
         {| zip := {[name info := Binary bytes]};
            reported := reported j ++ closingReports;
            saved := Some (getZipFilename (Parser.repo parsedUrl) (Parser.path parsedUrl),
                           {[name info := Binary bytes]}) |})).
Proof.
  intros Ht. split.
  - eexists _, _. split; [apply fileData_shape|]. by apply file_job_cases.
  - rewrite download_file by done.
    intros info url bytes Hinfo Hurl Hne Hraw Hname Hslash.
    unfold fileKey, fileData, fetched. rewrite Hinfo, Hurl. cbn [urlOrEmpty].
    unfold truthy at 1 2. destruct (String.eqb_spec url ""); [done|]. cbn [negb].
    rewrite Hraw. unfold orElse, truthy. cbn [String.eqb negb].
    rewrite file_alone by done. rewrite closing_readable.
    + cbn [setZip zip reported saved]. rewrite entries_id; [done|].
      by apply lookup_singleton_ne.
    + cbn [setZip zip]. by intros k d [<- <-]%lookup_singleton_Some _.
Qed.

Lemma file_job_fails_only_in_generation_witness :
  downloadRepository Mock.nestedApi 0
    {| Parser.owner := "o"; Parser.repo := "r"; Parser.branch := "main";
       Parser.path := "A/f1"; Parser.type := Parser.type_file |} startJob
  = (Returned true,
     {| zip := {["f1" := Binary "bytes of f1"]}; reported := closingReports;
        saved := Some ("r-f1.zip", {["f1" := Binary "bytes of f1"]}) |}).
Proof.
  destruct (file_job_fails_only_in_generation Mock.nestedApi 0
              {| Parser.owner := "o"; Parser.repo := "r"; Parser.branch := "main";
                 Parser.path := "A/f1"; Parser.type := Parser.type_file |} startJob
              eq_refl) as [_ Hserved].
  apply (Hserved (Mock.fileEntry "f1" "A/f1")
                 "https://raw.githubusercontent.com/o/r/main/A/f1" "bytes of f1");
    try reflexivity; discriminate.
Defined.

(** ** The walk ends *)

Lemma forEachFrom_ends {A} (body : Z -> A -> Run unit) i (items : list A) j :
  (forall i' item j0, In item items -> fst (body i' item j0) <> Diverged) ->
  fst (forEachFrom body i items j) <> Diverged.
Proof.
  revert i j; induction items as [|x items IH]; intros i j Hbody; [done|].
  cbn [forEachFrom]. unfold bind.
  pose proof (Hbody i x j ltac:(by left)) as Hx.
  destruct (body i x j) as [[[]|e|] j1]; [|done..].
  apply IH. intros i' item j0 Hin. apply Hbody. by right.
Qed.

Lemma fetch_ends api o r b depth path zipPath j :
  nestedWithin api o r b depth path ->
  fst (fetchDirectoryContents api (S depth) o r b path zipPath j) <> Diverged.
Proof.
  revert path zipPath j; induction depth as [|depth IH]; intros path zipPath j Hnest;
    rewrite fetch_S; unfold tryCatch, bind; cbn [nestedWithin] in Hnest;
    destruct (listing api (contentsUrl o r b path)) as [e|l];
    cbn [axiosGet throw ret];
    try (by destruct (hasStatus e 404)).
  - pose proof (forEachFrom_ends (walkEntry api 0 o r b zipPath (Z.of_nat (length l)))
                  0 l j) as Hloop.
    destruct (forEachFrom _ 0 l j) as [[[]|e|] j1]; [done|by destruct (hasStatus e 404)|].
    exfalso. apply Hloop; [|done]. intros i' item j0 Hin.
    rewrite Forall_forall in Hnest. apply list_elem_of_In, Hnest in Hin.
    unfold walkEntry, bind. cbn [onProgress].
    destruct (type item); try done. by rewrite addFileToZip_eq.
  - pose proof (forEachFrom_ends
                  (walkEntry api (S depth) o r b zipPath (Z.of_nat (length l))) 0 l j)
      as Hloop.
    destruct (forEachFrom _ 0 l j) as [[[]|e|] j1]; [done|by destruct (hasStatus e 404)|].
    exfalso. apply Hloop; [|done]. intros i' item j0 Hin.
    rewrite Forall_forall in Hnest. apply list_elem_of_In in Hin.
    pose proof (Hnest item Hin) as Hd.
    unfold walkEntry, bind. cbn [onProgress].
    destruct (type item) eqn:Et; try done; [by rewrite addFileToZip_eq|].
    cbn [zipFolder]. by apply IH, Hd.
Qed.

Lemma fetch_fuel_le api n m o r b path zipPath j :
  (n <= m)%nat ->
  fst (fetchDirectoryContents api n o r b path zipPath j) <> Diverged ->
  fetchDirectoryContents api m o r b path zipPath j
  = fetchDirectoryContents api n o r b path zipPath j.
Proof.
  intros Hle Hend. induction Hle as [|m Hle IH]; [done|].
  rewrite fetch_more_fuel; [done|]. by rewrite IH.
Qed.

(** X9. The walk ends on every finite tree: when the directories below
    the path are nested at most [depth] deep in the answers of the API, the
    walk with any larger recursion bound returns or throws, with a result
    that does not depend on the bound; and so does the job. *)
Theorem walk_ends_on_finite_trees api o r b depth path zipPath j fuel :
  nestedWithin api o r b depth path -> (depth < fuel)%nat ->
  fst (fetchDirectoryContents api fuel o r b path zipPath j) <> Diverged /\
  fetchDirectoryContents api fuel o r b path zipPath j
  = fetchDirectoryContents api (S depth) o r b path zipPath j /\
  (forall parsedUrl j0,
      Parser.owner parsedUrl = o -> Parser.repo parsedUrl = r ->
      Parser.branch parsedUrl = b -> Parser.path parsedUrl = path ->
      fst (downloadRepository api fuel parsedUrl j0) <> Diverged).
Proof.
  intros Hnest Hfuel.
  assert (forall zp j1,
            fetchDirectoryContents api fuel o r b path zp j1
            = fetchDirectoryContents api (S depth) o r b path zp j1) as Hsame.
  { intros zp j1. apply fetch_fuel_le; [lia|by apply fetch_ends]. }
  split; [rewrite Hsame; by apply fetch_ends|]. split; [apply Hsame|].
  intros parsedUrl j0 <- <- <- <-. destruct (Parser.type parsedUrl) eqn:Ht.
  - rewrite download_file by done. unfold closing. by destruct (generated _).
  - rewrite download_directory, Hsame by done.
    pose proof (fetch_ends api _ _ _ depth _ "" (setZip ∅ j0) Hnest) as Hend.
    destruct (fetchDirectoryContents _ _ _ _ _ _ _ _) as [[[]|e|] j1]; try done.
    unfold closing. by destruct (generated _).
Qed.

Lemma walk_ends_on_finite_trees_witness :
  fst (fetchDirectoryContents Mock.nestedApi 5 "o" "r" "main" "" "" startJob) <> Diverged.
Proof.
  apply (walk_ends_on_finite_trees Mock.nestedApi "o" "r" "main" 1 "" "" startJob 5);
    [|lia].
  cbn. repeat constructor; discriminate.
Defined.

(** ** Only the listings decide what the walk does *)

Lemma apiRel_withoutFiles api api' :
  (forall url, listing api' url = listing api url) -> apiRel api' (withoutFiles api).
Proof. intros Hlist. split; [done|]. intros o r b p. by right. Qed.

Lemma readable_generated (z : gmap string Data) msg :
  readable z -> generated z <> inl msg.
Proof. intros H. by rewrite generated_inr. Qed.

(** X10. File requests decide how a directory job ends only through the
    generation of the archive. For two mocks that answer the listing
    requests alike, with non-empty entry names, the archives have the same
    entry names, whatever the metadata, blob and raw requests answer; and
    when both archives can be read, the job ends the same way (the same
    return, or the same error) after the same reports. *)
Theorem only_listings_decide api api' fuel parsedUrl :
  namesOk api -> (forall url, listing api' url = listing api url) ->
  Parser.type parsedUrl = Parser.type_directory ->
  dom (zip (snd (downloadRepository api fuel parsedUrl startJob)))
  = dom (zip (snd (downloadRepository api' fuel parsedUrl startJob))) /\
  (readable (zip (snd (downloadRepository api fuel parsedUrl startJob))) ->
   readable (zip (snd (downloadRepository api' fuel parsedUrl startJob))) ->
   fst (downloadRepository api fuel parsedUrl startJob)
   = fst (downloadRepository api' fuel parsedUrl startJob) /\
   reported (snd (downloadRepository api fuel parsedUrl startJob))
   = reported (snd (downloadRepository api' fuel parsedUrl startJob))).
Proof.
  intros Hnames Hlist Ht.
  assert (namesOk api') as Hnames'.
  { intros url l item Hl. rewrite Hlist in Hl. by eapply Hnames. }
  rewrite !download_directory by done.
  destruct (runRel_fetch api (withoutFiles api) fuel (Parser.owner parsedUrl)
              (Parser.repo parsedUrl) (Parser.branch parsedUrl) (Parser.path parsedUrl) ""
              (apiRel_withoutFiles api api (fun _ => eq_refl)) Hnames
              (setZip ∅ startJob) (setZip ∅ startJob) (jobRel_refl _))
    as (Ho1 & Hz1 & Hr1 & _).
  destruct (runRel_fetch api' (withoutFiles api) fuel (Parser.owner parsedUrl)
              (Parser.repo parsedUrl) (Parser.branch parsedUrl) (Parser.path parsedUrl) ""
              (apiRel_withoutFiles api api' Hlist) Hnames'
              (setZip ∅ startJob) (setZip ∅ startJob) (jobRel_refl _))
    as (Ho2 & Hz2 & Hr2 & _).
  apply zipRel_dom in Hz1, Hz2.
  destruct (fetchDirectoryContents api _ _ _ _ _ _ _) as [o1 s1].
  destruct (fetchDirectoryContents api' _ _ _ _ _ _ _) as [o2 s2].
  destruct (fetchDirectoryContents (withoutFiles api) _ _ _ _ _ _ _) as [ow sw].
  cbn [fst snd] in *. subst o1 o2.
  destruct ow as [[]|e|]; cbn [fst snd]; [|split; [congruence|split; congruence]..].
  unfold closing.
  destruct (generated (zip s1)) as [m1|c1] eqn:E1, (generated (zip s2)) as [m2|c2] eqn:E2;
    cbn [fst snd zip reported]; (split; [congruence|]); intros H1 H2.
  - by apply (readable_generated _ m1) in H1.
  - by apply (readable_generated _ m1) in H1.
  - by apply (readable_generated _ m2) in H2.
  - split; [done|congruence].
Qed.

Lemma only_listings_decide_witness :
  dom (zip (snd (downloadRepository Mock.flatApi 1 Mock.rootDirectory startJob)))
  = dom (zip (snd (downloadRepository (withoutFiles Mock.flatApi) 1 Mock.rootDirectory
                     startJob))).
Proof.
  apply (only_listings_decide Mock.flatApi (withoutFiles Mock.flatApi) 1
           Mock.rootDirectory flatApi_namesOk (fun _ => eq_refl) eq_refl).
Defined.

(** ** Everything the walk comes to is in the archive *)

Lemma hasEntry_file key d k j :
  hasEntry k j -> hasEntry k (setZip (JSZip.file key d (zip j)) j).
Proof.
  intros [e He]. unfold hasEntry. cbn [setZip zip].
  destruct (decide (k = key)) as [->|Hne].
  - rewrite file_lookup. by eexists.
  - rewrite (file_keeps _ _ _ _ e) by done. by eexists.
Qed.

Lemma keeps_hasEntry_fetch api fuel o r b k path zipPath :
  steps (keeps (hasEntry k)) (fetchDirectoryContents api fuel o r b path zipPath).
Proof.
  apply steps_fetch.
  - intros p msg _ j Hj. exact Hj.
  - intros name j [e He]. exists e. by apply folder_keeps.
  - intros item k' _ _ j Hj. rewrite addFileToZip_eq. by apply hasEntry_file.
Qed.

Lemma keeps_hasEntry_walkEntry api fuel o r b k zipPath n i item :
  steps (keeps (hasEntry k)) (walkEntry api fuel o r b zipPath n i item).
Proof.
  unfold walkEntry. apply steps_bind; [intros j Hj; exact Hj|]. intros _.
  destruct (type item); try apply steps_ret.
  - intros j Hj. rewrite addFileToZip_eq. by apply hasEntry_file.
  - apply steps_bind; [|intros _; apply keeps_hasEntry_fetch].
    intros j [e He]. exists e. by apply folder_keeps.
Qed.

Lemma fetch_makes_entries api o r b fuel path zipPath j j' item k key :
  namesOk api ->
  fetchDirectoryContents api fuel o r b path zipPath j = (Returned tt, j') ->
  reaches api o r b path zipPath item k ->
  entryOf item k = Some key ->
  hasEntry key j'.
Proof.
  intros Hnames. revert path zipPath j j'; induction fuel as [|fuel IH];
    intros path zipPath j j' Hrun Hreach Hkey; [done|].
  assert (exists l, listing api (contentsUrl o r b path) = inr l) as [l El]
    by (inversion Hreach; by eauto).
  apply (fetch_returned _ _ _ _ _ _ _ l) in Hrun; [|done].
  pose proof (fun i' x (_ : In x l) =>
                keeps_hasEntry_walkEntry api fuel o r b key zipPath
                  (Z.of_nat (length l)) i' x) as Hbody.
  inversion Hreach as [path0 zp0 l0 item0 El0 Hin Hp Hz Hi Hk
                      |path0 zp0 l0 d item0 k0 El0 Hd Hdir Hsub Hp Hz Hi Hk];
    rewrite El in El0; injection El0 as <-.
  - destruct (forEachFrom_returned (keeps (hasEntry key))
                _ _ _ _ _ item Hbody Hrun Hin) as (i' & j0 & j1 & Hitem & Hkeep).
    apply Hkeep. unfold walkEntry, bind in Hitem. cbn [onProgress] in Hitem.
    assert (itemZipPath zipPath (name item) <> "") as Hne
      by (apply itemZipPath_nonempty; by eapply Hnames).
    unfold entryOf in Hkey. destruct (type item); try done.
    + injection Hkey as <-. rewrite addFileToZip_eq in Hitem.
      rewrite fileKey_zipPath in Hitem by done. injection Hitem as <-.
      unfold hasEntry. cbn [zip]. rewrite Hk, file_lookup. by eexists.
    + injection Hkey as <-. cbn [zipFolder] in Hitem.
      pose proof (keeps_hasEntry_fetch api fuel o r b (forceTrailingSlash k)
                    (GitHub.path item) (itemZipPath zipPath (name item))) as Hsteps.
      match type of Hitem with fetchDirectoryContents _ _ _ _ _ _ _ ?s = _ =>
        specialize (Hsteps s) end.
      rewrite Hitem in Hsteps. apply Hsteps.
      unfold hasEntry. cbn [zip]. rewrite <- Hk. by apply folder_makes.
  - destruct (forEachFrom_returned (keeps (hasEntry key))
                _ _ _ _ _ d Hbody Hrun Hd) as (i' & j0 & j1 & Hitem & Hkeep).
    apply Hkeep. unfold walkEntry, bind in Hitem. cbn [onProgress zipFolder] in Hitem.
    rewrite Hdir in Hitem. cbn [onProgress zipFolder] in Hitem.
    by eapply IH.
Qed.

(** X11. Nothing the walk comes to is missing. When a directory job
    succeeds, on a mock whose listings have non-empty names, the archive has
    an entry at the ZIP path of every file the walk came to, and an entry at
    the ZIP path followed by a slash for every directory it came to. *)
Theorem archive_has_every_entry api fuel parsedUrl j item k :
  namesOk api ->
  Parser.type parsedUrl = Parser.type_directory ->
  downloadRepository api fuel parsedUrl startJob = (Returned true, j) ->
  reaches api (Parser.owner parsedUrl) (Parser.repo parsedUrl) (Parser.branch parsedUrl)
          (Parser.path parsedUrl) "" item k ->
  (type item = item_file -> is_Some (zip j !! k)) /\
  (type item = item_dir -> is_Some (zip j !! forceTrailingSlash k)).
Proof.
  intros Hnames Ht Hrun Hreach. rewrite download_directory in Hrun by done.
  destruct (fetchDirectoryContents _ _ _ _ _ _ _ _) as [[[]|e|] j1] eqn:Ef; [|done..].
  apply closing_returned in Hrun as (_ & _ & -> & _).
  split; intros Hty.
  - apply (fetch_makes_entries api _ _ _ _ _ _ _ _ item k k Hnames Ef Hreach).
    unfold entryOf. by rewrite Hty.
  - apply (fetch_makes_entries api _ _ _ _ _ _ _ _ item k (forceTrailingSlash k)
             Hnames Ef Hreach).
    unfold entryOf. by rewrite Hty.
Qed.

Lemma archive_has_every_entry_witness :
  is_Some (zip (snd (downloadRepository Mock.nestedApi 2 Mock.rootDirectory startJob))
             !! "A/f2").
Proof.
  pose (res := downloadRepository Mock.nestedApi 2 Mock.rootDirectory startJob).
  apply (archive_has_every_entry Mock.nestedApi 2 Mock.rootDirectory (snd res)
           (Mock.fileEntry "f2" "A/f2") "A/f2").
  - intros url l item. by apply respond_namesOk.
  - reflexivity.
  - by vm_compute.
  - eapply (reaches_nested _ _ _ _ "" "" _ (Mock.dirEntry "A" "A"));
      [reflexivity|by left|reflexivity|].
    by eapply (reaches_entry _ _ _ _ "A" "A" _ (Mock.fileEntry "f2" "A/f2"));
      [reflexivity|right; left].
  - reflexivity.
Defined.

(** ** Entries that are neither files nor directories *)

Lemma skip_loop api fuel o r b zipPath n (l : list GitHubContent) :
  Forall (fun item => type item <> item_file /\ type item <> item_dir) l ->
  forall i j0,
    exists added,
      forEachFrom (walkEntry api fuel o r b zipPath n) i l j0
      = (Returned tt,
         {| zip := zip j0; reported := reported j0 ++ added; saved := saved j0 |}) /\
      length added = length l.
Proof.
  induction 1 as [|item items [Hf Hd] Hall IH]; intros i j0.
  - exists []. rewrite List.app_nil_r. by destruct j0.
  - cbn [forEachFrom]. unfold bind at 1. unfold walkEntry at 1. unfold bind at 1.
    cbn [onProgress]. destruct (type item) eqn:Et; try done; cbn [ret].
    all: match goal with |- context [forEachFrom _ _ _ ?s] =>
           destruct (IH (i + 1) s) as (added & -> & Hlen) end.
    all: eexists (_ :: added); cbn [zip reported saved length];
         rewrite <- List.app_assoc; split; [reflexivity|by rewrite Hlen].
Qed.

(** X12. Symbolic links and submodules are skipped. A listing with no
    file and no directory entry, the empty listing included, leaves the
    archive as it was: the walk returns after one report for each entry. *)
Theorem other_entries_are_skipped api fuel o r b path zipPath j l :
  listing api (contentsUrl o r b path) = inr l ->
  Forall (fun item => type item <> item_file /\ type item <> item_dir) l ->
  exists added,
    fetchDirectoryContents api (S fuel) o r b path zipPath j
    = (Returned tt,
       {| zip := zip j; reported := reported j ++ added; saved := saved j |}) /\
    length added = length l.
Proof.
  intros El Hall. rewrite fetch_S, El. unfold tryCatch, bind at 1. cbn [axiosGet ret].
  destruct (skip_loop api fuel o r b zipPath (Z.of_nat (length l)) l Hall 0 j)
    as (added & -> & Hlen).
  by exists added.
Qed.

Lemma other_entries_are_skipped_witness :
  exists added,
    fetchDirectoryContents linksApi 1 "o" "r" "main" "" "" startJob
    = (Returned tt,
       {| zip := zip startJob; reported := reported startJob ++ added;
          saved := saved startJob |}) /\
    length added = length links.
Proof.
  apply (other_entries_are_skipped linksApi 0 "o" "r" "main" "" "" startJob links);
    [reflexivity|].
  repeat constructor; discriminate.
Defined.

(** ** What is saved *)

Lemma download_saved api fuel parsedUrl j out j' :
  downloadRepository api fuel parsedUrl j = (out, j') ->
  match out with
  | Returned result =>
      result = true /\
      exists content,
        generated (zip j') = inr content /\
        saved j' = Some (getZipFilename (Parser.repo parsedUrl) (Parser.path parsedUrl),
                         content)
  | _ => saved j' = saved j
  end.
Proof.
  intros Hrun.
  destruct (download_cases _ _ _ _ _ _ Hrun)
    as (j1 & _ & Hsaved & [Hclose|[-> Hout]]).
  - apply closing_returned in Hclose. destruct out as [result|e|]; [| |done].
    + destruct Hclose as (-> & Hread & Hz & _ & ->). split; [done|].
      exists (entries (zip j1)). by rewrite Hz, generated_inr.
    + destruct Hclose as (_ & _ & _ & ->). done.
  - by destruct Hout as [->|(url & cause & _ & _ & ->)].
Qed.

(** X13. [FileSaver.saveAs] is called exactly when the job succeeds. If
    [downloadRepository] returns, it returns [true], and what it saved is
    what was generated from the whole archive, under the name of
    [getZipFilename]; if it throws, from the walk or from the generation
    of the archive, it saved nothing: what was saved before the call is
    what is saved after it. *)
Theorem saves_exactly_on_success api fuel parsedUrl j out j' :
  downloadRepository api fuel parsedUrl j = (out, j') ->
  match out with
  | Returned result =>
      result = true /\
      exists content,
        generated (zip j') = inr content /\
        saved j' = Some (getZipFilename (Parser.repo parsedUrl) (Parser.path parsedUrl),
                         content)
  | _ => saved j' = saved j
  end.
Proof. apply download_saved. Qed.

Lemma saves_exactly_on_success_witness :
  saved (snd (downloadRepository Mock.limitedApi 1 Mock.rootDirectory startJob)) = None.
Proof.
  pose (res := downloadRepository Mock.limitedApi 1 Mock.rootDirectory startJob).
  apply (saves_exactly_on_success Mock.limitedApi 1 Mock.rootDirectory startJob
           (Thrown (PlainError rateLimitMessage)) (snd res)).
  by vm_compute.
Defined.

End ServicesExtras.

(** * The page: what the user is shown *)

Module PageFacts.

Import JS StringSpec JSFacts Parser GitHub Services ServicesSpec ServicesFacts ExtraSpec.
Import ParserFacts ServicesExtras Page.

#[local] Arguments String.append : simpl nomatch.
Local Open Scope list_scope.

(** Every report of a job has a percentage from 30 to 90. *)
Lemma download_reports api fuel parsedUrl j :
  reportsAdded (fun p => 30 <= p <= 90) j
               (snd (downloadRepository api fuel parsedUrl j)).
Proof.
  destruct (downloadRepository api fuel parsedUrl j) as [out j'] eqn:Hrun. cbn [snd].
  destruct (download_cases _ _ _ _ _ _ Hrun)
    as (j1 & (walk & Hwalk & Hall) & _ & [Hclose|[-> _]]).
  - assert (exists tail, reported j' = reported j1 ++ tail /\
                         Forall (fun e => 30 <= fst e <= 90) tail) as (tail & Ht & Hr).
    { apply closing_returned in Hclose. destruct out as [result|e|]; [| |done].
      - destruct Hclose as (_ & _ & _ & -> & _). eexists. split; [done|].
        repeat constructor; simpl; lia.
      - destruct Hclose as (_ & _ & -> & _). eexists. split; [done|].
        repeat constructor; simpl; lia. }
    exists (walk ++ tail). rewrite Ht, Hwalk, List.app_assoc. split; [done|].
    apply Forall_app. split; [|done]. eapply Forall_impl; [exact Hall|]. simpl. lia.
  - exists walk. split; [done|]. eapply Forall_impl; [exact Hall|]. simpl. lia.
Qed.

Lemma unmarked_url url :
  includes url githubPrefix = false -> parseGitHubUrl url = None.
Proof.
  intros Hno. rewrite parseGitHubUrl_unfold, afterFirst_cleanUrl.
  destruct (afterFirst url githubPrefix) eqn:E; [|done].
  assert (includes url githubPrefix = true); [|congruence].
  apply includes_afterFirst. congruence.
Qed.

Lemma trim_allWhiteSpace url : allWhiteSpace url = true -> trim url = "".
Proof. intros H. unfold trim. by rewrite (trimStart_allWhiteSpace url H). Qed.

(** ** handleDownload *)

(** X14. A run of [handleDownload] that comes to its end shows a number of
    loading statuses, each with a percentage from 10 to 90, and then one
    last status: either success with 100, and then an archive was saved,
    or an error without a percentage, and then nothing was saved. *)
Theorem finished_run_statuses api fuel url :
  ended (handleDownload api fuel url) = true ->
  exists shown last,
    statuses (handleDownload api fuel url) = shown ++ [last] /\
    Forall (fun s => Page.type s = loading /\
                     exists p, progress s = Some p /\ 10 <= p <= 90) shown /\
    ((Page.type last = success /\ progress last = Some 100 /\
      is_Some (saved (job (handleDownload api fuel url)))) \/
     (Page.type last = error /\ progress last = None /\
      saved (job (handleDownload api fuel url)) = None)).
Proof.
  unfold handleDownload. destruct (parseGitHubUrl url) as [a|].
  2:{ intros _. eexists [_], _. split; [reflexivity|]. split; [|by right].
      constructor; [|constructor]. split; [done|]. exists 10. by split; [|lia]. }
  pose proof (download_reports api fuel a startJob) as (added & Hadd & Hall).
  pose proof (download_saved api fuel a startJob) as Hsaved.
  destruct (downloadRepository api fuel a startJob) as [[res|e|] j];
    cbn [ended statuses job snd] in *; [| |done]; intros _.
  all: specialize (Hsaved _ _ eq_refl); cbn [reported startJob] in Hadd.
  all: eexists (_ :: _ :: map progressStatus (reported j)), _;
    (split; [reflexivity|]).
  all: split;
    [constructor; [split; [done|]; exists 10; by split; [|lia]|];
     constructor; [split; [done|]; exists 30; by split; [|lia]|];
     apply Forall_map; rewrite Hadd; cbn [List.app];
     eapply Forall_impl; [exact Hall|]; intros [p msg] Hp; cbn [fst] in Hp;
     split; [done|]; exists p; by split; [|lia]|].
  - left. destruct Hsaved as (_ & content & _ & ->). by repeat split.
  - right. by repeat split.
Qed.

Lemma finished_run_statuses_witness :
  exists shown last,
    statuses (handleDownload Mock.flatApi 1 "https://github.com/o/r")
    = shown ++ [last] /\
    Forall (fun s => Page.type s = loading /\
                     exists p, progress s = Some p /\ 10 <= p <= 90) shown /\
    ((Page.type last = success /\ progress last = Some 100 /\
      is_Some (saved (job (handleDownload Mock.flatApi 1 "https://github.com/o/r")))) \/
     (Page.type last = error /\ progress last = None /\
      saved (job (handleDownload Mock.flatApi 1 "https://github.com/o/r")) = None)).
Proof.
  apply (finished_run_statuses Mock.flatApi 1 "https://github.com/o/r"). by vm_compute.
Defined.

(** X15. A URL that does not contain [github.com/] is refused before any
    request: the page shows the validation status and then the
    invalid-URL error, and no job has run. *)
Theorem unmarked_url_is_refused api fuel url :
  includes url githubPrefix = false ->
  handleDownload api fuel url =
    {| ended := true;
       statuses :=
         [{| Page.type := loading; message := "Validating URL..."; progress := Some 10 |};
          {| Page.type := error; message := invalidUrlMessage; progress := None |}];
       job := startJob |}.
Proof. intros Hno. unfold handleDownload. by rewrite (unmarked_url url Hno). Qed.

Lemma unmarked_url_is_refused_witness :
  statuses (handleDownload Mock.emptyApi 0 "https://gitlab.com/o/r") =
    [{| Page.type := loading; message := "Validating URL..."; progress := Some 10 |};
     {| Page.type := error; message := invalidUrlMessage; progress := None |}].
Proof.
  by rewrite (unmarked_url_is_refused Mock.emptyApi 0 "https://gitlab.com/o/r").
Defined.

(** X16. What the page shows for the address of a file, whatever the API
    answers: after the validation, the fetching message and the reports 70
    and 80, either the report 90 and the completion message, with an
    archive saved, or, when the one entry is base64 text that cannot be
    decoded, the message of the decoder as an error, with nothing saved.
    When the request for the metadata fails, as for a file that does not
    exist, the page ends with the completion message. *)
Theorem file_url_on_page api fuel url a :
  parseGitHubUrl url = Some a -> Parser.type a = type_file ->
  let shown :=
    [{| Page.type := loading; message := "Validating URL..."; progress := Some 10 |};
     {| Page.type := loading; message := fetchingMessage a; progress := Some 30 |};
     {| Page.type := loading; message := "Creating ZIP file..."; progress := Some 70 |};
     {| Page.type := loading; message := "Generating ZIP file..."; progress := Some 80 |}] in
  let completed :=
    shown ++
    [{| Page.type := loading; message := "Starting download..."; progress := Some 90 |};
     {| Page.type := success; message := completeMessage; progress := Some 100 |}] in
  ended (handleDownload api fuel url) = true /\
  (exists key d,
      (d = JSZip.Text placeholder \/ (exists bytes, d = JSZip.Binary bytes) \/
       (exists content, d = JSZip.Base64 content)) /\
      (key = "" \/ JSZip.entryError d = None ->
       statuses (handleDownload api fuel url) = completed /\
       is_Some (saved (job (handleDownload api fuel url)))) /\
      (forall msg,
          key <> "" -> JSZip.entryError d = Some msg ->
          statuses (handleDownload api fuel url)
          = shown ++ [{| Page.type := error; message := msg; progress := None |}] /\
          saved (job (handleDownload api fuel url)) = None)) /\
  (forall e,
      fileInfo api (contentsUrl (owner a) (repo a) (branch a) (Parser.path a)) = inl e ->
      statuses (handleDownload api fuel url) = completed).
Proof.
  intros Hparse Ht shown completed. unfold handleDownload. rewrite Hparse.
  destruct (file_job_cases api fuel a startJob Ht) as [Hok Hbad].
  split; [|split].
  - rewrite download_file by done. unfold closing. by destruct (JSZip.generated _).
  - eexists _, _. split; [apply fileData_shape|]. split.
    + intros H. by rewrite (Hok H).
    + intros msg Hne He. by rewrite (Hbad msg Hne He).
  - intros e He. rewrite Hok; [done|]. right.
    unfold fileData, fetched. by rewrite He.
Qed.

Lemma file_url_on_page_witness :
  statuses (handleDownload Mock.emptyApi 0 "https://github.com/o/r/blob/main/nothing")
  = [{| Page.type := loading; message := "Validating URL..."; progress := Some 10 |};
     {| Page.type := loading; message := "Fetching contents from o/r at nothing...";
        progress := Some 30 |};
     {| Page.type := loading; message := "Creating ZIP file..."; progress := Some 70 |};
     {| Page.type := loading; message := "Generating ZIP file..."; progress := Some 80 |};
     {| Page.type := loading; message := "Starting download..."; progress := Some 90 |};
     {| Page.type := success; message := completeMessage; progress := Some 100 |}].
Proof.
  destruct (file_url_on_page Mock.emptyApi 0 "https://github.com/o/r/blob/main/nothing"
              {| owner := "o"; repo := "r"; branch := "main"; Parser.path := "nothing";
                 Parser.type := type_file |} eq_refl eq_refl) as (_ & _ & Hmissing).
  exact (Hmissing Mock.notFound eq_refl).
Defined.

(** X17. What the page shows when the listing of the address itself
    fails. With status 404 the job succeeds all the same: the closing
    reports and the completion message follow, and the archive saved
    holds at most the folder of the path. With any other failure the
    page shows the message of the mapped error, and nothing is saved. *)
Theorem root_listing_failure_on_page api fuel url a e :
  parseGitHubUrl url = Some a -> Parser.type a = type_directory ->
  listing api (contentsUrl (owner a) (repo a) (branch a) (Parser.path a)) = inl e ->
  ended (handleDownload api (S fuel) url) = true /\
  statuses (handleDownload api (S fuel) url) =
    [{| Page.type := loading; message := "Validating URL..."; progress := Some 10 |};
     {| Page.type := loading; message := fetchingMessage a; progress := Some 30 |}]
    ++ (if hasStatus e 404
        then map progressStatus closingReports
             ++ [{| Page.type := success; message := completeMessage;
                    progress := Some 100 |}]
        else [{| Page.type := error; message := GitHub.message (rethrown e);
                 progress := None |}]) /\
  saved (job (handleDownload api (S fuel) url)) =
    (if hasStatus e 404
     then Some (getZipFilename (repo a) (Parser.path a),
                JSZip.folder (Parser.path a) ∅)
     else None).
Proof.
  intros Hparse Ht El. unfold handleDownload. rewrite Hparse.
  rewrite download_directory by done. rewrite fetch_S, El.
  unfold tryCatch, bind, axiosGet, throw, zipFolder, setZip.
  destruct (hasStatus e 404); [|by repeat split].
  unfold closing. cbn [zip reported saved startJob].
  change (orElse "" (Parser.path a)) with (Parser.path a).
  rewrite JSZipFacts.generated_folder. by repeat split.
Qed.

Lemma root_listing_failure_on_page_witness :
  ended (handleDownload Mock.limitedApi 1 "https://github.com/o/r") = true /\
  statuses (handleDownload Mock.limitedApi 1 "https://github.com/o/r") =
    [{| Page.type := loading; message := "Validating URL..."; progress := Some 10 |};
     {| Page.type := loading; message := "Fetching contents from o/r...";
        progress := Some 30 |};
     {| Page.type := error; message := rateLimitMessage; progress := None |}] /\
  saved (job (handleDownload Mock.limitedApi 1 "https://github.com/o/r")) = None.
Proof.
  apply (root_listing_failure_on_page Mock.limitedApi 0 "https://github.com/o/r"
           Mock.rootDirectory
           (AxiosError (Some 403) "Request failed with status code 403"));
    reflexivity.
Defined.

(** ** handleKeyDown and the button *)

Lemma handleKeyDown_eq key url status :
  handleKeyDown key url status =
    String.eqb key "Enter" && negb (buttonDisabled url status).
Proof.
  unfold handleKeyDown, buttonDisabled.
  by destruct (String.eqb key "Enter"), (truthy (trim url)), (isLoading status).
Qed.

(** X18. The Enter key starts a download exactly when the button is
    enabled, and no other key starts one. *)
Theorem enter_key_follows_button key url status :
  handleKeyDown key url status =
    String.eqb key "Enter" && negb (buttonDisabled url status).
Proof. apply handleKeyDown_eq. Qed.

(** X19. White space alone is never submitted: the button is disabled
    and no key starts a download; and while a download is loading the
    same holds for every input. *)
Theorem blank_or_busy_is_not_submitted key url status :
  allWhiteSpace url = true \/ Page.type status = loading ->
  buttonDisabled url status = true /\ handleKeyDown key url status = false.
Proof.
  intros H. rewrite handleKeyDown_eq.
  assert (buttonDisabled url status = true) as ->.
  { unfold buttonDisabled, isLoading. destruct H as [H| ->]; [|done].
    rewrite (trim_allWhiteSpace url H). by rewrite orb_true_r. }
  by rewrite andb_false_r.
Qed.

Lemma blank_or_busy_is_not_submitted_witness :
  buttonDisabled "   " {| Page.type := idle; message := ""; progress := None |} = true /\
  handleKeyDown "Enter" "   " {| Page.type := idle; message := ""; progress := None |}
  = false.
Proof.
  apply (blank_or_busy_is_not_submitted "Enter" "   "). by left.
Defined.

End PageFacts.

(** * The shape of the archive *)

Module ArchiveFacts.

Import JS StringSpec JSFacts JSZip GitHub Services ServicesSpec JSZipFacts ServicesFacts.
Import ExtraSpec.

#[local] Arguments String.append : simpl nomatch.
#[local] Existing Instance ServicesFacts.keeps_refl.
#[local] Existing Instance ServicesFacts.keeps_trans.

Lemma parentClosed_empty : parentClosed ∅.
Proof. intros k [d Hd]. by rewrite lookup_empty in Hd. Qed.

Lemma is_Some_insert (z : gmap string Data) k k' d :
  is_Some (z !! k') -> is_Some (<[k := d]> z !! k').
Proof.
  intros H. destruct (decide (k = k')) as [->|Hne].
  - rewrite lookup_insert_eq. by eexists.
  - by rewrite lookup_insert_ne.
Qed.

Lemma parentClosed_insert (z : gmap string Data) k d :
  parentClosed z ->
  (parentFolder k <> "" -> is_Some (z !! forceTrailingSlash (parentFolder k))) ->
  parentClosed (<[k := d]> z).
Proof.
  intros Hz Hk k' Hin Hparent. apply is_Some_insert.
  destruct (decide (k = k')) as [<-|Hne]; [by apply Hk|].
  rewrite lookup_insert_ne in Hin by done. by apply Hz.
Qed.

Lemma folderAdd_makes name (z : gmap string Data) :
  is_Some (folderAdd name z !! forceTrailingSlash name).
Proof. apply folderAddUpTo_makes. Qed.

Lemma truthy_ne s : truthy s = true <-> s <> "".
Proof. unfold truthy. by destruct (String.eqb_spec s ""). Qed.

Lemma parentClosed_folderAdd name (z : gmap string Data) :
  parentClosed z -> parentClosed (folderAdd name z).
Proof.
  intros Hz.
  remember (String.length (forceTrailingSlash name)) as n eqn:En.
  revert name En. induction (lt_wf n) as [n _ IH]. intros name ->.
  rewrite folderAdd_unfold.
  destruct (z !! forceTrailingSlash name) eqn:E; [done|].
  destruct (truthy (parentFolder (forceTrailingSlash name))) eqn:Et.
  - apply truthy_ne in Et. apply parentClosed_insert.
    + eapply IH; [|reflexivity]. by apply parentFolder_shorter.
    + intros _. apply folderAdd_makes.
  - apply parentClosed_insert; [done|]. intros Hne.
    apply truthy_ne in Hne. congruence.
Qed.

Lemma parentClosed_folder arg (z : gmap string Data) :
  parentClosed z -> parentClosed (folder arg z).
Proof.
  intros Hz. unfold folder. destruct (negb (truthy arg)); [done|].
  by apply parentClosed_folderAdd.
Qed.

Lemma parentClosed_file name d (z : gmap string Data) :
  parentClosed z -> parentClosed (file name d z).
Proof.
  intros Hz. unfold file, fileAdd.
  destruct (truthy (parentFolder name)) eqn:Et.
  - apply parentClosed_insert; [by apply parentClosed_folderAdd|].
    intros _. apply folderAdd_makes.
  - apply parentClosed_insert; [done|]. intros Hne.
    apply truthy_ne in Hne. congruence.
Qed.

Lemma parentClosed_fetch api fuel o r b path zipPath :
  steps (keeps (fun j => parentClosed (zip j)))
        (fetchDirectoryContents api fuel o r b path zipPath).
Proof.
  apply steps_fetch.
  - intros p msg _ j Hj. exact Hj.
  - intros name j Hj. by apply parentClosed_folder.
  - intros item k _ _ j Hj. rewrite addFileToZip_eq. by apply parentClosed_file.
Qed.

(** X20. Folders come with their files. In the archive of a job, however
    it ends, every entry that lies in a folder is accompanied by the entry
    of that folder: the code relies on JSZip to create the folders of a
    file path, and nothing it does removes one. *)
Theorem archive_is_parent_closed api fuel parsedUrl j :
  parentClosed (zip (snd (downloadRepository api fuel parsedUrl j))).
Proof.
  destruct (Parser.type parsedUrl) eqn:Ht.
  - rewrite download_file by done. rewrite closing_zip. cbn [setZip zip].
    apply parentClosed_file, parentClosed_empty.
  - rewrite download_directory by done.
    pose proof (parentClosed_fetch api fuel (Parser.owner parsedUrl)
                  (Parser.repo parsedUrl) (Parser.branch parsedUrl)
                  (Parser.path parsedUrl) "" (setZip ∅ j) parentClosed_empty) as Hc.
    destruct (fetchDirectoryContents _ _ _ _ _ _ _ _) as [[[]|e|] j1]; try done.
    by rewrite closing_zip.
Qed.

End ArchiveFacts.
